(** * pydicom.charset: character-set resolution and the escape-sequence
      driven decode/encode engine

    A shallow embedding of [pydicom/charset.py].  Python's codec machinery
    ([str.encode], [bytes.decode], [codecs.lookup]) is not part of the
    repository; it enters the development as a [CodecLayer] record.  The
    functions of the module are defined over an arbitrary layer, and a small
    concrete layer ([sample_codecs]) is used to run them on explicit inputs. *)

From Stdlib Require Import Strings.Byte Strings.Ascii.
From stdpp Require Import base option list numbers countable strings gmap.
From Equations Require Import Equations.

Set Default Proof Using "Type".
Local Open Scope string_scope.
Local Open Scope list_scope.

(** ** Bytes and text *)

(** A Python 3 [bytes] value is a sequence of octets, a [str] a sequence of
    Unicode code points. *)
Abbreviation bytes := (list byte).
Abbreviation text := (list N).

#[global] Instance byte_eq_dec : EqDecision byte := Byte.byte_eq_dec.

#[global] Instance byte_countable : Countable byte :=
  inj_countable Byte.to_N Byte.of_N Byte.of_to_N.

(** The escape character used to mark the start of escape sequences. *)
Definition ESC : byte := x1b.

(** [b'...'] literals: the octets of an ASCII string. *)
Definition b_ (s : string) : bytes := String.list_byte_of_string s.

(** ** Exceptions

    The exception classes the module raises or catches.  [UnicodeEncodeError]
    and [UnicodeDecodeError] are subclasses of [UnicodeError], itself a
    subclass of [ValueError]; [IndexError] and [KeyError] are subclasses of
    [LookupError]. *)
Inductive exn : Type :=
| UnicodeEncodeError (encoding : string) (object : text) (start stop : nat)
| UnicodeDecodeError (encoding : string) (object : bytes) (start stop : nat)
| LookupError (msg : string)
| IndexError
| KeyError (key : string)
| ValueError (msg : string)
| TypeError
| SystemError.

Definition is_UnicodeError (e : exn) : bool :=
  match e with
  | UnicodeEncodeError _ _ _ _ | UnicodeDecodeError _ _ _ _ => true
  | _ => false
  end.

Definition is_LookupError (e : exn) : bool :=
  match e with
  | LookupError _ | IndexError | KeyError _ => true
  | _ => false
  end.

Definition is_ValueError (e : exn) : bool :=
  match e with
  | ValueError _ => true
  | _ => is_UnicodeError e
  end.

(** [e.start] of a caught [UnicodeError]. *)
Definition exn_start (e : exn) : nat :=
  match e with
  | UnicodeEncodeError _ _ s _ | UnicodeDecodeError _ _ s _ => s
  | _ => 0
  end.

(** ** Computations that warn and raise

    A computation yields the messages it passed to [warnings.warn], in
    order, and either a raised exception or a value. *)
Definition W (A : Type) : Type := list string * (exn + A).

Definition ret {A} (a : A) : W A := ([], inr a).
Definition raise {A} (e : exn) : W A := ([], inl e).
Definition warn (msg : string) : W unit := ([msg], inr tt).

Definition bind {A B} (m : W A) (k : A → W B) : W B :=
  match m with
  | (ws, inl e) => (ws, inl e)
  | (ws, inr a) => let '(ws', r) := k a in (ws ++ ws', r)
  end.

(** [try: m except <class>: handler]: the handler runs when [m] raised an
    exception of the class; what [m] warned before raising stays emitted. *)
Definition try_except {A} (m : W A) (cls : exn → bool) (handler : exn → W A)
  : W A :=
  match m with
  | (ws, inl e) =>
      if cls e then let '(ws', r) := handler e in (ws ++ ws', r)
      else (ws, inl e)
  | ok => ok
  end.

(** A [try] statement with two [except] clauses: the first clause whose
    class matches handles the exception. *)
Definition try_except2 {A} (m : W A)
    (cls1 : exn → bool) (handler1 : exn → W A)
    (cls2 : exn → bool) (handler2 : exn → W A) : W A :=
  match m with
  | (ws, inl e) =>
      if cls1 e then let '(ws', r) := handler1 e in (ws ++ ws', r)
      else if cls2 e then let '(ws', r) := handler2 e in (ws ++ ws', r)
      else (ws, inl e)
  | ok => ok
  end.

Declare Scope py_scope.
Delimit Scope py_scope with py.
Notation "x <- m ;; k" := (bind m (fun x => k))
  (at level 100, m at next level, right associativity) : py_scope.
Notation "m >> k" := (bind m (fun _ => k))
  (at level 100, k at level 200, right associativity) : py_scope.
Local Open Scope py_scope.

Fixpoint mapM {A B} (f : A → W B) (l : list A) : W (list B) :=
  match l with
  | [] => ret []
  | x :: l' => y <- f x ;; ys <- mapM f l' ;; ret (y :: ys)
  end.

(** [", ".join(l)] *)
Definition join (sep : string) (l : list string) : string :=
  String.concat sep l.

(** ** The codec layer *)

(** What a codec call can raise: a [UnicodeError] with its [start, stop)
    range, or [LookupError] for an unknown codec name. *)
Inductive codec_error : Type :=
| CodecUnicodeError (start stop : nat)
| CodecLookupError.

(** What a call of [codecs.lookup] does: it finds a codec, or it raises,
    a [LookupError] for an unknown name, another exception for a name
    that is no codec name at all (CPython raises [ValueError] for a name
    with an embedded null character). *)
Inductive lookup_outcome : Type :=
| LookupFound
| LookupRaises (e : exn).

Record CodecLayer : Type := {
  (** [value.encode(encoding, errors=errors)] *)
  py_encode : string → string → text → codec_error + bytes;
  (** [value.decode(encoding, errors=errors)] *)
  py_decode : string → string → bytes → codec_error + text;
  (** [codecs.lookup(encoding)] *)
  codecs_lookup : string → lookup_outcome;
}.

(** ** The static tables of the module *)

(** default encoding if no encoding defined - corresponds to ISO IR 6 /
    ASCII *)
Definition default_encoding : string := "iso8859".

(** Map DICOM Specific Character Set to python equivalent. *)
Definition python_encoding : gmap string string :=
  list_to_map [
    ("", default_encoding);
    ("ISO_IR 6", default_encoding);
    ("ISO_IR 13", "shift_jis");
    ("ISO_IR 100", "latin_1");
    ("ISO_IR 101", "iso8859_2");
    ("ISO_IR 109", "iso8859_3");
    ("ISO_IR 110", "iso8859_4");
    ("ISO_IR 126", "iso_ir_126");
    ("ISO_IR 127", "iso_ir_127");
    ("ISO_IR 138", "iso_ir_138");
    ("ISO_IR 144", "iso_ir_144");
    ("ISO_IR 148", "iso_ir_148");
    ("ISO_IR 166", "iso_ir_166");
    ("ISO 2022 IR 6", "iso8859");
    ("ISO 2022 IR 13", "shift_jis");
    ("ISO 2022 IR 87", "iso2022_jp");
    ("ISO 2022 IR 100", "latin_1");
    ("ISO 2022 IR 101", "iso8859_2");
    ("ISO 2022 IR 109", "iso8859_3");
    ("ISO 2022 IR 110", "iso8859_4");
    ("ISO 2022 IR 126", "iso_ir_126");
    ("ISO 2022 IR 127", "iso_ir_127");
    ("ISO 2022 IR 138", "iso_ir_138");
    ("ISO 2022 IR 144", "iso_ir_144");
    ("ISO 2022 IR 148", "iso_ir_148");
    ("ISO 2022 IR 149", "euc_kr");
    ("ISO 2022 IR 159", "iso-2022-jp");
    ("ISO 2022 IR 166", "iso_ir_166");
    ("ISO 2022 IR 58", "iso_ir_58");
    ("ISO_IR 192", "UTF8");
    ("GB18030", "GB18030");
    ("ISO 2022 GBK", "GBK");
    ("ISO 2022 58", "GB2312");
    ("GBK", "GBK")
  ].

(** These encodings cannot be used with code extensions. *)
Definition STAND_ALONE_ENCODINGS : list string :=
  ["ISO_IR 192"; "GBK"; "GB18030"].

(** The items of [CODES_TO_ENCODINGS], in the order of the dict display. *)
Definition CODES_TO_ENCODINGS_items : list (bytes * string) := [
  (ESC :: b_ "(B", default_encoding);
  (ESC :: b_ "-A", "latin_1");
  (ESC :: b_ ")I", "shift_jis");
  (ESC :: b_ "(J", "shift_jis");
  (ESC :: b_ "$B", "iso2022_jp");
  (ESC :: b_ "-B", "iso8859_2");
  (ESC :: b_ "-C", "iso8859_3");
  (ESC :: b_ "-D", "iso8859_4");
  (ESC :: b_ "-F", "iso_ir_126");
  (ESC :: b_ "-G", "iso_ir_127");
  (ESC :: b_ "-H", "iso_ir_138");
  (ESC :: b_ "-L", "iso_ir_144");
  (ESC :: b_ "-M", "iso_ir_148");
  (ESC :: b_ "-T", "iso_ir_166");
  (ESC :: b_ "$)C", "euc_kr");
  (ESC :: b_ "$(D", "iso-2022-jp");
  (ESC :: b_ "$)A", "iso_ir_58")
].

(** Map escape sequences to Python encodings (the keys are distinct). *)
Definition CODES_TO_ENCODINGS : gmap bytes string :=
  list_to_map CODES_TO_ENCODINGS_items.

(** [{v: k for k, v in CODES_TO_ENCODINGS.items()}] stores the items in
    order, a later item replacing an earlier one with the same key; the
    entry of ['shift_jis'] is then set to [ESC + b')I']. *)
Definition ENCODINGS_TO_CODES : gmap string bytes :=
  <["shift_jis" := ESC :: b_ ")I"]>
    (foldl (fun m kv => <[kv.2 := kv.1]> m) ∅ CODES_TO_ENCODINGS_items).

(** Multi-byte character sets except Korean are handled by Python: the
    escape sequence is preserved in the input and removed by the codec. *)
Definition handled_encodings : list string :=
  ["iso2022_jp"; "iso-2022-jp"; "iso_ir_58"].

(** These encodings need escape sequence to handle alphanumeric
    characters. *)
Definition need_tail_escape_sequence_encodings : list string :=
  ["iso2022_jp"; "iso-2022-jp"].

(** [x in l] for a tuple or list of strings. *)
Definition str_in (x : string) (l : list string) : bool :=
  bool_decide (x ∈ l).

(** [d.get(k, default)] *)
Definition dict_get `{Countable K} {V} (d : gmap K V) (k : K) (dflt : V) : V :=
  default dflt (d !! k).

(** ** Python list and dict primitives *)

(** [l[i]] *)
Definition list_index {A} (l : list A) (i : nat) : W A :=
  match l !! i with
  | Some x => ret x
  | None => raise IndexError
  end.

(** [d[k]] for a dict with string keys *)
Definition dict_index {V} (d : gmap string V) (k : string) : W V :=
  match d !! k with
  | Some v => ret v
  | None => raise (KeyError k)
  end.

(** [enumerate(l)] *)
Fixpoint enumerate_from {A} (i : nat) (l : list A) : list (nat * A) :=
  match l with
  | [] => []
  | x :: l' => (i, x) :: enumerate_from (S i) l'
  end.

Definition enumerate {A} (l : list A) : list (nat * A) := enumerate_from 0 l.

(** [b[-n:]] and [b[:-n]] *)
Definition last_n {A} (n : nat) (l : list A) : list A :=
  drop (length l - n) l.
Definition but_last_n {A} (n : nat) (l : list A) : list A :=
  take (length l - n) l.

(** ** The encoder *)

Section Encoder.
Context (L : CodecLayer).
(** [config.enforce_valid_values] *)
Context (enforce_valid_values : bool).

(** [value.encode(encoding, errors=errors)] with the exception it
    raises. *)
Definition str_encode (value : text) (encoding errors : string) : W bytes :=
  match py_encode L encoding errors value with
  | inr b => ret b
  | inl (CodecUnicodeError s e) =>
      raise (UnicodeEncodeError encoding value s e)
  | inl CodecLookupError =>
      raise (LookupError ("unknown encoding: " +:+ encoding))
  end.

(** The body of the [for i, c in enumerate(value)] loop of
    [_encode_to_jis_x_0201], over the loop state [(buf, start, end)]. *)
Fixpoint _encode_to_jis_x_0201_loop (errors : string)
    (ics : list (nat * N)) (st : bytes * nat * nat)
  : W (bytes * nat * nat) :=
  match ics with
  | [] => ret st
  | (i, c) :: ics' =>
      let '(buf, start, end_) := st in
      encoded <- str_encode [c] "shift_jis" errors ;;
      if bool_decide (length encoded ≠ 1)
      then _encode_to_jis_x_0201_loop errors ics'
             (buf ++ b_ "?", start `min` i, end_ `max` (i + 1))
      else _encode_to_jis_x_0201_loop errors ics'
             (buf ++ encoded, start, end_)
  end.

(** Convert a unicode string into JIS X 0201 byte string using shift_jis
    encodings. *)
Definition _encode_to_jis_x_0201 (value : text) (errors : string)
  : W bytes :=
  st <- _encode_to_jis_x_0201_loop errors (enumerate value)
          (b_ "", length value, 0) ;;
  let '(buf, start, end_) := st in
  if bool_decide (start < length value) && bool_decide (0 < end_)
     && bool_decide (errors = "strict")
  then raise (UnicodeEncodeError "shift_jis" value start end_)
  else ret buf.

(** Convert a unicode string into JIS X 0208 byte string using iso2022_jp
    encodings; the trailing escape sequence to ASCII is trimmed. *)
Definition _encode_to_jis_x_0208 (value : text) (errors : string)
  : W bytes :=
  encoded <- str_encode value "iso2022_jp" errors ;;
  code <- dict_index ENCODINGS_TO_CODES default_encoding ;;
  if bool_decide (last_n 3 encoded = code)
  then ret (but_last_n 3 encoded)
  else ret encoded.

(** Return a escape sequence to handle alphanumeric characters. *)
Definition _get_escape_sequence_to_alphanumeric (encodings : list string)
  : W bytes :=
  enc0 <- list_index encodings 0 ;;
  if bool_decide (enc0 = "shift_jis")
  then ret (ESC :: b_ "(J")
  else ret (dict_get ENCODINGS_TO_CODES enc0 (b_ "")).

Definition custom_encoders (encoding : string)
  : option (text → string → W bytes) :=
  if bool_decide (encoding = "shift_jis") then Some _encode_to_jis_x_0201
  else if bool_decide (encoding = "iso2022_jp") then Some _encode_to_jis_x_0208
  else if bool_decide (encoding = "iso-2022-jp") then Some _encode_to_jis_x_0208
  else None.

(** Convert a unicode string into a byte string, with the custom encoder
    of the encoding if it has one. *)
Definition _encode_string_impl (value : text) (encoding errors : string)
  : W bytes :=
  match custom_encoders encoding with
  | Some encoder => encoder value errors
  | None => str_encode value encoding errors
  end.

(** The [for encoding in encodings] loop of [_encode_string_parts], over
    [(max_index, best_encoding)]; success of an encoding ends the loop. *)
Fixpoint _encode_string_parts_best (unencoded_part : text)
    (encodings : list string) (max_index : nat)
    (best_encoding : option string) : W (nat * option string) :=
  match encodings with
  | [] => ret (max_index, best_encoding)
  | encoding :: encodings' =>
      try_except
        (_encode_string_impl unencoded_part encoding "strict" >>
         ret (length unencoded_part, Some encoding))
        is_UnicodeError
        (fun e =>
           if bool_decide (max_index < exn_start e)
           then _encode_string_parts_best unencoded_part encodings'
                  (exn_start e) (Some encoding)
           else _encode_string_parts_best unencoded_part encodings'
                  max_index best_encoding)
  end.

Definition opt_str_in (x : option string) (l : list string) : bool :=
  match x with
  | Some s => str_in s l
  | None => false
  end.

(** The [while unencoded_part] loop of [_encode_string_parts], over
    [(unencoded_part, encoded, best_encoding)]; in an iteration that
    finds [max_index > 0] the loop over the encodings has set
    [best_encoding], and [None] as an encoding is a [TypeError]. *)
Equations? _encode_string_parts_while (encodings : list string)
    (unencoded_part : text) (encoded : bytes)
    (best_encoding : option string)
  : W (bytes * option string) by wf (length unencoded_part) lt :=
_encode_string_parts_while encodings [] encoded best_encoding :=
  ret (encoded, best_encoding);
_encode_string_parts_while encodings (c :: cs) encoded best_encoding :=
  found <- _encode_string_parts_best (c :: cs) encodings 0 best_encoding ;;
  match found.1 with
  | 0 => raise (ValueError "")
  | S n =>
      match found.2 with
      | None => raise TypeError
      | Some best =>
          encoded_part <- _encode_string_impl (take (S n) (c :: cs)) best
                            "strict" ;;
          _encode_string_parts_while encodings (drop n cs)
            ((if negb (str_in best handled_encodings)
              then encoded ++ dict_get ENCODINGS_TO_CODES best (b_ "")
              else encoded) ++ encoded_part)
            (Some best)
      end
  end.
Proof. rewrite length_drop. simpl. lia. Qed.

(** Convert a unicode string into a byte string using different encodings
    for different parts of the string. *)
Definition _encode_string_parts (value : text) (encodings : list string)
  : W bytes :=
  r <- _encode_string_parts_while encodings value (b_ "") None ;;
  if opt_str_in r.2 need_tail_escape_sequence_encodings
  then tail <- _get_escape_sequence_to_alphanumeric encodings ;;
       ret (r.1 ++ tail)
  else ret r.1.

(** The [else] clause of the loop of [encode_string]. *)
Definition encode_string_else (value : text) (encodings : list string)
  : W bytes :=
  r <- (if bool_decide (1 < length encodings)
        then try_except
               (encoded <- _encode_string_parts value encodings ;;
                ret (Some encoded))
               is_ValueError (fun _ => ret None)
        else ret None) ;;
  match r with
  | Some encoded => ret encoded
  | None =>
      (if enforce_valid_values
       then enc0 <- list_index encodings 0 ;;
            str_encode value enc0 "strict" >> ret tt
       else ret tt) >>
      warn ("Failed to encode value with encodings: "
            +:+ join ", " encodings
            +:+ " - using replacement characters in encoded string") >>
      (enc0 <- list_index encodings 0 ;;
       _encode_string_impl value enc0 "replace")
  end.

(** The [for i, encoding in enumerate(encodings)] loop of
    [encode_string]; [continue] goes on with the remaining pairs. *)
Fixpoint encode_string_for (value : text) (encodings : list string)
    (ies : list (nat * string)) : W bytes :=
  match ies with
  | [] => encode_string_else value encodings
  | (i, encoding) :: ies' =>
      try_except
        (encoded <- _encode_string_impl value encoding "strict" ;;
         let encoded :=
           if bool_decide (0 < i) && negb (str_in encoding handled_encodings)
           then dict_get ENCODINGS_TO_CODES encoding (b_ "") ++ encoded
           else encoded in
         if str_in encoding need_tail_escape_sequence_encodings
         then tail <- _get_escape_sequence_to_alphanumeric encodings ;;
              ret (encoded ++ tail)
         else ret encoded)
        is_UnicodeError
        (fun _ => encode_string_for value encodings ies')
  end.

(** Convert a unicode string into a byte string using the given list of
    encodings. *)
Definition encode_string (value : text) (encodings : list string)
  : W bytes :=
  encode_string_for value encodings (enumerate encodings).

End Encoder.

(** ** The decoder *)

(** [byte_str.startswith(prefix)] *)
Definition startswith (byte_str prefix : bytes) : bool :=
  bool_decide (prefix `prefix_of` byte_str).

(** [next((index for index, ch in enumerate(byte_str) if ch in delimiters),
    None)] *)
Definition first_delimiter (byte_str : bytes) (delimiters : gset byte)
  : option nat :=
  fst <$> list_find (fun ch => ch ∈ delimiters) byte_str.

(** The matches in [value] of the pattern of [decode_string] (at the start
    of the value, one or more bytes other than ESC; or else ESC followed by
    any number of bytes other than ESC), read from the right: the run of
    non-escape bytes that [value] starts with, and the substrings that start
    at an escape byte and run up to the next one. *)
Fixpoint split_at_escapes (value : bytes) : bytes * list bytes :=
  match value with
  | [] => ([], [])
  | b :: value' =>
      let '(run, fragments) := split_at_escapes value' in
      if bool_decide (b = ESC) then ([], (b :: run) :: fragments)
      else (b :: run, fragments)
  end.

(** [re.findall(regex, value)]: the first alternative needs at least one
    byte, an empty leading run is no match. *)
Definition findall_fragments (value : bytes) : list bytes :=
  let '(run, fragments) := split_at_escapes value in
  match run with
  | [] => fragments
  | _ :: _ => run :: fragments
  end.

(** [4 if byte_str.startswith((b'\x1b$(', b'\x1b$)')) else 3]: all
    4-character escape codes start with one of two character sets. *)
Definition seq_length_of (byte_str : bytes) : nat :=
  if startswith byte_str (ESC :: b_ "$(")
     || startswith byte_str (ESC :: b_ "$)") then 4 else 3.

Section Decoder.
Context (L : CodecLayer).
(** [config.enforce_valid_values] *)
Context (enforce_valid_values : bool).

(** [value.decode(encoding, errors=errors)] with the exception it
    raises. *)
Definition bytes_decode (value : bytes) (encoding errors : string)
  : W text :=
  match py_decode L encoding errors value with
  | inr t => ret t
  | inl (CodecUnicodeError s e) =>
      raise (UnicodeDecodeError encoding value s e)
  | inl CodecLookupError =>
      raise (LookupError ("unknown encoding: " +:+ encoding))
  end.

(** Decodes a byte string starting with an escape sequence. *)
Definition _decode_escaped_fragment (byte_str : bytes)
    (encodings : list string) (delimiters : gset byte) : W text :=
  let seq_length := seq_length_of byte_str in
  let encoding := dict_get CODES_TO_ENCODINGS (take seq_length byte_str) "" in
  if str_in encoding encodings || bool_decide (encoding = default_encoding)
  then
    if str_in encoding handled_encodings
    then bytes_decode byte_str encoding "strict"
    else
      let byte_str := drop seq_length byte_str in
      match first_delimiter byte_str delimiters with
      | Some index =>
          head <- bytes_decode (take index byte_str) encoding "strict" ;;
          enc0 <- list_index encodings 0 ;;
          tail <- bytes_decode (drop index byte_str) enc0 "strict" ;;
          ret (head ++ tail)
      | None => bytes_decode byte_str encoding "strict"
      end
  else
    let msg := "Found unknown escape sequence in encoded string value" in
    if enforce_valid_values then raise (ValueError msg)
    else
      enc0 <- list_index encodings 0 ;;
      warn (msg +:+ " - using encoding " +:+ enc0) >>
      (enc0 <- list_index encodings 0 ;;
       bytes_decode byte_str enc0 "replace").

(** Decode a byte string encoded with a single encoding. *)
Definition _decode_fragment (byte_str : bytes) (encodings : list string)
    (delimiters : gset byte) : W text :=
  try_except
    (if startswith byte_str [ESC]
     then _decode_escaped_fragment byte_str encodings delimiters
     else enc0 <- list_index encodings 0 ;;
          bytes_decode byte_str enc0 "strict")
    is_UnicodeError
    (fun e =>
       if enforce_valid_values then raise e
       else
         warn ("Failed to decode byte string with encodings: "
               +:+ join ", " encodings
               +:+ " - using replacement characters in decoded string") >>
         (enc0 <- list_index encodings 0 ;;
          bytes_decode byte_str enc0 "replace")).

(** Convert a raw byte string into a unicode string using the given list
    of encodings. *)
Definition decode_string (value : bytes) (encodings : list string)
    (delimiters : gset byte) : W text :=
  if negb (bool_decide (ESC ∈ value))
  then
    first_encoding <- list_index encodings 0 ;;
    try_except2
      (bytes_decode value first_encoding "strict")
      is_LookupError
      (fun e =>
         if enforce_valid_values then raise e
         else
           warn ("Unknown encoding '" +:+ first_encoding
                 +:+ "' - using default encoding instead") >>
           bytes_decode value default_encoding "strict")
      is_UnicodeError
      (fun e =>
         if enforce_valid_values then raise e
         else
           warn ("Failed to decode byte string with encoding '"
                 +:+ first_encoding
                 +:+ "' - using replacement characters in decoded string") >>
           bytes_decode value first_encoding "replace")
  else
    parts <- mapM (fun fragment =>
                     _decode_fragment fragment encodings delimiters)
                  (findall_fragments value) ;;
    ret (concat parts).

End Decoder.

(** ** The identifier resolver *)

(** [s[n:]] *)
Fixpoint str_drop (n : nat) (s : string) : string :=
  match n, s with
  | 0, _ => s
  | S n', String _ s' => str_drop n' s'
  | S _, EmptyString => EmptyString
  end.

(** [re.match('^ISO[^_]IR', encoding) is not None] *)
Definition matches_standard_misspelling (encoding : string) : bool :=
  match encoding with
  | String "I"%char (String "S"%char (String "O"%char (String c (String "I"%char (String "R"%char _)))))
    => negb (Ascii.eqb c "_"%char)
  | _ => false
  end.

(** [.] of a regular expression: any character except a newline. *)
Definition re_dot (c : ascii) : bool := negb (Ascii.eqb c "010"%char).

(** [re.match('^(?=ISO.2022.IR.)(?!ISO 2022 IR )', encoding) is not None] *)
Definition matches_extension_misspelling (encoding : string) : bool :=
  match encoding with
  | String "I"%char (String "S"%char (String "O"%char (String c3
      (String "2"%char (String "0"%char (String "2"%char (String "2"%char (String c8
      (String "I"%char (String "R"%char (String c11 _)))))))))))
    => re_dot c3 && re_dot c8 && re_dot c11
       && negb (Ascii.eqb c3 " "%char && Ascii.eqb c8 " "%char && Ascii.eqb c11 " "%char)
  | _ => false
  end.

Section Resolver.
Context (L : CodecLayer).
(** [config.enforce_valid_values] *)
Context (enforce_valid_values : bool).

(** Issue a warning for the given invalid encoding; without a replacement
    encoding, and with [config.enforce_valid_values] set, [LookupError] is
    raised. *)
Definition _warn_about_invalid_encoding (encoding : string)
    (patched_encoding : option string) : W unit :=
  match patched_encoding with
  | None =>
      if enforce_valid_values
      then raise (LookupError ("Unknown encoding '" +:+ encoding +:+ "'"))
      else warn ("Unknown encoding '" +:+ encoding
                 +:+ "' - using default encoding instead")
  | Some patched =>
      warn ("Incorrect value for Specific Character Set '" +:+ encoding
            +:+ "' - assuming '" +:+ patched +:+ "'")
  end.

(** Try to replace the given invalid encoding with a valid encoding by
    checking for common spelling errors; otherwise check if the encoding
    is already a valid Python encoding; if both attempts fail, return the
    default encoding. *)
Definition _python_encoding_for_corrected_encoding (encoding : string)
  : W string :=
  let patched :=
    if matches_standard_misspelling encoding
    then Some ("ISO_IR" +:+ str_drop 6 encoding)
    else if matches_extension_misspelling encoding
    then Some ("ISO 2022 IR " +:+ str_drop 12 encoding)
    else None in
  match patched with
  | Some patched =>
      match python_encoding !! patched with
      | Some py_encoding =>
          _warn_about_invalid_encoding encoding (Some patched) >>
          ret py_encoding
      | None =>
          _warn_about_invalid_encoding encoding None >>
          ret default_encoding
      end
  | None =>
      (* fallback: assume that it is already a python encoding *)
      try_except
        (match codecs_lookup L encoding with
         | LookupFound => ret encoding
         | LookupRaises e => raise e
         end)
        is_LookupError
        (fun _ =>
           _warn_about_invalid_encoding encoding None >>
           ret default_encoding)
  end.

(** What the loop of [convert_encodings] appends for one encoding. *)
Definition python_encoding_of (encoding : string) : W string :=
  match python_encoding !! encoding with
  | Some py_encoding => ret py_encoding
  | None => _python_encoding_for_corrected_encoding encoding
  end.

End Resolver.

(** *** Lists as objects

    [convert_encodings] is handed a list object and builds others.  A store
    maps each reference to the content of its list; a computation on the
    store returns the new store together with what it warned and raised or
    returned. *)
Abbreviation loc := nat.
Abbreviation store := (gmap nat (list string)).

Definition H (A : Type) : Type := store → store * W A.

Definition hret {A} (a : A) : H A := fun σ => (σ, ret a).
Definition hraise {A} (e : exn) : H A := fun σ => (σ, raise e).
Definition lift {A} (m : W A) : H A := fun σ => (σ, m).

Definition hbind {A B} (m : H A) (k : A → H B) : H B :=
  fun σ =>
    match m σ with
    | (σ1, (ws, inl e)) => (σ1, (ws, inl e))
    | (σ1, (ws, inr a)) =>
        let '(σ2, (ws', r)) := k a σ1 in (σ2, (ws ++ ws', r))
    end.

Declare Scope store_scope.
Delimit Scope store_scope with H.
Notation "x <- m ;; k" := (hbind m (fun x => k))
  (at level 100, m at next level, right associativity) : store_scope.
Notation "m >> k" := (hbind m (fun _ => k))
  (at level 100, k at level 200, right associativity) : store_scope.

(** A new list object. *)
Definition alloc (l : list string) : H loc :=
  fun σ => let r := fresh (dom σ) in (<[r := l]> σ, ret r).

(** The content of a list object; a reference always has one. *)
Definition load (r : loc) : H (list string) :=
  fun σ =>
    match σ !! r with
    | Some l => (σ, ret l)
    | None => (σ, raise SystemError)
    end.

Definition store_list (r : loc) (l : list string) : H unit :=
  fun σ => (<[r := l]> σ, ret tt).

(** [r[i]] *)
Definition getitem (r : loc) (i : nat) : H string :=
  (l <- load r ;; lift (list_index l i))%H.

(** [r[i] = v] *)
Definition setitem (r : loc) (i : nat) (v : string) : H unit :=
  (l <- load r ;;
   if bool_decide (i < length l) then store_list r (<[i := v]> l)
   else hraise IndexError)%H.

(** [r.append(v)] *)
Definition append (r : loc) (v : string) : H unit :=
  (l <- load r ;; store_list r (l ++ [v]))%H.

(** [del r[i]] *)
Definition delitem (r : loc) (i : nat) : H unit :=
  (l <- load r ;;
   if bool_decide (i < length l) then store_list r (delete i l)
   else hraise IndexError)%H.

(** [for x in l: body(x)], for a list of values that the body leaves
    alone. *)
Fixpoint for_each {A} (l : list A) (body : A → H unit) : H unit :=
  match l with
  | [] => hret tt
  | x :: l' => (body x >> for_each l' body)%H
  end.

(** The argument of [convert_encodings]: a bare string or a list. *)
Inductive pyarg : Type :=
| PyStr (s : string)
| PyList (r : loc).

Section Converter.
Context (L : CodecLayer).
(** [config.enforce_valid_values] *)
Context (enforce_valid_values : bool).
Local Open Scope store_scope.

(** Check for stand-alone encodings in multi-valued encodings. *)
Definition _handle_illegal_standalone_encodings
    (encodings py_encodings : loc) : H loc :=
  first <- getitem encodings 0 ;;
  if str_in first STAND_ALONE_ENCODINGS
  then
    items <- load encodings ;;
    lift (warn ("Value '" +:+ first
                +:+ "' for Specific Character Set does not "
                +:+ "allow code extensions, ignoring: "
                +:+ join ", " (drop 1 items))) >>
    (l <- load py_encodings ;; alloc (take 1 l))
  else
    items <- load encodings ;;
    for_each (reverse (enumerate (drop 1 items)))
      (fun ie =>
         if str_in ie.2 STAND_ALONE_ENCODINGS
         then lift (warn ("Value '" +:+ ie.2
                          +:+ "' cannot be used as code extension, "
                          +:+ "ignoring it")) >>
              delitem py_encodings (ie.1 + 1)
         else hret tt) >>
    hret py_encodings.

(** The part of [convert_encodings] from [py_encodings = []] on, once
    [encodings] is the list of its own that the function works with. *)
Definition convert_encodings_loop (encodings : loc) : H loc :=
  py_encodings <- alloc [] ;;
  items <- load encodings ;;
  for_each items
    (fun encoding =>
       py_encoding <- lift (python_encoding_of L enforce_valid_values
                              encoding) ;;
       append py_encodings py_encoding) >>
  (items <- load encodings ;;
   if bool_decide (1 < length items)
   then _handle_illegal_standalone_encodings encodings py_encodings
   else hret py_encodings).

(** Converts DICOM encodings into corresponding python encodings. *)
Definition convert_encodings (encodings : pyarg) : H loc :=
  (* If a list is passed, we don't want to modify the list in place so
     copy it *)
  encodings <- match encodings with
               | PyStr s => hret (PyStr s)
               | PyList r => l <- load r ;; r' <- alloc l ;; hret (PyList r')
               end ;;
  encodings <- match encodings with
               | PyStr s => alloc [s]
               | PyList r =>
                   first <- getitem r 0 ;;
                   (if bool_decide (first = "")
                    then setitem r 0 "ISO_IR 6" else hret tt) >>
                   hret r
               end ;;
  convert_encodings_loop encodings.

End Converter.

(** ** A sample of Python's codecs

    A concrete codec layer on which the functions above can be run.  It
    follows CPython's codecs on the repertoire listed here and knows no
    other codec name:
    - ['latin_1'] and its alias ['iso8859']: the code points below 256, one
      byte each; an encode error spans the run of unencodable characters;
    - ['shift_jis']: the code points below 128 as themselves, the yen sign
      and the overline as 0x5C and 0x7E, the half-width katakana
      U+FF61..U+FF9F as the single bytes 0xA1..0xDF, and the hiragana
      U+3041..U+3093 as the two bytes 0x82, 0x9F..0xF1; an error spans one
      character.  The rest of JIS X 0208 is left out: the sample reports
      those characters as unencodable;
    - ['GBK']: the code points below 128 only, as themselves.
    The error handlers are ['strict'], ['replace'] and ['ignore']; another
    name is a [LookupError] when an error is met.  [codecs.lookup] raises
    [ValueError] for a name with a null character and [LookupError] for
    any other name that is not listed here. *)
Module Sample.

Definition byte_of (n : N) : byte := default x00 (Byte.of_N n).

Definition latin_1_char (c : N) : option bytes :=
  if (c <? 256)%N then Some [byte_of c] else None.

Definition ascii_char (c : N) : option bytes :=
  if (c <? 128)%N then Some [byte_of c] else None.

Definition shift_jis_char (c : N) : option bytes :=
  if (c <? 128)%N then Some [byte_of c]
  else if (c =? 165)%N then Some [x5c]
  else if (c =? 8254)%N then Some [x7e]
  else if (65377 <=? c)%N && (c <=? 65439)%N then Some [byte_of (c - 65216)]
  else if (12353 <=? c)%N && (c <=? 12435)%N
    then Some [x82; byte_of (c - 12353 + 159)]
  else None.

(** The length of the run of unencodable characters that [value] starts
    with. *)
Fixpoint bad_run (enc_char : N → option bytes) (value : text) : nat :=
  match value with
  | c :: value' =>
      match enc_char c with
      | None => S (bad_run enc_char value')
      | Some _ => 0
      end
  | [] => 0
  end.

(** Encoding character by character from index [i] on; [whole_run] says
    whether an error spans the whole run of unencodable characters. *)
Fixpoint encode_chars (enc_char : N → option bytes) (whole_run : bool)
    (errors : string) (i : nat) (value : text) : codec_error + bytes :=
  match value with
  | [] => inr []
  | c :: value' =>
      match enc_char c with
      | Some b =>
          match encode_chars enc_char whole_run errors (S i) value' with
          | inr bs => inr (b ++ bs)
          | inl e => inl e
          end
      | None =>
          if bool_decide (errors = "strict")
          then inl (CodecUnicodeError i
                      (if whole_run then i + bad_run enc_char value else S i))
          else if bool_decide (errors = "replace")
          then match encode_chars enc_char whole_run errors (S i) value' with
               | inr bs => inr (x3f :: bs)
               | inl e => inl e
               end
          else if bool_decide (errors = "ignore")
          then encode_chars enc_char whole_run errors (S i) value'
          else inl CodecLookupError
      end
  end.

Definition latin_1_decode (value : bytes) : text := Byte.to_N <$> value.

(** Decoding bytewise, for the single-byte part of a codec given by
    [dec_byte]; an undecodable byte is an error of one byte. *)
Fixpoint decode_bytes (dec_byte : byte → option N) (errors : string)
    (i : nat) (value : bytes) : codec_error + text :=
  match value with
  | [] => inr []
  | b :: value' =>
      match dec_byte b with
      | Some c =>
          match decode_bytes dec_byte errors (S i) value' with
          | inr cs => inr (c :: cs)
          | inl e => inl e
          end
      | None =>
          if bool_decide (errors = "strict")
          then inl (CodecUnicodeError i (S i))
          else if bool_decide (errors = "replace")
          then match decode_bytes dec_byte errors (S i) value' with
               | inr cs => inr (65533%N :: cs)
               | inl e => inl e
               end
          else if bool_decide (errors = "ignore")
          then decode_bytes dec_byte errors (S i) value'
          else inl CodecLookupError
      end
  end.

Definition ascii_byte (b : byte) : option N :=
  let n := Byte.to_N b in if (n <? 128)%N then Some n else None.

(** The single-byte part of shift_jis. *)
Definition shift_jis_byte (b : byte) : option N :=
  let n := Byte.to_N b in
  if (n <? 128)%N then Some n
  else if (161 <=? n)%N && (n <=? 223)%N then Some (n + 65216)%N
  else None.

(** shift_jis with the two-byte hiragana row; any other lead byte is an
    error of one byte. *)
Fixpoint shift_jis_decode (errors : string) (i : nat) (value : bytes)
  : codec_error + text :=
  let emit (c : option N) (rest : codec_error + text) :=
    match rest with
    | inr cs => inr (from_option (λ c, c :: cs) cs c)
    | inl e => inl e
    end in
  match value with
  | [] => inr []
  | b :: value' =>
      match shift_jis_byte b with
      | Some c => emit (Some c) (shift_jis_decode errors (S i) value')
      | None =>
          let n2 := match value' with b2 :: _ => Byte.to_N b2 | [] => 0%N end in
          if bool_decide (b = x82) && (159 <=? n2)%N && (n2 <=? 241)%N
          then match value' with
               | _ :: value'' =>
                   emit (Some (n2 - 159 + 12353)%N)
                     (shift_jis_decode errors (S (S i)) value'')
               | [] => inr []
               end
          else if bool_decide (errors = "strict")
          then inl (CodecUnicodeError i (S i))
          else if bool_decide (errors = "replace")
          then emit (Some 65533%N) (shift_jis_decode errors (S i) value')
          else if bool_decide (errors = "ignore")
          then emit None (shift_jis_decode errors (S i) value')
          else inl CodecLookupError
      end
  end.

Definition is_latin_1 (encoding : string) : bool :=
  bool_decide (encoding = "latin_1") || bool_decide (encoding = "iso8859").

Definition encode (encoding errors : string) (value : text)
  : codec_error + bytes :=
  if is_latin_1 encoding then encode_chars latin_1_char true errors 0 value
  else if bool_decide (encoding = "shift_jis")
  then encode_chars shift_jis_char false errors 0 value
  else if bool_decide (encoding = "GBK")
  then encode_chars ascii_char false errors 0 value
  else inl CodecLookupError.

Definition decode (encoding errors : string) (value : bytes)
  : codec_error + text :=
  if is_latin_1 encoding then inr (latin_1_decode value)
  else if bool_decide (encoding = "shift_jis")
  then shift_jis_decode errors 0 value
  else if bool_decide (encoding = "GBK")
  then decode_bytes ascii_byte errors 0 value
  else inl CodecLookupError.

(** Whether a name holds a null character. *)
Fixpoint has_null (name : string) : bool :=
  match name with
  | EmptyString => false
  | String c name' => Ascii.eqb c "000"%char || has_null name'
  end.

Definition lookup (encoding : string) : lookup_outcome :=
  if has_null encoding
  then LookupRaises (ValueError "embedded null character")
  else if bool_decide (encoding ∈ ["latin_1"; "iso8859"; "shift_jis"; "GBK"])
  then LookupFound
  else LookupRaises (LookupError ("unknown encoding: " +:+ encoding)).

End Sample.

Definition sample_codecs : CodecLayer :=
  {| py_encode := Sample.encode;
     py_decode := Sample.decode;
     codecs_lookup := Sample.lookup |}.

(** ** A sample with iso2022_jp

    [sample_codecs] together with ['iso2022_jp'] and its alias
    ['iso-2022-jp'], on ASCII and the hiragana U+3041..U+3093 of row 4 of
    JIS X 0208.  As CPython's codec does, the encoder writes [ESC $ B]
    before a run of two-byte characters, here the bytes 0x24, 0x21..0x73
    of a hiragana, and [ESC ( B] before the ASCII characters that follow
    such a run and at the end of a value that ends in one; the decoder
    reads [ESC $ B], [ESC ( B] and [ESC ( J] as designations.  An error
    spans one character or byte. *)
Module SampleJP.

Definition jis_x_0208_char (c : N) : option bytes :=
  if (12353 <=? c)%N && (c <=? 12435)%N
  then Some [x24; Sample.byte_of (c - 12353 + 33)] else None.

(** Encoding from index [i] on; [two_byte] says whether JIS X 0208 is
    designated. *)
Fixpoint encode_from (two_byte : bool) (errors : string) (i : nat)
    (value : text) : codec_error + bytes :=
  let emit (bs : bytes) (rest : codec_error + bytes) :=
    match rest with
    | inr bs' => inr (bs ++ bs')
    | inl e => inl e
    end in
  let to_ascii : bytes := if two_byte then ESC :: b_ "(B" else [] in
  match value with
  | [] => inr to_ascii
  | c :: value' =>
      if (c <? 128)%N
      then emit (to_ascii ++ [Sample.byte_of c])
             (encode_from false errors (S i) value')
      else
        match jis_x_0208_char c with
        | Some bs =>
            emit ((if two_byte then [] else ESC :: b_ "$B") ++ bs)
              (encode_from true errors (S i) value')
        | None =>
            if bool_decide (errors = "strict")
            then inl (CodecUnicodeError i (S i))
            else if bool_decide (errors = "replace")
            then emit (to_ascii ++ [x3f])
                   (encode_from false errors (S i) value')
            else if bool_decide (errors = "ignore")
            then encode_from two_byte errors (S i) value'
            else inl CodecLookupError
        end
  end.

(** What the decoder does with a byte it cannot read, at index [i];
    [skip] decodes what follows the byte. *)
Definition recover (errors : string) (i : nat)
    (skip : unit → codec_error + text) : codec_error + text :=
  if bool_decide (errors = "strict") then inl (CodecUnicodeError i (S i))
  else if bool_decide (errors = "replace")
  then match skip tt with
       | inr cs => inr (65533%N :: cs)
       | inl e => inl e
       end
  else if bool_decide (errors = "ignore") then skip tt
  else inl CodecLookupError.

Fixpoint decode_from (two_byte : bool) (errors : string) (i : nat)
    (value : bytes) : codec_error + text :=
  let emit (c : N) (rest : codec_error + text) :=
    match rest with
    | inr cs => inr (c :: cs)
    | inl e => inl e
    end in
  match value with
  | [] => inr []
  | b :: value' =>
      let skip := fun _ : unit => decode_from two_byte errors (S i) value' in
      if bool_decide (b = ESC)
      then
        match value' with
        | b1 :: b2 :: value'' =>
            if bool_decide (b1 = x24) && bool_decide (b2 = x42)
            then decode_from true errors (i + 3) value''
            else if bool_decide (b1 = x28)
                    && (bool_decide (b2 = x42) || bool_decide (b2 = x4a))
            then decode_from false errors (i + 3) value''
            else recover errors i skip
        | _ => recover errors i skip
        end
      else if two_byte
      then
        match value' with
        | b2 :: value'' =>
            let n2 := Byte.to_N b2 in
            if bool_decide (b = x24) && (33 <=? n2)%N && (n2 <=? 115)%N
            then emit (n2 - 33 + 12353)%N
                   (decode_from true errors (i + 2) value'')
            else recover errors i skip
        | [] => recover errors i skip
        end
      else if (Byte.to_N b <? 128)%N
      then emit (Byte.to_N b) (decode_from false errors (S i) value')
      else recover errors i skip
  end.

Definition is_iso2022_jp (encoding : string) : bool :=
  bool_decide (encoding = "iso2022_jp")
  || bool_decide (encoding = "iso-2022-jp").

End SampleJP.

Definition sample_codecs_jp : CodecLayer :=
  {| py_encode := fun encoding errors value =>
       if SampleJP.is_iso2022_jp encoding
       then SampleJP.encode_from false errors 0 value
       else Sample.encode encoding errors value;
     py_decode := fun encoding errors value =>
       if SampleJP.is_iso2022_jp encoding
       then SampleJP.decode_from false errors 0 value
       else Sample.decode encoding errors value;
     codecs_lookup := fun encoding =>
       if SampleJP.is_iso2022_jp encoding then LookupFound
       else Sample.lookup encoding |}.

(** ** Vocabulary of the statements *)

(** What [_encode_to_jis_x_0201] keeps of the bytes of one character. *)
Definition single_or_question (encoded : bytes) : bytes :=
  if bool_decide (length encoded ≠ 1) then b_ "?" else encoded.

(** The index of the first, and of the last, character whose bytes are not
    one byte. *)
Definition first_not_single (l : list bytes) : option nat :=
  fst <$> list_find (fun encoded => length encoded ≠ 1) l.

Fixpoint last_not_single (l : list bytes) : option nat :=
  match l with
  | [] => None
  | encoded :: l' =>
      match last_not_single l' with
      | Some j => Some (S j)
      | None => if bool_decide (length encoded ≠ 1) then Some 0 else None
      end
  end.

(** The declared encodings once an empty first one is replaced by
    ['ISO_IR 6']. *)
Definition with_default_first (encodings : list string) : list string :=
  match encodings with
  | first :: extensions =>
      (if bool_decide (first = "") then "ISO_IR 6" else first) :: extensions
  | [] => []
  end.

(** Of the Python encodings of the code extensions, those whose declared
    encoding is not a stand-alone encoding. *)
Fixpoint keep_extensions (declared py_encodings : list string)
  : list string :=
  match declared, py_encodings with
  | d :: declared', p :: py_encodings' =>
      if str_in d STAND_ALONE_ENCODINGS
      then keep_extensions declared' py_encodings'
      else p :: keep_extensions declared' py_encodings'
  | _, _ => []
  end.

(** The Python encodings left by the check for stand-alone encodings. *)
Definition without_standalone (declared py_encodings : list string)
  : list string :=
  match declared, py_encodings with
  | first :: extensions, p :: ps =>
      if str_in first STAND_ALONE_ENCODINGS then [p]
      else p :: keep_extensions extensions ps
  | _, _ => py_encodings
  end.

(** The warnings of that check. *)
Definition extension_warning (d : string) : string :=
  "Value '" +:+ d +:+ "' cannot be used as code extension, "
  +:+ "ignoring it".

Definition standalone_warnings (declared : list string) : list string :=
  match declared with
  | first :: extensions =>
      if str_in first STAND_ALONE_ENCODINGS
      then ["Value '" +:+ first
            +:+ "' for Specific Character Set does not "
            +:+ "allow code extensions, ignoring: "
            +:+ join ", " extensions]
      else extension_warning
           <$> reverse (filter (fun d => d ∈ STAND_ALONE_ENCODINGS)
                               extensions)
  | [] => []
  end.

(** An encoding that [convert_encodings] takes for a Python encoding as it
    is: the table maps it to itself, or it is no key of the table, is no
    misspelling that the function corrects, and names a codec. *)
Definition resolves_to_itself (L : CodecLayer) (encoding : string) : Prop :=
  python_encoding !! encoding = Some encoding
  ∨ (python_encoding !! encoding = None
     ∧ matches_standard_misspelling encoding = false
     ∧ matches_extension_misspelling encoding = false
     ∧ codecs_lookup L encoding = LookupFound).

(** An encoding that [convert_encodings] cannot give a Python encoding:
    it is no key of the table, and either it is a misspelling whose
    correction is no key of the table, or it is no misspelling and
    [codecs.lookup] raises [LookupError] for it. *)
Definition unknown_encoding (L : CodecLayer) (encoding : string) : Prop :=
  python_encoding !! encoding = None
  ∧ if matches_standard_misspelling encoding
    then python_encoding !! ("ISO_IR" +:+ str_drop 6 encoding) = None
    else if matches_extension_misspelling encoding
    then python_encoding !! ("ISO 2022 IR " +:+ str_drop 12 encoding) = None
    else ∃ e, codecs_lookup L encoding = LookupRaises e
              ∧ is_LookupError e = true.

(** An encoding for which [codecs.lookup] finds a codec or raises
    [LookupError], as it does for every name that is a string without
    null character. *)
Definition plain_lookup (L : CodecLayer) (encoding : string) : Prop :=
  ∀ e, codecs_lookup L encoding = LookupRaises e → is_LookupError e = true.

(** A part of an encoded value: an escape code, the encoding it stands
    for, the bytes that follow it, and the text of these bytes. *)
Record escaped_part : Type := {
  part_code : bytes;
  part_encoding : string;
  part_bytes : bytes;
  part_text : text;
}.

(** The bytes of a part: the escape code and what follows it. *)
Definition part_fragment (p : escaped_part) : bytes :=
  part_code p ++ part_bytes p.

(** A part as the decoder expects it: the code is in the table, for a
    declared encoding (or the default one) that Python does not handle
    itself; the bytes after the code hold no escape byte and no delimiter,
    and the codec of the encoding decodes them to the text of the part. *)
Definition well_formed_part (L : CodecLayer) (encodings : list string)
    (delimiters : gset byte) (p : escaped_part) : Prop :=
  CODES_TO_ENCODINGS !! part_code p = Some (part_encoding p)
  ∧ (part_encoding p ∈ encodings ∨ part_encoding p = default_encoding)
  ∧ (part_encoding p ∉ handled_encodings)
  ∧ (ESC ∉ part_bytes p)
  ∧ Forall (fun ch => ch ∉ delimiters) (part_bytes p)
  ∧ py_decode L (part_encoding p) "strict" (part_bytes p)
    = inr (part_text p).

(** An encoding whose encoder refuses the value with a [UnicodeError]. *)
Definition refuses (L : CodecLayer) (value : text) (encoding : string)
  : Prop :=
  ∃ e, _encode_string_impl L value encoding "strict" = raise e
       ∧ is_UnicodeError e = true.

(** What a computation on the store does from [σ]: it returns [a], or
    raises [e], in the store [σ'] after the warnings [ws]. *)
Definition returns {A} (m : H A) (σ σ' : store) (ws : list string) (a : A)
  : Prop := m σ = (σ', (ws, inr a)).
Definition raises {A} (m : H A) (σ σ' : store) (ws : list string) (e : exn)
  : Prop := m σ = (σ', (ws, inl e)).

(** * Properties *)

(** ** Computations *)

Lemma bind_ret_l {A B} (a : A) (k : A → W B) : bind (ret a) k = k a.
Proof. unfold bind, ret. by destruct (k a) as [ws r]. Qed.

Lemma bind_raise {A B} (e : exn) (k : A → W B) : bind (raise e) k = raise e.
Proof. reflexivity. Qed.

Lemma bind_ret_r {A} (m : W A) : bind m ret = m.
Proof.
  destruct m as [ws [e|a]]; simpl; [done|]. by rewrite app_nil_r.
Qed.

Lemma bind_assoc {A B C} (m : W A) (k : A → W B) (k' : B → W C) :
  bind (bind m k) k' = bind m (fun a => bind (k a) k').
Proof.
  destruct m as [ws [e|a]]; simpl; [done|].
  destruct (k a) as [ws1 [e|b]]; simpl; [done|].
  destruct (k' b) as [ws2 r]. by rewrite app_assoc.
Qed.

Lemma try_except_ok {A} ws (a : A) cls handler :
  try_except (ws, inr a) cls handler = (ws, inr a).
Proof. reflexivity. Qed.

(** A loop over a list whose steps each return: the warnings and the
    values of the steps, in order. *)
Lemma mapM_results {A B} (f : A → W B) l (results : list (list string * B)) :
  Forall2 (fun x r => f x = (r.1, inr r.2)) l results →
  mapM f l = (concat (fst <$> results), inr (snd <$> results)).
Proof.
  induction 1 as [|x [ws y] l results Hx _ IH]; [reflexivity|].
  cbn [mapM fmap list_fmap concat fst snd] in *. rewrite Hx, IH.
  cbn [bind ret]. by rewrite app_nil_r.
Qed.

(** A loop that ends at the first step that raises. *)
Lemma mapM_results_raise {A B} (f : A → W B) l x l'
    (results : list (list string * B)) ws e :
  Forall2 (fun x r => f x = (r.1, inr r.2)) l results →
  f x = (ws, inl e) →
  mapM f (l ++ x :: l') = (concat (fst <$> results) ++ ws, inl e).
Proof.
  intros Hl Hx.
  induction Hl as [|a [ws1 y] l results Ha _ IH].
  { cbn [app mapM fmap list_fmap concat]. by rewrite Hx. }
  cbn [app mapM fmap list_fmap concat fst snd] in *. rewrite Ha, IH.
  cbn [bind]. by rewrite app_assoc.
Qed.

(** ** The tables *)

Lemma escape_shift_jis : ESC :: b_ ")I" = [x1b; x29; x49].
Proof. reflexivity. Qed.

Example ENCODINGS_TO_CODES_shift_jis :
  ENCODINGS_TO_CODES !! "shift_jis" = Some [x1b; x29; x49].
Proof. vm_compute. reflexivity. Qed.

Example ENCODINGS_TO_CODES_default :
  ENCODINGS_TO_CODES !! default_encoding = Some [x1b; x28; x42].
Proof. vm_compute. reflexivity. Qed.

Example CODES_TO_ENCODINGS_J :
  CODES_TO_ENCODINGS !! [x1b; x28; x4a] = Some "shift_jis".
Proof. vm_compute. reflexivity. Qed.

Example CODES_TO_ENCODINGS_I :
  CODES_TO_ENCODINGS !! [x1b; x29; x49] = Some "shift_jis".
Proof. vm_compute. reflexivity. Qed.

(** ** Splitting a value at its escape bytes *)

Lemma split_at_escapes_concat value :
  (split_at_escapes value).1 ++ concat (split_at_escapes value).2 = value.
Proof.
  induction value as [|b value IH]; [done|]. simpl.
  destruct (split_at_escapes value) as [run fragments]. simpl in *.
  case_bool_decide; simpl; by rewrite IH.
Qed.

Lemma split_at_escapes_run value : ESC ∉ (split_at_escapes value).1.
Proof.
  induction value as [|b value IH]; simpl; [by apply not_elem_of_nil|].
  destruct (split_at_escapes value) as [run fragments]. simpl in *.
  case_bool_decide; simpl; [by apply not_elem_of_nil|].
  rewrite not_elem_of_cons. split; [congruence|done].
Qed.

Lemma split_at_escapes_fragments value :
  Forall (fun fragment => ∃ rest, fragment = ESC :: rest ∧ ESC ∉ rest)
         (split_at_escapes value).2.
Proof.
  induction value as [|b value IH]; simpl; [by constructor|].
  pose proof (split_at_escapes_run value) as Hrun.
  destruct (split_at_escapes value) as [run fragments]. simpl in *.
  case_bool_decide as Hb; simpl; [|done].
  constructor; [|done]. exists run. by rewrite Hb.
Qed.

Lemma split_at_escapes_count value :
  length (split_at_escapes value).2 = length (filter (fun b => b = ESC) value).
Proof.
  induction value as [|b value IH]; [done|]. simpl.
  destruct (split_at_escapes value) as [run fragments]. simpl in *.
  rewrite filter_cons. case_bool_decide as Hb; case_decide; simpl; congruence.
Qed.

Lemma split_at_escapes_no_escape value :
  ESC ∉ value → split_at_escapes value = (value, []).
Proof.
  induction value as [|b value IH]; [done|].
  rewrite not_elem_of_cons. intros [Hb Hvalue]. simpl.
  rewrite (IH Hvalue). case_bool_decide; congruence.
Qed.

Lemma split_at_escapes_app_no_escape run value :
  ESC ∉ run →
  split_at_escapes (run ++ value)
  = (run ++ (split_at_escapes value).1, (split_at_escapes value).2).
Proof.
  induction run as [|b run IH]; intros Hrun.
  { simpl. by destruct (split_at_escapes value). }
  apply not_elem_of_cons in Hrun as [Hb Hrun].
  cbn [app split_at_escapes]. rewrite (IH Hrun).
  by rewrite bool_decide_eq_false_2 by congruence.
Qed.

Lemma split_at_escapes_escaped (fragments : list bytes) :
  Forall (fun fragment => ∃ rest, fragment = ESC :: rest ∧ ESC ∉ rest)
         fragments →
  split_at_escapes (concat fragments) = ([], fragments).
Proof.
  induction 1 as [|fragment fragments (rest & -> & Hrest) _ IH]; [done|].
  cbn [concat app split_at_escapes].
  rewrite (split_at_escapes_app_no_escape _ _ Hrest), IH.
  cbn [fst snd]. by rewrite app_nil_r, bool_decide_eq_true_2.
Qed.

Lemma split_at_escapes_split run rests :
  ESC ∉ run → Forall (fun rest => ESC ∉ rest) rests →
  split_at_escapes (run ++ concat ((fun rest => ESC :: rest) <$> rests))
  = (run, (fun rest => ESC :: rest) <$> rests).
Proof.
  intros Hrun Hrests.
  rewrite (split_at_escapes_app_no_escape _ _ Hrun).
  rewrite split_at_escapes_escaped.
  - cbn [fst snd]. by rewrite app_nil_r.
  - apply Forall_fmap. eapply Forall_impl; [exact Hrests|].
    intros rest Hrest. by exists rest.
Qed.

Lemma findall_fragments_concat value : concat (findall_fragments value) = value.
Proof.
  unfold findall_fragments.
  pose proof (split_at_escapes_concat value) as Hcat.
  destruct (split_at_escapes value) as [[|b run] fragments]; simpl in *; done.
Qed.

Section DecoderProperties.
Context (L : CodecLayer) (enforce_valid_values : bool).

Lemma bytes_decode_ok value encoding errors decoded :
  py_decode L encoding errors value = inr decoded →
  bytes_decode L value encoding errors = ret decoded.
Proof. unfold bytes_decode. by intros ->. Qed.

Lemma bytes_decode_unicode_error value encoding errors start stop :
  py_decode L encoding errors value = inl (CodecUnicodeError start stop) →
  bytes_decode L value encoding errors
  = raise (UnicodeDecodeError encoding value start stop).
Proof. unfold bytes_decode. by intros ->. Qed.

Lemma bytes_decode_lookup_error value encoding errors :
  py_decode L encoding errors value = inl CodecLookupError →
  bytes_decode L value encoding errors
  = raise (LookupError ("unknown encoding: " +:+ encoding)).
Proof. unfold bytes_decode. by intros ->. Qed.

(** C8.  A value with at least one escape byte is split into the run of
    non-escape bytes it starts with (a fragment when it is not empty) and
    one fragment per escape byte, from that byte up to the next escape
    byte.  There is such a split, and for every split of the value into
    such a run and such fragments: the fragments in order make up the
    value again, and [decode_string] decodes them one by one, in order.
    When each fragment gives a text, the result is the texts one after
    the other, after the warnings of the fragments in order; when a
    fragment raises, [decode_string] raises the same after the warnings
    up to there, and no later fragment is decoded. *)
Theorem decode_string_escape_path value encodings delimiters :
  ESC ∈ value →
  (∃ (run : bytes) (rests : list bytes),
     (ESC ∉ run) ∧ Forall (fun rest => ESC ∉ rest) rests
     ∧ length rests = length (filter (fun b => b = ESC) value)
     ∧ value = run ++ concat ((fun rest => ESC :: rest) <$> rests))
  ∧ ∀ (run : bytes) (rests : list bytes),
      ESC ∉ run → Forall (fun rest => ESC ∉ rest) rests →
      value = run ++ concat ((fun rest => ESC :: rest) <$> rests) →
      let fragments :=
        (match run with [] => [] | _ :: _ => [run] end)
        ++ ((fun rest => ESC :: rest) <$> rests) in
      concat fragments = value
      ∧ (∀ results : list (list string * text),
           Forall2 (fun fragment r =>
                      _decode_fragment L enforce_valid_values fragment
                        encodings delimiters
                      = (r.1, inr r.2))
                   fragments results →
           decode_string L enforce_valid_values value encodings delimiters
           = (concat (fst <$> results), inr (concat (snd <$> results))))
      ∧ (∀ decoded failing later (results : list (list string * text))
           ws e,
           fragments = decoded ++ failing :: later →
           Forall2 (fun fragment r =>
                      _decode_fragment L enforce_valid_values fragment
                        encodings delimiters
                      = (r.1, inr r.2))
                   decoded results →
           _decode_fragment L enforce_valid_values failing encodings
             delimiters
           = (ws, inl e) →
           decode_string L enforce_valid_values value encodings delimiters
           = (concat (fst <$> results) ++ ws, inl e)).
Proof.
  intros Hesc. split.
  - pose proof (split_at_escapes_concat value) as Hcat.
    pose proof (split_at_escapes_run value) as Hrun.
    pose proof (split_at_escapes_fragments value) as Hfrags.
    pose proof (split_at_escapes_count value) as Hcount.
    destruct (split_at_escapes value) as [run fragments]. simpl in *.
    assert (∃ rests, fragments = (fun rest => ESC :: rest) <$> rests
                     ∧ Forall (fun rest => ESC ∉ rest) rests)
      as (rests & -> & Hrests).
    { clear -Hfrags. induction Hfrags as [|f fs (rest & -> & Hrest) _ IH].
      - by exists [].
      - destruct IH as (rests & -> & Hrests).
        exists (rest :: rests). split; [done|]. by constructor. }
    exists run, rests. rewrite length_fmap in Hcount. done.
  - intros run rests Hrun Hrests Hvalue fragments.
    assert (findall_fragments value = fragments) as Hall.
    { unfold findall_fragments.
      rewrite Hvalue, (split_at_escapes_split _ _ Hrun Hrests).
      subst fragments. by destruct run. }
    assert (decode_string L enforce_valid_values value encodings delimiters
            = (parts <- mapM (fun fragment =>
                                _decode_fragment L enforce_valid_values
                                  fragment encodings delimiters)
                             fragments ;;
               ret (concat parts))) as Hdecode.
    { unfold decode_string. rewrite bool_decide_eq_true_2 by done.
      cbn [negb]. by rewrite Hall. }
    split; [|split].
    + rewrite <-Hall. apply findall_fragments_concat.
    + intros results Hresults.
      rewrite Hdecode, (mapM_results _ _ _ Hresults).
      cbn [bind ret]. by rewrite app_nil_r.
    + intros decoded failing later results ws e Hfragments Hresults Hfailing.
      rewrite Hdecode, Hfragments.
      by rewrite (mapM_results_raise _ _ _ _ _ _ _ Hresults Hfailing).
Qed.

(** C7.  A value without escape byte is decoded as a whole with the first
    encoding.  An unknown encoding raises when
    [config.enforce_valid_values] is set, and otherwise warns and decodes
    with the default encoding.  Bytes that are invalid for the encoding
    raise when it is set, and otherwise the result is the value decoded
    with replacement characters, after one warning; it is a text, nothing
    is raised, as soon as the codec decodes with ['replace']. *)
Theorem decode_string_fast_path value first_encoding rest delimiters :
  ESC ∉ value →
  let encodings := first_encoding :: rest in
  let result :=
    decode_string L enforce_valid_values value encodings delimiters in
  match py_decode L first_encoding "strict" value with
  | inr decoded => result = ([], inr decoded)
  | inl CodecLookupError =>
      if enforce_valid_values
      then result
           = ([], inl (LookupError ("unknown encoding: " +:+ first_encoding)))
      else result
           = (warn ("Unknown encoding '" +:+ first_encoding
                    +:+ "' - using default encoding instead") >>
              bytes_decode L value default_encoding "strict")
  | inl (CodecUnicodeError start stop) =>
      if enforce_valid_values
      then result
           = ([], inl (UnicodeDecodeError first_encoding value start stop))
      else
        result
        = (warn ("Failed to decode byte string with encoding '"
                 +:+ first_encoding
                 +:+ "' - using replacement characters in decoded string") >>
           bytes_decode L value first_encoding "replace")
        ∧ ∀ replaced,
            py_decode L first_encoding "replace" value = inr replaced →
            result
            = (["Failed to decode byte string with encoding '"
                +:+ first_encoding
                +:+ "' - using replacement characters in decoded string"],
               inr replaced)
  end.
Proof.
  intros Hesc encodings result. subst result encodings.
  unfold decode_string. rewrite bool_decide_eq_false_2 by done.
  cbn [negb list_index lookup list_lookup]. rewrite bind_ret_l.
  destruct (py_decode L first_encoding "strict" value)
    as [[start stop|]|decoded] eqn:Hdec.
  - rewrite (bytes_decode_unicode_error _ _ _ _ _ Hdec).
    destruct enforce_valid_values; [done|].
    cbn [try_except2 raise is_LookupError is_UnicodeError].
    split; [|intros replaced Hrep].
    + by destruct (_ >> _).
    + by rewrite (bytes_decode_ok _ _ _ _ Hrep).
  - rewrite (bytes_decode_lookup_error _ _ _ Hdec).
    destruct enforce_valid_values; [done|].
    cbn [try_except2 raise is_LookupError].
    by destruct (_ >> _).
  - by rewrite (bytes_decode_ok _ _ _ _ Hdec).
Qed.


Lemma first_delimiter_None byte_str (delimiters : gset byte) :
  first_delimiter byte_str delimiters = None ↔
  Forall (fun ch => ch ∉ delimiters) byte_str.
Proof.
  unfold first_delimiter.
  destruct (list_find _ byte_str) as [[i ch]|] eqn:Hfind; simpl.
  - split; [done|]. intros Hall.
    apply list_find_Some in Hfind as (Hi & Hch & _).
    rewrite Forall_forall in Hall.
    destruct (Hall ch); [|done]. by eapply list_elem_of_lookup_2.
  - split; [|done]. intros _. by apply list_find_None in Hfind.
Qed.


End DecoderProperties.

Section EncoderProperties.
Context (L : CodecLayer).

Lemma str_encode_ok value encoding errors encoded :
  py_encode L encoding errors value = inr encoded →
  str_encode L value encoding errors = ret encoded.
Proof. unfold str_encode. by intros ->. Qed.

Lemma str_encode_unicode_error value encoding errors start stop :
  py_encode L encoding errors value = inl (CodecUnicodeError start stop) →
  str_encode L value encoding errors
  = raise (UnicodeEncodeError encoding value start stop).
Proof. unfold str_encode. by intros ->. Qed.

Lemma first_not_single_Some l i :
  first_not_single l = Some i ↔
  (∃ encoded, l !! i = Some encoded ∧ length encoded ≠ 1)
  ∧ ∀ k encoded, k < i → l !! k = Some encoded → length encoded = 1.
Proof.
  unfold first_not_single. split.
  - destruct (list_find _ l) as [[i' encoded]|] eqn:Hfind; [|done].
    intros [= <-]. apply list_find_Some in Hfind as (Hi & Hbad & Hlt).
    split; [by exists encoded|]. intros k e Hk He.
    destruct (decide (length e = 1)); [done|]. by destruct (Hlt k e).
  - intros [(encoded & Hi & Hbad) Hlt].
    assert (list_find (fun e => length e ≠ 1) l = Some (i, encoded)) as ->;
      [|done].
    apply list_find_Some. repeat split; [done..|].
    intros k e He Hk Hne. by specialize (Hlt k e Hk He).
Qed.

Lemma first_not_single_cons encoded l :
  first_not_single (encoded :: l)
  = if bool_decide (length encoded ≠ 1) then Some 0
    else S <$> first_not_single l.
Proof.
  unfold first_not_single. simpl.
  case_decide; case_bool_decide; try done.
  by destruct (list_find _ l) as [[??]|].
Qed.

Lemma last_not_single_None l :
  last_not_single l = None ↔ Forall (fun encoded => length encoded = 1) l.
Proof.
  induction l as [|encoded l IH]; simpl; [by split|].
  destruct (last_not_single l) as [j|].
  - split; [done|]. intros [_ Hl]%Forall_cons. by apply IH in Hl.
  - case_bool_decide as Hlen.
    + split; [done|]. by intros [? _]%Forall_cons.
    + split; [|done]. intros _. constructor; [lia|by apply IH].
Qed.

Lemma last_not_single_Some l j :
  last_not_single l = Some j ↔
  (∃ encoded, l !! j = Some encoded ∧ length encoded ≠ 1)
  ∧ ∀ k encoded, j < k → l !! k = Some encoded → length encoded = 1.
Proof.
  revert j. induction l as [|encoded l IH]; intros j; simpl.
  { split; [done|]. by intros [(? & ? & _) _]. }
  destruct (last_not_single l) as [j'|] eqn:Hlast.
  - destruct (proj1 (IH j') eq_refl) as [Hat' Hafter']. split.
    + intros [= <-]. split; [done|].
      intros [|k] e Hk He; [lia|]. apply (Hafter' k); [lia|done].
    + intros [(e & Hj & Hbad) Hafter]. destruct j as [|j].
      * destruct Hat' as (e' & Hj' & Hbad').
        destruct Hbad'. apply (Hafter (S j')); [lia|done].
      * assert (Some j' = Some j) as [= ->]; [|done].
        apply IH. split; [by exists e|].
        intros k e' Hk He'. apply (Hafter (S k)); [lia|done].
  - apply last_not_single_None in Hlast. rewrite Forall_lookup in Hlast.
    case_bool_decide as Hlen.
    + split.
      * intros [= <-]. split; [by exists encoded|].
        intros [|k] e Hk He; [lia|]. by apply (Hlast k).
      * intros [(e & Hj & Hbad) _]. destruct j as [|j]; [done|].
        destruct Hbad. by apply (Hlast j).
    + split; [done|]. intros [(e & Hj & Hbad) _]. destruct j as [|j].
      * simpl in Hj. injection Hj as ->. by destruct Hlen.
      * destruct Hbad. by apply (Hlast j).
Qed.

(** The loop of [_encode_to_jis_x_0201] over characters that shift_jis
    encodes one by one: the buffer grows by a byte per character, [start]
    and [end] move to the first and past the last character whose bytes
    are not one byte. *)
Lemma _encode_to_jis_x_0201_loop_spec errors value encs k buf start end_ :
  Forall2 (fun c encoded => py_encode L "shift_jis" errors [c] = inr encoded)
          value encs →
  _encode_to_jis_x_0201_loop L errors (enumerate_from k value)
    (buf, start, end_)
  = ret (buf ++ concat (single_or_question <$> encs),
         from_option (fun i => start `min` (k + i)) start
                     (first_not_single encs),
         from_option (fun j => end_ `max` (k + j + 1)) end_
                     (last_not_single encs)).
Proof.
  intros Hall. revert k buf start end_.
  induction Hall as [|c encoded value encs Hc _ IH]; intros k buf start end_.
  { simpl. by rewrite app_nil_r. }
  cbn [enumerate_from _encode_to_jis_x_0201_loop].
  rewrite (str_encode_ok _ _ _ _ Hc), bind_ret_l.
  rewrite first_not_single_cons. cbn [last_not_single fmap list_fmap concat].
  fold (single_or_question <$> encs).
  assert (single_or_question encoded
          = if bool_decide (length encoded ≠ 1) then b_ "?" else encoded)
    as -> by done.
  case_bool_decide as Hlen; rewrite IH; unfold ret; do 2 f_equal.
  all: f_equal; [f_equal|].
  all: try (by rewrite <-app_assoc).
  all: try (destruct (first_not_single encs); simpl; lia).
  all: destruct (last_not_single encs); simpl; lia.
Qed.

Lemma concat_single_or_question encs :
  Forall (fun encoded : bytes => length encoded = 1) encs →
  concat (single_or_question <$> encs) = concat encs.
Proof.
  induction 1 as [|encoded encs Hlen _ IH]; [done|].
  rewrite fmap_cons. cbn [concat]. rewrite IH.
  unfold single_or_question. by rewrite bool_decide_eq_false_2 by lia.
Qed.

(** Where [_encode_to_jis_x_0201] does what C9 describes: for a text whose
    characters shift_jis encodes one by one under the given [errors] (to
    the byte strings [encs]):
    with an [errors] other than ['strict'] the result holds, for each
    character in order, its byte when it has one byte and [?] otherwise;
    with ['strict'] the result is the bytes of the characters when each
    has one byte, and otherwise a [UnicodeEncodeError] is raised for the
    whole text, from the first character whose bytes are not one byte to
    just after the last one. *)
Theorem encode_to_jis_x_0201_spec value errors encs :
  Forall2 (fun c encoded => py_encode L "shift_jis" errors [c] = inr encoded)
          value encs →
  (errors ≠ "strict" →
   _encode_to_jis_x_0201 L value errors
   = ret (concat (single_or_question <$> encs)))
  ∧ (errors = "strict" →
     (Forall (fun encoded => length encoded = 1) encs →
      _encode_to_jis_x_0201 L value errors = ret (concat encs))
     ∧ (Exists (fun encoded => length encoded ≠ 1) encs →
        ∃ i j,
          ((∃ encoded, encs !! i = Some encoded ∧ length encoded ≠ 1)
           ∧ ∀ k encoded,
               k < i → encs !! k = Some encoded → length encoded = 1)
          ∧ ((∃ encoded, encs !! j = Some encoded ∧ length encoded ≠ 1)
             ∧ ∀ k encoded,
                 j < k → encs !! k = Some encoded → length encoded = 1)
          ∧ _encode_to_jis_x_0201 L value errors
            = raise (UnicodeEncodeError "shift_jis" value i (S j)))).
Proof.
  intros Hall. pose proof (Forall2_length _ _ _ Hall) as Hlength.
  unfold _encode_to_jis_x_0201, enumerate.
  rewrite (_encode_to_jis_x_0201_loop_spec _ _ _ _ _ _ _ Hall), bind_ret_l.
  change (b_ "" ++ ?l) with l.
  split; [intros Herrors|intros Herrors; split].
  - rewrite (bool_decide_eq_false_2 (errors = "strict")) by done.
    by rewrite andb_false_r.
  - intros Hsingle.
    rewrite (proj2 (last_not_single_None encs) Hsingle).
    assert (first_not_single encs = None) as ->.
    { unfold first_not_single.
      assert (list_find (fun e : bytes => length e ≠ 1) encs = None) as ->;
        [|done].
      apply list_find_None. eapply Forall_impl; [done|]. simpl. lia. }
    simpl. rewrite (bool_decide_eq_false_2 (_ < _)) by lia. simpl.
    by rewrite concat_single_or_question.
  - intros Hbad.
    destruct (first_not_single encs) as [i|] eqn:Hfirst; last first.
    { unfold first_not_single in Hfirst.
      destruct (list_find _ encs) as [[??]|] eqn:Hfind; [done|].
      apply list_find_None in Hfind. apply Exists_exists in Hbad
        as (e & He & Hlen). rewrite Forall_forall in Hfind.
      by destruct (Hfind e He). }
    destruct (last_not_single encs) as [j|] eqn:Hlast; last first.
    { apply last_not_single_None in Hlast. apply Exists_exists in Hbad
        as (e & He & Hlen). rewrite Forall_forall in Hlast.
      by destruct Hlen; apply Hlast. }
    apply first_not_single_Some in Hfirst as Hi.
    apply last_not_single_Some in Hlast as Hj.
    exists i, j. split; [done|]. split; [done|].
    destruct Hi as [(e & Hi & _) _]. apply lookup_lt_Some in Hi.
    simpl. rewrite !bool_decide_eq_true_2 by (done || lia). simpl.
    do 3 f_equal; lia.
Qed.

End EncoderProperties.

Lemma findall_fragments_escaped rest :
  ESC ∉ rest → findall_fragments (ESC :: rest) = [ESC :: rest].
Proof.
  intros Hesc. unfold findall_fragments. cbn [split_at_escapes].
  rewrite (split_at_escapes_no_escape _ Hesc).
  by rewrite bool_decide_eq_true_2.
Qed.

(** ** Encoding with the default encoding and shift_jis *)

Section RoundTrip.
Context (L : CodecLayer) (enforce_valid_values : bool).

Lemma _encode_string_impl_shift_jis value errors :
  _encode_string_impl L value "shift_jis" errors
  = _encode_to_jis_x_0201 L value errors.
Proof. reflexivity. Qed.

Lemma _encode_string_impl_default value errors :
  _encode_string_impl L value default_encoding errors
  = str_encode L value default_encoding errors.
Proof. reflexivity. Qed.

(** A text whose characters each have one byte in shift_jis is encoded
    to these bytes. *)
Lemma _encode_to_jis_x_0201_single value errors bs :
  Forall2 (fun c b => py_encode L "shift_jis" errors [c] = inr [b]) value bs →
  _encode_to_jis_x_0201 L value errors = ret bs.
Proof.
  intros Hall.
  assert (Forall2 (fun c encoded =>
                     py_encode L "shift_jis" errors [c] = inr encoded)
                  value ((fun b => [b]) <$> bs)) as Hencs.
  { induction Hall; simpl; by constructor. }
  assert (Forall (fun encoded : bytes => length encoded = 1)
                 ((fun b => [b]) <$> bs)) as Hsingle.
  { clear. induction bs; simpl; by constructor. }
  pose proof (Forall2_length _ _ _ Hall) as Hlength.
  unfold _encode_to_jis_x_0201, enumerate.
  rewrite (_encode_to_jis_x_0201_loop_spec _ _ _ _ _ _ _ _ Hencs), bind_ret_l.
  rewrite (proj2 (last_not_single_None _) Hsingle).
  rewrite (concat_single_or_question _ Hsingle).
  assert (concat ((fun b : byte => [b]) <$> bs) = bs) as ->.
  { clear. induction bs as [|b bs IH]; [done|].
    rewrite fmap_cons. cbn [concat app]. by rewrite IH. }
  change (b_ "" ++ ?l) with l. cbn [from_option].
  by rewrite (bool_decide_eq_false_2 (0 < 0)), andb_false_r by lia.
Qed.

(** With [config.enforce_valid_values] set, the last resort of
    [encode_string] raises the error of [value.encode(encodings[0])]
    when that call fails. *)
Lemma encode_string_else_enforced value first_encoding start stop :
  py_encode L first_encoding "strict" value
  = inl (CodecUnicodeError start stop) →
  encode_string_else L true value [first_encoding]
  = raise (UnicodeEncodeError first_encoding value start stop).
Proof.
  intros Herr. unfold encode_string_else.
  cbn [length bool_decide decide_rel]. rewrite bool_decide_eq_false_2 by (simpl; lia).
  rewrite bind_ret_l. cbn [list_index lookup list_lookup].
  rewrite bind_ret_l.
  by rewrite (str_encode_unicode_error _ _ _ _ _ _ Herr).
Qed.

(** C5, amended.  A text that the default encoding cannot encode as a
    whole and whose characters each have one byte in shift_jis (ASCII and
    half-width katakana) is encoded, with the encodings [default,
    'shift_jis'], in the first round of [encode_string]: the result is
    the escape code of shift_jis followed by the bytes of the characters.
    If these bytes hold neither an escape byte nor a delimiter and
    shift_jis decodes them to the text, [decode_string] gives the text
    back. *)
Theorem encode_string_default_shift_jis value bs start stop
    (delimiters : gset byte) :
  py_encode L default_encoding "strict" value
  = inl (CodecUnicodeError start stop) →
  Forall2 (fun c b => py_encode L "shift_jis" "strict" [c] = inr [b])
          value bs →
  encode_string L enforce_valid_values value [default_encoding; "shift_jis"]
  = ret ([x1b; x29; x49] ++ bs)
  ∧ (ESC ∉ bs →
     Forall (fun b => b ∉ delimiters) bs →
     py_decode L "shift_jis" "strict" bs = inr value →
     decode_string L enforce_valid_values ([x1b; x29; x49] ++ bs)
       [default_encoding; "shift_jis"] delimiters
     = ret value).
Proof.
  intros Hdefault Hsingle. split.
  - unfold encode_string, enumerate.
    cbn [enumerate_from encode_string_for].
    rewrite _encode_string_impl_default.
    rewrite (str_encode_unicode_error _ _ _ _ _ _ Hdefault).
    rewrite bind_raise. cbn [try_except raise is_UnicodeError].
    rewrite _encode_string_impl_shift_jis.
    rewrite (_encode_to_jis_x_0201_single _ _ _ Hsingle).
    reflexivity.
  - intros Hesc Hdelims Hdecoded.
    assert (ESC ∉ x29 :: x49 :: bs) as Hesc'.
    { rewrite !not_elem_of_cons. by repeat split. }
    change ([x1b; x29; x49] ++ bs) with (ESC :: x29 :: x49 :: bs).
    unfold decode_string.
    rewrite bool_decide_eq_true_2 by (apply list_elem_of_here).
    cbn [negb]. rewrite (findall_fragments_escaped _ Hesc').
    assert (_decode_fragment L enforce_valid_values
              (ESC :: x29 :: x49 :: bs) [default_encoding; "shift_jis"]
              delimiters = ret value) as Hfragment.
    { unfold _decode_fragment.
      assert (_decode_escaped_fragment L enforce_valid_values
                (ESC :: x29 :: x49 :: bs) [default_encoding; "shift_jis"]
                delimiters = ret value) as Hescaped.
      { unfold _decode_escaped_fragment.
        change (seq_length_of (ESC :: x29 :: x49 :: bs)) with 3.
        cbn [take drop]. rewrite ?take_0, ?drop_0.
        change (dict_get CODES_TO_ENCODINGS [ESC; x29; x49] "")
          with "shift_jis".
        change (str_in "shift_jis" [default_encoding; "shift_jis"])
          with true.
        change (str_in "shift_jis" handled_encodings) with false.
        cbn [orb].
        rewrite (proj2 (first_delimiter_None bs delimiters)) by done.
        by rewrite (bytes_decode_ok _ _ _ _ _ Hdecoded). }
      change (startswith (ESC :: x29 :: x49 :: bs) [ESC]) with true.
      cbn iota. by rewrite Hescaped. }
    cbn [mapM]. rewrite Hfragment, !bind_ret_l. cbn [concat].
    by rewrite app_nil_r.
Qed.

End RoundTrip.

(** ** Lists as objects *)

Section StoreProperties.
Local Open Scope store_scope.

Lemma returns_bind {A B} (m : H A) (k : A → H B) σ σ1 σ2 ws1 ws2 a b :
  returns m σ σ1 ws1 a → returns (k a) σ1 σ2 ws2 b →
  returns (hbind m k) σ σ2 (ws1 ++ ws2) b.
Proof. unfold returns, hbind. by intros -> ->. Qed.

Lemma raises_bind_l {A B} (m : H A) (k : A → H B) σ σ1 ws e :
  raises m σ σ1 ws e → raises (hbind m k) σ σ1 ws e.
Proof. unfold raises, hbind. by intros ->. Qed.

Lemma raises_bind_r {A B} (m : H A) (k : A → H B) σ σ1 σ2 ws1 ws2 a e :
  returns m σ σ1 ws1 a → raises (k a) σ1 σ2 ws2 e →
  raises (hbind m k) σ σ2 (ws1 ++ ws2) e.
Proof. unfold returns, raises, hbind. by intros -> ->. Qed.

Lemma returns_bind_eq {A B} (m : H A) (k : A → H B) σ σ1 σ2 ws ws1 ws2 a b :
  returns m σ σ1 ws1 a → returns (k a) σ1 σ2 ws2 b → ws = ws1 ++ ws2 →
  returns (hbind m k) σ σ2 ws b.
Proof. intros ?? ->. by eapply returns_bind. Qed.

Lemma raises_bind_eq {A B} (m : H A) (k : A → H B) σ σ1 σ2 ws ws1 ws2 a e :
  returns m σ σ1 ws1 a → raises (k a) σ1 σ2 ws2 e → ws = ws1 ++ ws2 →
  raises (hbind m k) σ σ2 ws e.
Proof. intros ?? ->. by eapply raises_bind_r. Qed.

Lemma returns_hret {A} (a : A) σ : returns (hret a) σ σ [] a.
Proof. done. Qed.

Lemma returns_lift {A} (m : W A) σ ws a :
  m = (ws, inr a) → returns (lift m) σ σ ws a.
Proof. by intros ->. Qed.

Lemma raises_lift {A} (m : W A) σ ws e :
  m = (ws, inl e) → raises (lift m) σ σ ws e.
Proof. by intros ->. Qed.

Lemma returns_alloc l σ :
  returns (alloc l) σ (<[fresh (dom σ) := l]> σ) [] (fresh (dom σ)).
Proof. done. Qed.

Lemma returns_load r l σ : σ !! r = Some l → returns (load r) σ σ [] l.
Proof. unfold returns, load. by intros ->. Qed.

Lemma returns_getitem r l i x σ :
  σ !! r = Some l → l !! i = Some x → returns (getitem r i) σ σ [] x.
Proof.
  intros Hr Hi. unfold returns, getitem, hbind, load, lift, list_index.
  rewrite Hr. simpl. by rewrite Hi.
Qed.

Lemma raises_getitem r l i σ :
  σ !! r = Some l → l !! i = None → raises (getitem r i) σ σ [] IndexError.
Proof.
  intros Hr Hi. unfold raises, getitem, hbind, load, lift, list_index.
  rewrite Hr. simpl. by rewrite Hi.
Qed.

Lemma returns_setitem r l i v σ :
  σ !! r = Some l → i < length l →
  returns (setitem r i v) σ (<[r := <[i := v]> l]> σ) [] tt.
Proof.
  intros Hr Hi. unfold returns, setitem, hbind, load, store_list.
  rewrite Hr. simpl. by rewrite bool_decide_eq_true_2.
Qed.

Lemma returns_append r l v σ :
  σ !! r = Some l → returns (append r v) σ (<[r := l ++ [v]]> σ) [] tt.
Proof.
  intros Hr. unfold returns, append, hbind, load, store_list. by rewrite Hr.
Qed.

Lemma returns_delitem r l i σ :
  σ !! r = Some l → i < length l →
  returns (delitem r i) σ (<[r := delete i l]> σ) [] tt.
Proof.
  intros Hr Hi. unfold returns, delitem, hbind, load, store_list.
  rewrite Hr. simpl. by rewrite bool_decide_eq_true_2.
Qed.

Lemma fresh_lookup (σ : store) : σ !! fresh (dom σ) = None.
Proof. apply not_elem_of_dom, is_fresh. Qed.

Lemma insert_fresh_subseteq (σ0 σ : store) l :
  σ0 ⊆ σ → σ0 ⊆ <[fresh (dom σ) := l]> σ.
Proof.
  intros Hsub. etrans; [done|]. apply insert_subseteq, fresh_lookup.
Qed.

(** The loop that appends the Python encoding of each declared
    encoding. *)
Lemma for_each_append (f : string → W string) p items σ acc :
  σ !! p = Some acc →
  match mapM f items with
  | (ws, inr ys) =>
      returns (for_each items
                 (fun x => y <- lift (f x) ;; append p y))
              σ (<[p := acc ++ ys]> σ) ws tt
  | (ws, inl e) =>
      ∃ acc',
        raises (for_each items
                  (fun x => y <- lift (f x) ;; append p y))
               σ (<[p := acc']> σ) ws e
  end.
Proof.
  revert σ acc. induction items as [|x items IH]; intros σ acc Hp.
  { simpl. unfold returns. by rewrite app_nil_r, insert_id. }
  cbn [mapM for_each].
  destruct (f x) as [ws1 [e|y]] eqn:Hfx.
  { simpl. exists acc. rewrite insert_id by done.
    apply raises_bind_l, raises_bind_l. by apply raises_lift. }
  assert (returns (y0 <- lift (ws1, inr y) ;; append p y0) σ
            (<[p := acc ++ [y]]> σ) (ws1 ++ []) tt) as Hstep.
  { eapply returns_bind; [by apply returns_lift|by apply returns_append]. }
  rewrite app_nil_r in Hstep.
  specialize (IH (<[p := acc ++ [y]]> σ) (acc ++ [y])).
  rewrite lookup_insert_eq in IH. specialize (IH eq_refl).
  destruct (mapM f items) as [ws2 [e|ys]]; cbn [bind ret].
  - destruct IH as [acc' IH]. exists acc'.
    rewrite insert_insert_eq in IH. by eapply raises_bind_r.
  - rewrite insert_insert_eq, <-app_assoc in IH. rewrite app_nil_r.
    by eapply returns_bind.
Qed.


Lemma for_each_app {A} (l1 l2 : list A) (body : A → H unit) σ :
  for_each (l1 ++ l2) body σ
  = (for_each l1 body >> for_each l2 body) σ.
Proof.
  revert σ. induction l1 as [|x l1 IH]; intros σ.
  { simpl. unfold hbind, hret. simpl.
    by destruct (for_each l2 body σ) as [σ2 [ws r]]. }
  cbn [app for_each]. unfold hbind.
  destruct (body x σ) as [σ1 [ws1 [e|[]]]]; [done|].
  rewrite IH. unfold hbind.
  destruct (for_each l1 body σ1) as [σ2 [ws2 [e|[]]]]; [done|].
  destruct (for_each l2 body σ2) as [σ3 [ws3 r]].
  by rewrite app_assoc.
Qed.

Lemma returns_for_each_app {A} (l1 l2 : list A) (body : A → H unit)
    σ σ1 σ2 ws1 ws2 :
  returns (for_each l1 body) σ σ1 ws1 tt →
  returns (for_each l2 body) σ1 σ2 ws2 tt →
  returns (for_each (l1 ++ l2) body) σ σ2 (ws1 ++ ws2) tt.
Proof.
  intros H1 H2. unfold returns. rewrite for_each_app.
  by eapply (returns_bind _ (fun _ => for_each l2 body)).
Qed.

(** The loop that deletes, from the end, the Python encoding of each
    code extension that is declared as a stand-alone encoding. *)
Lemma for_each_delete p declared σ k pre ps :
  σ !! p = Some (pre ++ ps) → length pre = S k →
  length ps = length declared →
  returns
    (for_each (reverse (enumerate_from k declared))
       (fun ie =>
          if str_in ie.2 STAND_ALONE_ENCODINGS
          then lift (warn ("Value '" +:+ ie.2
                           +:+ "' cannot be used as code extension, "
                           +:+ "ignoring it")) >>
               delitem p (ie.1 + 1)
          else hret tt))
    σ (<[p := pre ++ keep_extensions declared ps]> σ)
    (extension_warning
       <$> reverse (filter (fun d => d ∈ STAND_ALONE_ENCODINGS) declared))
    tt.
Proof.
  revert σ k pre ps.
  induction declared as [|d declared IH]; intros σ k pre ps Hp Hpre Hps.
  { destruct ps; [|done]. unfold returns. simpl. by rewrite insert_id. }
  destruct ps as [|q ps]; [done|]. simpl in Hps.
  cbn [enumerate_from keep_extensions]. rewrite reverse_cons.
  rewrite filter_cons.
  specialize (IH σ (S k) (pre ++ [q]) ps).
  rewrite <-app_assoc in IH. specialize (IH Hp).
  rewrite length_app in IH. simpl in IH.
  specialize (IH ltac:(lia) ltac:(lia)).
  unfold str_in at 2. case_bool_decide as Hd.
  - rewrite decide_True by done.
    rewrite reverse_cons, fmap_app.
    eapply returns_for_each_app; [exact IH|].
    cbn [for_each fst snd]. unfold str_in.
    rewrite bool_decide_eq_true_2 by done.
    assert (returns (lift (warn (extension_warning d)) >>
                     delitem p (k + 1))
              (<[p := (pre ++ [q]) ++ keep_extensions declared ps]> σ)
              (<[p := pre ++ keep_extensions declared ps]> σ)
              ([extension_warning d] ++ []) tt) as Hstep.
    { eapply returns_bind; [by apply returns_lift|].
      replace (<[p := pre ++ keep_extensions declared ps]> σ)
        with (<[p := delete (k + 1)
                        ((pre ++ [q]) ++ keep_extensions declared ps)]>
                (<[p := (pre ++ [q]) ++ keep_extensions declared ps]> σ)).
      - apply returns_delitem; [apply lookup_insert_eq|].
        rewrite !length_app. simpl. lia.
      - rewrite insert_insert_eq, <-app_assoc. do 2 f_equal.
        replace (k + 1) with (length pre) by lia.
        apply (delete_middle pre). }
    rewrite <-(app_nil_r (extension_warning <$> [d])).
    eapply returns_bind; [exact Hstep|]. apply returns_hret.
  - rewrite decide_False by done.
    pose proof (returns_for_each_app _ [(k, d)] _ _ _
                  (<[p := (pre ++ [q]) ++ keep_extensions declared ps]> σ)
                  _ [] IH) as Hall.
    rewrite app_nil_r, <-app_assoc in Hall. apply Hall.
    cbn [for_each fst snd]. unfold str_in.
    rewrite bool_decide_eq_false_2 by done.
    rewrite <-(app_nil_r []).
    eapply returns_bind; apply returns_hret.
Qed.


Lemma mapM_length {A B} (f : A → W B) l ws ys :
  mapM f l = (ws, inr ys) → length ys = length l.
Proof.
  revert ws ys. induction l as [|x l IH]; intros ws ys; simpl.
  { by intros [= <- <-]. }
  destruct (f x) as [ws1 [e|y]]; [done|]. simpl.
  destruct (mapM f l) as [ws2 [e|ys']]; [done|]. simpl.
  intros [= <- <-]. simpl. f_equal. by eapply IH.
Qed.

Context (L : CodecLayer) (enforce_valid_values : bool).

(** The check for stand-alone encodings, on a list [encodings] of at
    least two declared encodings and the list [py_encodings] of their
    Python encodings: it touches [py_encodings] and new lists only. *)
Lemma _handle_illegal_standalone_encodings_spec
    σ encodings py_encodings first extensions py :
  σ !! encodings = Some (first :: extensions) →
  σ !! py_encodings = Some py →
  length py = S (length extensions) →
  ∃ σ' r,
    returns (_handle_illegal_standalone_encodings encodings py_encodings)
      σ σ' (standalone_warnings (first :: extensions)) r
    ∧ σ' !! r = Some (without_standalone (first :: extensions) py)
    ∧ ∀ σ0 : store, σ0 ⊆ σ → σ0 !! py_encodings = None → σ0 ⊆ σ'.
Proof.
  intros Hencodings Hpy Hlength. destruct py as [|p ps]; [done|].
  injection Hlength as Hlength.
  unfold _handle_illegal_standalone_encodings.
  cbn [standalone_warnings without_standalone].
  destruct (str_in first STAND_ALONE_ENCODINGS) eqn:Hfirst.
  - eexists _, _. split; [|split].
    + eapply returns_bind_eq; [by eapply returns_getitem| |reflexivity].
      cbn beta. rewrite Hfirst.
      eapply returns_bind_eq; [by apply returns_load| |reflexivity].
      eapply returns_bind_eq; [by apply returns_lift| |reflexivity].
      eapply returns_bind_eq;
        [by apply returns_load|apply returns_alloc|reflexivity].
    + apply lookup_insert_eq.
    + intros σ0 Hsub _. by apply insert_fresh_subseteq.
  - eexists _, _. split; [|split].
    + eapply returns_bind_eq; [by eapply returns_getitem| |reflexivity].
      cbn beta. rewrite Hfirst.
      eapply returns_bind_eq; [by apply returns_load| |reflexivity].
      eapply returns_bind_eq;
        [|apply returns_hret|symmetry; apply app_nil_r].
      by apply (for_each_delete py_encodings extensions σ 0 [p] ps).
    + apply lookup_insert_eq.
    + intros σ0 Hsub Hnone. by apply insert_subseteq_r.
Qed.

(** [convert_encodings] from [py_encodings = []] on: the Python
    encodings of the declared encodings are collected in a new list, and
    checked for stand-alone encodings when there are two or more; the
    lists that exist already are left as they are. *)
Lemma convert_encodings_loop_spec σ encodings first extensions :
  let declared := first :: extensions in
  σ !! encodings = Some declared →
  ∃ σ',
    σ ⊆ σ'
    ∧ match mapM (python_encoding_of L enforce_valid_values) declared with
      | (ws, inl e) =>
          raises (convert_encodings_loop L enforce_valid_values encodings)
            σ σ' ws e
      | (ws, inr py) =>
          ∃ r,
            returns (convert_encodings_loop L enforce_valid_values encodings)
              σ σ'
              (ws ++ if bool_decide (1 < length declared)
                     then standalone_warnings declared else [])
              r
            ∧ σ' !! r
              = Some (if bool_decide (1 < length declared)
                      then without_standalone declared py else py)
      end.
Proof.
  intros declared Hencodings.
  pose proof (fresh_lookup σ) as Hfresh.
  assert (fresh (dom σ) ≠ encodings) as Hne by congruence.
  pose proof (for_each_append (python_encoding_of L enforce_valid_values)
                (fresh (dom σ)) declared (<[fresh (dom σ) := []]> σ) []
                (lookup_insert_eq _ _ _)) as Hloop.
  pose proof (mapM_length (python_encoding_of L enforce_valid_values)
                declared) as Hlength.
  assert (∀ py, <[fresh (dom σ) := py]> σ !! encodings = Some declared)
    as Hencodings'.
  { intros py. by rewrite lookup_insert_ne. }
  unfold convert_encodings_loop.
  destruct (mapM (python_encoding_of L enforce_valid_values) declared)
    as [ws [e|py]].
  - destruct Hloop as [acc' Hloop]. rewrite insert_insert_eq in Hloop.
    eexists. split; [|].
    2:{ eapply raises_bind_eq; [apply returns_alloc| |reflexivity].
        eapply raises_bind_eq; [by apply returns_load| |reflexivity].
        apply raises_bind_l. exact Hloop. }
    by apply insert_subseteq.
  - rewrite insert_insert_eq in Hloop. cbn [app] in Hloop.
    specialize (Hlength _ _ eq_refl).
    case_bool_decide as Hmany.
    + destruct (_handle_illegal_standalone_encodings_spec
                  (<[fresh (dom σ) := py]> σ) encodings (fresh (dom σ))
                  first extensions py)
        as (σ' & r & Hreturns & Hr & Hframe); [done| |done|].
      { apply lookup_insert_eq. }
      exists σ'. split; [apply Hframe; [by apply insert_subseteq|done]|].
      exists r. split; [|done].
      eapply returns_bind_eq; [apply returns_alloc| |reflexivity].
      eapply returns_bind_eq; [by apply returns_load| |reflexivity].
      eapply returns_bind_eq; [exact Hloop| |reflexivity].
      eapply returns_bind_eq; [by apply returns_load| |reflexivity].
      cbn beta. by rewrite bool_decide_eq_true_2.
    + exists (<[fresh (dom σ) := py]> σ).
      split; [by apply insert_subseteq|].
      exists (fresh (dom σ)). split; [|apply lookup_insert_eq].
      eapply returns_bind_eq; [apply returns_alloc| |reflexivity].
      eapply returns_bind_eq; [by apply returns_load| |reflexivity].
      eapply returns_bind_eq; [exact Hloop| |reflexivity].
      eapply returns_bind_eq; [by apply returns_load| |reflexivity].
      cbn beta. rewrite bool_decide_eq_false_2 by done. apply returns_hret.
Qed.

(** [convert_encodings] on a list that is not empty: the list is copied,
    an empty first encoding of the copy becomes ['ISO_IR 6'], and the
    copy is converted. *)
Lemma convert_encodings_list_spec σ r first extensions :
  let declared := with_default_first (first :: extensions) in
  σ !! r = Some (first :: extensions) →
  ∃ σ',
    σ ⊆ σ'
    ∧ match mapM (python_encoding_of L enforce_valid_values) declared with
      | (ws, inl e) =>
          raises (convert_encodings L enforce_valid_values (PyList r))
            σ σ' ws e
      | (ws, inr py) =>
          ∃ r',
            returns (convert_encodings L enforce_valid_values (PyList r))
              σ σ'
              (ws ++ if bool_decide (1 < length declared)
                     then standalone_warnings declared else [])
              r'
            ∧ σ' !! r'
              = Some (if bool_decide (1 < length declared)
                      then without_standalone declared py else py)
      end.
Proof.
  intros declared Hr.
  pose proof (fresh_lookup σ) as Hfresh.
  assert (∃ σ1,
            σ1 = <[fresh (dom σ) := declared]> σ
            ∧ returns
                (first <- getitem (fresh (dom σ)) 0 ;;
                 (if bool_decide (first = "")
                  then setitem (fresh (dom σ)) 0 "ISO_IR 6" else hret tt) >>
                 hret (fresh (dom σ)))
                (<[fresh (dom σ) := first :: extensions]> σ) σ1 []
                (fresh (dom σ))) as (σ1 & -> & Hdefault).
  { subst declared. cbn [with_default_first].
    case_bool_decide as Hempty; eexists; (split; last first).
    - eapply returns_bind_eq;
        [eapply returns_getitem; [apply lookup_insert_eq|reflexivity]
        | |reflexivity].
      cbn beta. rewrite bool_decide_eq_true_2 by done.
      eapply returns_bind_eq;
        [eapply returns_setitem; [apply lookup_insert_eq|simpl; lia]
        |apply returns_hret|reflexivity].
    - by rewrite insert_insert_eq.
    - eapply returns_bind_eq;
        [eapply returns_getitem; [apply lookup_insert_eq|reflexivity]
        | |reflexivity].
      cbn beta. rewrite bool_decide_eq_false_2 by done.
      eapply returns_bind_eq;
        [apply returns_hret|apply returns_hret|reflexivity].
    - done. }
  destruct (convert_encodings_loop_spec
              (<[fresh (dom σ) := declared]> σ) (fresh (dom σ))
              (if bool_decide (first = "") then "ISO_IR 6" else first)
              extensions (lookup_insert_eq _ _ _))
    as (σ' & Hsub & Hloop).
  exists σ'. split.
  { etrans; [|done]. by apply insert_subseteq. }
  fold (with_default_first (first :: extensions)) in Hloop.
  fold declared in Hloop. unfold convert_encodings.
  destruct (mapM (python_encoding_of L enforce_valid_values) declared)
    as [ws [e|py]].
  - eapply raises_bind_eq.
    + eapply returns_bind_eq; [by apply returns_load| |reflexivity].
      eapply returns_bind_eq;
        [apply returns_alloc|apply returns_hret|reflexivity].
    + eapply raises_bind_eq; [exact Hdefault|exact Hloop|reflexivity].
    + reflexivity.
  - destruct Hloop as (r' & Hreturns & Hr'). exists r'. split; [|done].
    eapply returns_bind_eq.
    + eapply returns_bind_eq; [by apply returns_load| |reflexivity].
      eapply returns_bind_eq;
        [apply returns_alloc|apply returns_hret|reflexivity].
    + eapply returns_bind_eq; [exact Hdefault|exact Hreturns|reflexivity].
    + reflexivity.
Qed.


Lemma returns_store {A} (m : H A) σ σ' ws a :
  returns m σ σ' ws a → (m σ).1 = σ'.
Proof. unfold returns. by intros ->. Qed.

Lemma raises_store {A} (m : H A) σ σ' ws e :
  raises m σ σ' ws e → (m σ).1 = σ'.
Proof. unfold raises. by intros ->. Qed.

(** Whatever its argument and its outcome, [convert_encodings] leaves
    every list that exists before the call as it is. *)
Lemma convert_encodings_extends arg σ :
  σ ⊆ (convert_encodings L enforce_valid_values arg σ).1.
Proof.
  destruct arg as [s|r].
  - destruct (convert_encodings_loop_spec (<[fresh (dom σ) := [s]]> σ)
                (fresh (dom σ)) s [] (lookup_insert_eq _ _ _))
      as (σ' & Hsub & Hloop).
    assert (σ ⊆ σ') as Hσ.
    { etrans; [|done]. apply insert_subseteq, fresh_lookup. }
    assert (returns (encodings <- hret (PyStr s) ;;
                     match encodings with
                     | PyStr s => alloc [s]
                     | PyList r =>
                         first <- getitem r 0 ;;
                         (if bool_decide (first = "")
                          then setitem r 0 "ISO_IR 6" else hret tt) >>
                         hret r
                     end)
              σ (<[fresh (dom σ) := [s]]> σ) [] (fresh (dom σ))) as Hcopy.
    { done. }
    unfold convert_encodings.
    destruct (mapM (python_encoding_of L enforce_valid_values) [s])
      as [ws [e|py]].
    + erewrite raises_store; [done|].
      eapply raises_bind_eq; [apply returns_hret| |reflexivity].
      eapply raises_bind_eq; [apply returns_alloc|exact Hloop|reflexivity].
    + destruct Hloop as (r' & Hreturns & _).
      erewrite returns_store; [done|].
      eapply returns_bind_eq; [apply returns_hret| |reflexivity].
      eapply returns_bind_eq;
        [apply returns_alloc|exact Hreturns|reflexivity].
  - destruct (σ !! r) as [[|first extensions]|] eqn:Hr.
    + erewrite raises_store; [apply insert_subseteq, fresh_lookup|].
      unfold convert_encodings.
      eapply raises_bind_eq.
      * eapply returns_bind_eq; [by apply returns_load| |reflexivity].
        eapply returns_bind_eq;
          [apply returns_alloc|apply returns_hret|reflexivity].
      * do 2 apply raises_bind_l.
        eapply raises_getitem; [apply lookup_insert_eq|reflexivity].
      * reflexivity.
    + destruct (convert_encodings_list_spec σ r first extensions Hr)
        as (σ' & Hsub & Hspec).
      destruct (mapM _ _) as [ws [e|py]].
      * by erewrite raises_store.
      * destruct Hspec as (r' & Hreturns & _). by erewrite returns_store.
    + unfold convert_encodings, hbind, load. by rewrite Hr.
Qed.

(** C10.  [convert_encodings] does not change the list it is given: the
    list that the argument refers to has, after the call, the elements it
    had before, whether the call returns (a list of its own making) or
    raises. *)
Theorem convert_encodings_argument_unchanged σ r encodings :
  σ !! r = Some encodings →
  (convert_encodings L enforce_valid_values (PyList r) σ).1 !! r
  = Some encodings.
Proof.
  intros Hr. eapply lookup_weaken; [done|]. apply convert_encodings_extends.
Qed.


Lemma python_encoding_of_lenient encoding :
  is_Some (python_encoding !! encoding) ∨ plain_lookup L encoding →
  ∃ ws py_encoding,
    python_encoding_of L false encoding = (ws, inr py_encoding).
Proof.
  intros Hplain.
  unfold python_encoding_of, _python_encoding_for_corrected_encoding.
  destruct (python_encoding !! encoding) as [p|] eqn:Hkey.
  { eexists _, _. reflexivity. }
  destruct (matches_standard_misspelling encoding); cbv beta iota zeta.
  { destruct (python_encoding !! ("ISO_IR" +:+ str_drop 6 encoding));
      eexists _, _; reflexivity. }
  destruct (matches_extension_misspelling encoding); cbv beta iota zeta.
  { destruct (python_encoding !! ("ISO 2022 IR " +:+ str_drop 12 encoding));
      eexists _, _; reflexivity. }
  destruct Hplain as [[p Hp]|Hplain]; [discriminate Hp|].
  unfold plain_lookup in Hplain.
  destruct (codecs_lookup L encoding) as [|e].
  { eexists _, _. reflexivity. }
  cbn [try_except raise]. rewrite (Hplain e eq_refl).
  eexists _, _. reflexivity.
Qed.

Lemma mapM_python_encoding_of_lenient encodings :
  Forall (fun encoding =>
            is_Some (python_encoding !! encoding) ∨ plain_lookup L encoding)
         encodings →
  ∃ ws py,
    mapM (python_encoding_of L false) encodings = (ws, inr py).
Proof.
  induction 1 as [|encoding encodings Hplain _ (ws & py & IH)].
  { by eexists _, _. }
  destruct (python_encoding_of_lenient encoding Hplain) as (ws1 & p & Hp).
  cbn [mapM]. rewrite Hp, IH. by eexists _, _.
Qed.

Lemma with_default_first_plain encodings :
  Forall (plain_lookup L) encodings →
  Forall (fun encoding =>
            is_Some (python_encoding !! encoding) ∨ plain_lookup L encoding)
         (with_default_first encodings).
Proof.
  intros Hplain. destruct encodings as [|first extensions]; [constructor|].
  cbn [with_default_first]. apply Forall_cons_2.
  - case_bool_decide.
    + left. exists default_encoding. vm_compute. reflexivity.
    + right. exact (Forall_inv Hplain).
  - eapply Forall_impl; [exact (Forall_inv_tail Hplain)|].
    intros encoding Hencoding. right. exact Hencoding.
Qed.

Lemma python_encoding_of_itself encoding :
  resolves_to_itself L encoding →
  python_encoding_of L enforce_valid_values encoding = ret encoding.
Proof.
  unfold python_encoding_of, _python_encoding_for_corrected_encoding.
  intros [->|(-> & -> & -> & ->)]; reflexivity.
Qed.

Lemma mapM_python_encoding_of_itself encodings :
  Forall (resolves_to_itself L) encodings →
  mapM (python_encoding_of L enforce_valid_values) encodings
  = ret encodings.
Proof.
  induction 1 as [|encoding encodings Hself _ IH]; [done|].
  cbn [mapM]. by rewrite (python_encoding_of_itself _ Hself), IH.
Qed.

Lemma keep_extensions_all declared :
  Forall (fun d => d ∉ STAND_ALONE_ENCODINGS) declared →
  keep_extensions declared declared = declared.
Proof.
  induction 1 as [|d declared Hd _ IH]; [done|]. cbn [keep_extensions].
  unfold str_in. by rewrite bool_decide_eq_false_2, IH.
Qed.

Lemma filter_standalone_none declared :
  Forall (fun d => d ∉ STAND_ALONE_ENCODINGS) declared →
  filter (fun d => d ∈ STAND_ALONE_ENCODINGS) declared = [].
Proof.
  induction 1 as [|d declared Hd _ IH]; [done|].
  by rewrite filter_cons, decide_False.
Qed.

(** C3, amended.  For a list of two or more declared encodings that all
    get a Python encoding: when the first declared encoding is a
    stand-alone encoding, the result is the Python encoding of the first
    alone, after one warning that names the ignored rest; otherwise the
    result is the Python encodings, in order, without the ones of the
    code extensions declared as stand-alone encodings, after one warning
    for each of them.  All the declared encodings get a Python encoding
    when [config.enforce_valid_values] is off and [codecs.lookup] raises
    nothing but [LookupError] on them.  So
    ['ISO_IR 192', 'ISO 2022 IR 100'] gives ['UTF8']. *)
Theorem convert_encodings_standalone σ r first extensions :
  let encodings := first :: extensions in
  σ !! r = Some encodings → extensions ≠ [] →
  (∀ ws py,
     mapM (python_encoding_of L enforce_valid_values)
          (with_default_first encodings) = (ws, inr py) →
     ∃ σ' r' ws',
       returns (convert_encodings L enforce_valid_values (PyList r))
         σ σ' (ws ++ ws') r'
       ∧ length py = length encodings
       ∧ (first ∈ STAND_ALONE_ENCODINGS →
          σ' !! r' = Some (take 1 py)
          ∧ ws' = ["Value '" +:+ first
                   +:+ "' for Specific Character Set does not "
                   +:+ "allow code extensions, ignoring: "
                   +:+ join ", " extensions])
       ∧ (first ∉ STAND_ALONE_ENCODINGS →
          σ' !! r'
          = Some (take 1 py ++ keep_extensions extensions (drop 1 py))
          ∧ ws' = extension_warning
                  <$> reverse (filter (fun d => d ∈ STAND_ALONE_ENCODINGS)
                                      extensions)))
  ∧ (enforce_valid_values = false →
     Forall (plain_lookup L) encodings →
     ∃ ws py,
       mapM (python_encoding_of L enforce_valid_values)
            (with_default_first encodings) = (ws, inr py))
  ∧ (encodings = ["ISO_IR 192"; "ISO 2022 IR 100"] →
     ∃ σ' r',
       returns (convert_encodings L enforce_valid_values (PyList r))
         σ σ'
         ["Value 'ISO_IR 192' for Specific Character Set does not "
          +:+ "allow code extensions, ignoring: ISO 2022 IR 100"]
         r'
       ∧ σ' !! r' = Some ["UTF8"]).
Proof.
  intros encodings Hr Hextensions.
  destruct (convert_encodings_list_spec σ r first extensions Hr)
    as (σ' & _ & Hspec).
  assert (1 < length (with_default_first encodings)) as Hmany.
  { subst encodings. destruct extensions as [|e extensions];
      [by destruct Hextensions|].
    cbn [with_default_first length]. lia. }
  rewrite bool_decide_eq_true_2 in Hspec by done.
  fold encodings in Hspec.
  assert (∀ ws py,
            mapM (python_encoding_of L enforce_valid_values)
                 (with_default_first encodings) = (ws, inr py) →
            ∃ r',
              returns (convert_encodings L enforce_valid_values (PyList r))
                σ σ'
                (ws ++ standalone_warnings (with_default_first encodings))
                r'
              ∧ σ' !! r'
                = Some (without_standalone (with_default_first encodings)
                          py)) as Hreturns.
  { intros ws py Hpy. by rewrite Hpy in Hspec. }
  clear Hspec. split; [|split].
  - intros ws py Hpy. destruct (Hreturns ws py Hpy) as (r' & Hret & Hr').
    pose proof (mapM_length _ _ _ _ Hpy) as Hlength.
    exists σ', r', (standalone_warnings (with_default_first encodings)).
    split; [done|]. split; [by rewrite Hlength|].
    destruct py as [|p ps]; [by destruct extensions|].
    subst encodings. cbn [with_default_first] in *.
    cbn [standalone_warnings without_standalone take drop firstn skipn app]
      in *.
    case_bool_decide as Hempty.
    + subst first.
      assert ("" ∉ STAND_ALONE_ENCODINGS) as Hempty.
      { refine (proj1 (bool_decide_eq_false _) _). vm_compute. reflexivity. }
      split; [intros Hin; destruct (Hempty Hin)|]. intros _.
      change (str_in "ISO_IR 6" STAND_ALONE_ENCODINGS) with false in Hr'.
      change (str_in "ISO_IR 6" STAND_ALONE_ENCODINGS) with false.
      split; [exact Hr'|reflexivity].
    + unfold str_in in *. case_bool_decide as Hfirst; split.
      * intros _. split; [exact Hr'|reflexivity].
      * intros Hnot. destruct (Hnot Hfirst).
      * intros Hin. destruct (Hfirst Hin).
      * intros _. split; [exact Hr'|reflexivity].
  - intros -> Hplain.
    apply mapM_python_encoding_of_lenient, with_default_first_plain, Hplain.
  - intros Hexample. injection Hexample as -> ->.
    assert (mapM (python_encoding_of L enforce_valid_values)
                 (with_default_first ["ISO_IR 192"; "ISO 2022 IR 100"])
            = ([], inr ["UTF8"; "latin_1"])) as Hpy.
    { vm_compute. reflexivity. }
    destruct (Hreturns [] ["UTF8"; "latin_1"] Hpy) as (r' & Hret & Hr').
    exists σ', r'. split; [exact Hret|exact Hr'].
Qed.

(** C6, amended.  A list that is not empty, whose encodings each stand
    for themselves as Python encodings and, when there are two or more,
    include no stand-alone encoding, is converted to a list with the same
    elements in the same order, without any warning. *)
Theorem convert_encodings_fixed_point σ r encodings :
  σ !! r = Some encodings → encodings ≠ [] →
  Forall (resolves_to_itself L) encodings →
  (1 < length encodings →
   Forall (fun d => d ∉ STAND_ALONE_ENCODINGS) encodings) →
  ∃ σ' r',
    returns (convert_encodings L enforce_valid_values (PyList r))
      σ σ' [] r'
    ∧ σ' !! r' = Some encodings.
Proof.
  intros Hr Hne Hself Hsa. destruct encodings as [|first extensions]; [done|].
  destruct (convert_encodings_list_spec σ r first extensions Hr)
    as (σ' & _ & Hspec).
  assert (first ≠ "") as Hfirst.
  { intros ->. destruct (Forall_inv Hself) as [Hkey|[Hkey _]];
      vm_compute in Hkey; discriminate Hkey. }
  cbn [with_default_first] in Hspec.
  rewrite (bool_decide_eq_false_2 (first = "")) in Hspec by done.
  rewrite (mapM_python_encoding_of_itself _ Hself) in Hspec.
  cbn [ret app] in Hspec. destruct Hspec as (r' & Hret & Hr').
  exists σ', r'. case_bool_decide as Hmany.
  - specialize (Hsa Hmany).
    pose proof (Forall_inv Hsa) as Hsa1.
    apply Forall_inv_tail in Hsa.
    cbn [standalone_warnings without_standalone] in *. unfold str_in in *.
    rewrite bool_decide_eq_false_2 in Hret, Hr' by done.
    rewrite (filter_standalone_none _ Hsa) in Hret.
    by rewrite (keep_extensions_all _ Hsa) in Hr'.
  - done.
Qed.

End StoreProperties.

(** * Runs on the sample codecs *)

(** C1, as stated, fails on a text that holds an escape sequence: the four
    characters ESC, [(], [B], [x] are all in the default encoding, they are
    encoded to the same four bytes, and [decode_string] takes the first
    three for the escape code of the default encoding and returns [x]
    alone. *)
Lemma roundtrip_fails_on_escape_text :
  py_encode sample_codecs "iso8859" "strict" [27; 40; 66; 120]%N
  = inr [x1b; x28; x42; x78]
  ∧ (∀ enforce_valid_values,
       encode_string sample_codecs enforce_valid_values
         [27; 40; 66; 120]%N ["iso8859"]
       = ret [x1b; x28; x42; x78]
       ∧ decode_string sample_codecs enforce_valid_values
           [x1b; x28; x42; x78] ["iso8859"] ∅
         = ret [120%N]
       ∧ decode_string sample_codecs enforce_valid_values
           [x1b; x28; x42; x78] ["iso8859"] ∅
         ≠ ret [27; 40; 66; 120]%N).
Proof.
  split; [vm_compute; reflexivity|].
  intros [|]; (split; [vm_compute; reflexivity|]);
    (split; [vm_compute; reflexivity|]); vm_compute; congruence.
Qed.


(** C9.  On [a], HIRAGANA LETTER A, [e] with acute, the second character
    is the only one that shift_jis encodes to more than one byte, and the
    third is one that shift_jis cannot encode.  The error raised is the one
    of the codec for the third character taken alone, with the range [0, 1)
    in that one-character string, and not an error for the whole text with
    the range [1, 2) of the second character. *)
Lemma encode_to_jis_x_0201_unencodable :
  py_encode sample_codecs "shift_jis" "strict" [97%N] = inr [x61]
  ∧ py_encode sample_codecs "shift_jis" "strict" [12354%N] = inr [x82; xa0]
  ∧ py_encode sample_codecs "shift_jis" "strict" [233%N]
    = inl (CodecUnicodeError 0 1)
  ∧ _encode_to_jis_x_0201 sample_codecs [97%N; 12354%N; 233%N] "strict"
    = raise (UnicodeEncodeError "shift_jis" [233%N] 0 1)
  ∧ _encode_to_jis_x_0201 sample_codecs [97%N; 12354%N; 233%N] "strict"
    ≠ raise (UnicodeEncodeError "shift_jis" [97%N; 12354%N; 233%N] 1 2).
Proof. repeat split; try (vm_compute; reflexivity). vm_compute. congruence. Qed.

(** The encoder that splits a text between encodings reads the start of
    such an error as an index into the text: HALFWIDTH KATAKANA LETTER A
    and [a] have a byte each in shift_jis and [e] with acute is in latin_1,
    yet no part of the text is found encodable. *)
Lemma _encode_string_parts_unencodable :
  _encode_string_parts sample_codecs [65393%N; 97%N; 233%N]
    ["shift_jis"; "latin_1"]
  = raise (ValueError "").
Proof. vm_compute. reflexivity. Qed.

Lemma encode_to_jis_x_0201_spec_example :
  _encode_to_jis_x_0201 sample_codecs [97%N; 12354%N; 98%N; 12354%N; 99%N]
    "strict"
  = raise (UnicodeEncodeError "shift_jis"
             [97%N; 12354%N; 98%N; 12354%N; 99%N] 1 4).
Proof.
  destruct (encode_to_jis_x_0201_spec sample_codecs
              [97%N; 12354%N; 98%N; 12354%N; 99%N] "strict"
              [[x61]; [x82; xa0]; [x62]; [x82; xa0]; [x63]])
    as [_ Hstrict].
  { repeat constructor. }
  destruct (Hstrict eq_refl) as [_ Hraise].
  destruct Hraise as (i & j & _ & _ & Heq).
  { apply Exists_cons_tl, Exists_cons_hd. simpl. lia. }
  rewrite Heq. vm_compute in Heq. injection Heq as <- <-. reflexivity.
Defined.

(** C2.  With [config.enforce_valid_values] set and ['shift_jis'] as the
    only encoding, HIRAGANA LETTER A cannot be encoded: the encoder of the
    module refuses its two bytes.  [value.encode('shift_jis')] accepts them,
    so nothing is raised, and [encode_string] warns and returns [?]. *)
Lemma encode_string_enforced_returns_replacement :
  _encode_string_impl sample_codecs [12354%N] "shift_jis" "strict"
  = raise (UnicodeEncodeError "shift_jis" [12354%N] 0 1)
  ∧ py_encode sample_codecs "shift_jis" "strict" [12354%N]
    = inr [x82; xa0]
  ∧ encode_string sample_codecs true [12354%N] ["shift_jis"]
    = (["Failed to encode value with encodings: shift_jis - using "
        +:+ "replacement characters in encoded string"],
       inr [x3f]).
Proof. repeat split; vm_compute; reflexivity. Qed.

Lemma convert_encodings_standalone_witness :
  ∃ σ' r',
    returns (convert_encodings sample_codecs true (PyList 0))
      {[ 0 := ["ISO_IR 192"; "ISO 2022 IR 100"] ]} σ'
      ["Value 'ISO_IR 192' for Specific Character Set does not "
       +:+ "allow code extensions, ignoring: ISO 2022 IR 100"]
      r'
    ∧ σ' !! r' = Some ["UTF8"].
Proof.
  destruct (convert_encodings_standalone sample_codecs true
              {[ 0 := ["ISO_IR 192"; "ISO 2022 IR 100"] ]} 0
              "ISO_IR 192" ["ISO 2022 IR 100"])
    as (_ & _ & Hexample).
  - vm_compute. reflexivity.
  - discriminate.
  - apply Hexample. reflexivity.
Defined.

(** C3, as stated, fails on ['ISO_IR 192', 'nonsense'] with
    [config.enforce_valid_values] set: the list has two elements and its
    first is a stand-alone encoding, but the second raises [LookupError]
    before the check for stand-alone encodings, so that no list is
    returned and nothing is warned.  Without
    [config.enforce_valid_values], a name with a null character makes
    [codecs.lookup], and with it [convert_encodings], raise
    [ValueError]. *)
Lemma convert_encodings_standalone_unresolved :
  "ISO_IR 192" ∈ STAND_ALONE_ENCODINGS
  ∧ (∃ σ',
       raises (convert_encodings sample_codecs true (PyList 0))
         {[ 0 := ["ISO_IR 192"; "nonsense"] ]} σ' []
         (LookupError "Unknown encoding 'nonsense'"))
  ∧ (∃ σ',
       raises (convert_encodings sample_codecs false (PyList 0))
         {[ 0 := ["ISO_IR 192"; String "000" "GBK"] ]} σ' []
         (ValueError "embedded null character")).
Proof.
  split; [apply elem_of_cons; left; reflexivity|].
  split; eexists; vm_compute; reflexivity.
Qed.


(** C5, as stated, fails on [A] followed by HALFWIDTH KATAKANA LETTER A:
    the default encoding cannot encode the text, shift_jis encodes all of
    it in the first round, and the result starts with the escape code of
    shift_jis, before the byte of [A]. *)
Lemma encode_string_katakana_starts_with_escape :
  py_encode sample_codecs default_encoding "strict" [65; 65393]%N
  = inl (CodecUnicodeError 1 2)
  ∧ encode_string sample_codecs false [65; 65393]%N
      [default_encoding; "shift_jis"]
    = ret [x1b; x29; x49; x41; xb1]
  ∧ encode_string sample_codecs true [65; 65393]%N
      [default_encoding; "shift_jis"]
    = ret [x1b; x29; x49; x41; xb1]
  ∧ ¬ [x41] `prefix_of` [x1b; x29; x49; x41; xb1].
Proof.
  repeat split; try (vm_compute; reflexivity).
  intros [rest Hrest]. discriminate Hrest.
Qed.

Lemma encode_string_default_shift_jis_witness :
  encode_string sample_codecs false [65; 65393]%N
    [default_encoding; "shift_jis"]
  = ret ([x1b; x29; x49] ++ [x41; xb1])
  ∧ decode_string sample_codecs false ([x1b; x29; x49] ++ [x41; xb1])
      [default_encoding; "shift_jis"] {[ x5e ]}
    = ret [65; 65393]%N.
Proof.
  destruct (encode_string_default_shift_jis sample_codecs false
              [65; 65393]%N [x41; xb1] 1 2 {[ x5e ]})
    as [Hencoded Hdecoded].
  - vm_compute. reflexivity.
  - repeat constructor.
  - split; [exact Hencoded|]. apply Hdecoded.
    + refine (proj1 (bool_decide_eq_false _) _). vm_compute. reflexivity.
    + repeat constructor; rewrite elem_of_singleton; discriminate.
    + vm_compute. reflexivity.
Defined.

(** C6, as stated, fails on ['latin_1', 'GBK']: both name a codec, and
    ['GBK'], a stand-alone encoding declared as a code extension, is
    removed. *)
Lemma convert_encodings_drops_valid_name :
  codecs_lookup sample_codecs "latin_1" = LookupFound
  ∧ codecs_lookup sample_codecs "GBK" = LookupFound
  ∧ ∀ enforce_valid_values,
      ∃ σ' r',
        returns (convert_encodings sample_codecs enforce_valid_values
                   (PyList 0))
          {[ 0 := ["latin_1"; "GBK"] ]} σ'
          ["Value 'GBK' cannot be used as code extension, ignoring it"] r'
        ∧ σ' !! r' = Some ["latin_1"].
Proof.
  split; [vm_compute; reflexivity|]. split; [vm_compute; reflexivity|].
  intros [|]; eexists _, _; (split; [vm_compute; reflexivity|]);
    vm_compute; reflexivity.
Qed.

Lemma convert_encodings_fixed_point_witness :
  ∃ σ' r',
    returns (convert_encodings sample_codecs true (PyList 0))
      {[ 0 := ["latin_1"; "shift_jis"] ]} σ' [] r'
    ∧ σ' !! r' = Some ["latin_1"; "shift_jis"].
Proof.
  apply (convert_encodings_fixed_point sample_codecs true
           {[ 0 := ["latin_1"; "shift_jis"] ]} 0 ["latin_1"; "shift_jis"]).
  - vm_compute. reflexivity.
  - discriminate.
  - repeat constructor; right; repeat split; vm_compute; reflexivity.
  - intros _.
    repeat constructor; refine (proj1 (bool_decide_eq_false _) _);
      vm_compute; reflexivity.
Defined.

Lemma decode_string_fast_path_witness :
  decode_string sample_codecs false [x80] ["shift_jis"] ∅
  = (["Failed to decode byte string with encoding 'shift_jis' - using "
      +:+ "replacement characters in decoded string"],
     inr [65533%N]).
Proof.
  pose proof (decode_string_fast_path sample_codecs false [x80] "shift_jis"
                [] ∅) as Hfast.
  assert (ESC ∉ [x80]) as Hesc.
  { refine (proj1 (bool_decide_eq_false _) _). vm_compute. reflexivity. }
  specialize (Hfast Hesc). cbv zeta in Hfast.
  change (py_decode sample_codecs "shift_jis" "strict" [x80])
    with (@inl codec_error text (CodecUnicodeError 0 1)) in Hfast.
  cbv iota beta in Hfast. destruct Hfast as [_ Hreplaced].
  apply Hreplaced. vm_compute. reflexivity.
Defined.

Lemma decode_string_escape_path_witness :
  concat [[x41]; [x1b; x29; x49; xb1]; [x1b; x28; x42; x42]]
  = [x41; x1b; x29; x49; xb1; x1b; x28; x42; x42]
  ∧ decode_string sample_codecs false
      [x41; x1b; x29; x49; xb1; x1b; x28; x42; x42]
      ["iso8859"; "shift_jis"] ∅
    = ([], inr [65; 65393; 66]%N).
Proof.
  destruct (decode_string_escape_path sample_codecs false
              [x41; x1b; x29; x49; xb1; x1b; x28; x42; x42]
              ["iso8859"; "shift_jis"] ∅) as [_ Hsplit].
  - refine (bool_decide_unpack _ _). vm_compute. exact I.
  - destruct (Hsplit [x41] [[x29; x49; xb1]; [x28; x42; x42]])
      as (Hconcat & Hdecoded & _).
    + refine (bool_decide_unpack _ _). vm_compute. exact I.
    + repeat apply Forall_cons_2; try apply Forall_nil_2;
        refine (bool_decide_unpack _ _); vm_compute; exact I.
    + reflexivity.
    + split; [exact Hconcat|].
      apply (Hdecoded [([], [65%N]); ([], [65393%N]); ([], [66%N])]).
      repeat apply Forall2_cons_2; try apply Forall2_nil_2;
        vm_compute; reflexivity.
Defined.

Lemma convert_encodings_argument_unchanged_witness :
  (convert_encodings sample_codecs false (PyList 0)
     {[ 0 := [""; "GBK"; "ISO-IR 100"] ]}).1 !! 0
  = Some [""; "GBK"; "ISO-IR 100"].
Proof.
  apply (convert_encodings_argument_unchanged sample_codecs false
           {[ 0 := [""; "GBK"; "ISO-IR 100"] ]} 0 [""; "GBK"; "ISO-IR 100"]).
  vm_compute. reflexivity.
Defined.

(** * Further properties *)

(** ** The tables of escape codes *)

Lemma map_Forall_by_list `{Countable K} {V} (P : K → V → Prop)
    (check : K → V → bool) (m : gmap K V) :
  (∀ k v, check k v = true → P k v) →
  forallb (fun kv => check kv.1 kv.2) (map_to_list m) = true →
  ∀ k v, m !! k = Some v → P k v.
Proof.
  intros Hcheck Hall k v Hk. rewrite forallb_forall in Hall.
  apply elem_of_map_to_list, list_elem_of_In in Hk.
  apply Hcheck, (Hall (k, v) Hk).
Qed.

Lemma ENCODINGS_TO_CODES_read encoding code :
  ENCODINGS_TO_CODES !! encoding = Some code →
  CODES_TO_ENCODINGS !! code = Some encoding.
Proof.
  revert encoding code.
  apply (map_Forall_by_list _
           (fun encoding code =>
              bool_decide (CODES_TO_ENCODINGS !! code = Some encoding))).
  - intros encoding code. apply bool_decide_eq_true_1.
  - vm_compute. reflexivity.
Qed.

Lemma CODES_TO_ENCODINGS_written code encoding :
  CODES_TO_ENCODINGS !! code = Some encoding →
  ENCODINGS_TO_CODES !! encoding = Some code
  ∨ (code = [x1b; x28; x4a] ∧ encoding = "shift_jis").
Proof.
  revert code encoding.
  apply (map_Forall_by_list _
           (fun code encoding =>
              bool_decide
                (ENCODINGS_TO_CODES !! encoding = Some code
                 ∨ (code = [x1b; x28; x4a] ∧ encoding = "shift_jis")))).
  - intros code encoding. apply bool_decide_eq_true_1.
  - vm_compute. reflexivity.
Qed.

(** X1.  The two tables of escape codes agree: the escape code with which
    an encoding is written is one that is read as this encoding; and an
    escape code that is read as an encoding is the one with which the
    encoding is written, but for [ESC ( J], which is read as shift_jis and
    is not the code written for it. *)
Theorem escape_code_tables_agree :
  (∀ encoding code,
     ENCODINGS_TO_CODES !! encoding = Some code →
     CODES_TO_ENCODINGS !! code = Some encoding)
  ∧ (∀ code encoding,
       CODES_TO_ENCODINGS !! code = Some encoding →
       ENCODINGS_TO_CODES !! encoding = Some code
       ∨ (code = [x1b; x28; x4a] ∧ encoding = "shift_jis")).
Proof.
  split; [apply ENCODINGS_TO_CODES_read|apply CODES_TO_ENCODINGS_written].
Qed.

Lemma startswith_app (byte_str rest prefix : bytes) :
  (length prefix ≤ length byte_str)%nat →
  startswith (byte_str ++ rest) prefix = startswith byte_str prefix.
Proof.
  intros Hlen. unfold startswith. apply bool_decide_ext. split.
  - intros [k Hk].
    assert (take (length prefix) (byte_str ++ rest)
            = take (length prefix) (prefix ++ k)) as Htake by (by rewrite Hk).
    rewrite take_app_le in Htake by done.
    rewrite take_app_length in Htake. rewrite <-Htake. apply prefix_take.
  - intros Hprefix. by apply prefix_app_r.
Qed.

Lemma CODES_TO_ENCODINGS_shape code encoding :
  CODES_TO_ENCODINGS !! code = Some encoding →
  startswith code [ESC] = true
  ∧ (length code = 3 ∨ length code = 4)
  ∧ seq_length_of code = length code.
Proof.
  revert code encoding.
  apply (map_Forall_by_list _
           (fun (code : bytes) (_ : string) =>
              bool_decide
                (startswith code [ESC] = true
                 ∧ (length code = 3 ∨ length code = 4)
                 ∧ seq_length_of code = length code))).
  - intros code encoding. apply bool_decide_eq_true_1.
  - vm_compute. reflexivity.
Qed.

Lemma seq_length_of_code code encoding rest :
  CODES_TO_ENCODINGS !! code = Some encoding →
  seq_length_of (code ++ rest) = length code.
Proof.
  intros (_ & Hlen & Hseq)%CODES_TO_ENCODINGS_shape.
  rewrite <-Hseq. unfold seq_length_of.
  rewrite !startswith_app; [done|simpl; lia..].
Qed.

(** X2.  Every escape code of the table starts with ESC and has three or
    four bytes, and in a fragment that starts with the code, whatever
    follows, [_decode_escaped_fragment] finds the code: the bytes up to
    the length it computes are the code, the bytes after it the rest. *)
Theorem CODES_TO_ENCODINGS_seq_length code encoding rest :
  CODES_TO_ENCODINGS !! code = Some encoding →
  startswith code [ESC] = true
  ∧ (length code = 3 ∨ length code = 4)
  ∧ take (seq_length_of (code ++ rest)) (code ++ rest) = code
  ∧ drop (seq_length_of (code ++ rest)) (code ++ rest) = rest.
Proof.
  intros Hcode.
  destruct (CODES_TO_ENCODINGS_shape _ _ Hcode) as (Hesc & Hlen & _).
  rewrite (seq_length_of_code _ _ rest Hcode).
  split; [done|]. split; [done|].
  split; [apply take_app_length|apply drop_app_length].
Qed.

(** ** The rounds of [encode_string] *)

Section EncodeStringRounds.
Context (L : CodecLayer).

Lemma encode_string_for_refused enforce_valid_values value encodings pre
    post i :
  Forall (refuses L value) pre →
  encode_string_for L enforce_valid_values value encodings
    (enumerate_from i (pre ++ post))
  = encode_string_for L enforce_valid_values value encodings
      (enumerate_from (i + length pre) post).
Proof.
  intros Hpre. revert i.
  induction Hpre as [|encoding pre (e & He & Hclass) _ IH]; intros i.
  { simpl. by rewrite Nat.add_0_r. }
  cbn [app enumerate_from encode_string_for length].
  rewrite He, bind_raise. cbn [try_except raise]. rewrite Hclass.
  rewrite IH. replace (i + S (length pre)) with (S i + length pre) by lia.
  by destruct (encode_string_for _ _ _ _ _) as [ws r].
Qed.

Lemma _get_escape_sequence_to_alphanumeric_returns encodings :
  encodings ≠ [] →
  ∃ tail, _get_escape_sequence_to_alphanumeric encodings = ret tail.
Proof.
  destruct encodings as [|first_encoding rest]; [done|]. intros _.
  unfold _get_escape_sequence_to_alphanumeric.
  cbn [list_index lookup list_lookup]. rewrite bind_ret_l.
  case_bool_decide; by eexists.
Qed.

(** X3.  The first round of [encode_string] ends at the first encoding of
    the list whose encoder accepts the whole value, whatever follows it in
    the list: the result is the bytes of that encoder, after the escape
    code of the encoding unless it is the first of the list or an encoding
    handled by Python, and before the escape sequence back to the first
    encoding for the encodings that need one. *)
Theorem encode_string_first_accepted enforce_valid_values value pre encoding
    post encoded :
  let encodings := pre ++ encoding :: post in
  Forall (refuses L value) pre →
  _encode_string_impl L value encoding "strict" = ret encoded →
  encode_string L enforce_valid_values value encodings
  = (let escaped :=
       if bool_decide (pre ≠ []) && negb (str_in encoding handled_encodings)
       then dict_get ENCODINGS_TO_CODES encoding (b_ "") ++ encoded
       else encoded in
     if str_in encoding need_tail_escape_sequence_encodings
     then tail <- _get_escape_sequence_to_alphanumeric encodings ;;
          ret (escaped ++ tail)
     else ret escaped).
Proof.
  intros encodings Hpre Hencoded. unfold encode_string, enumerate.
  subst encodings. rewrite (encode_string_for_refused _ _ _ _ _ _ Hpre).
  cbn [enumerate_from encode_string_for Nat.add].
  rewrite Hencoded, bind_ret_l. cbv zeta.
  assert (bool_decide (0 < length pre) = bool_decide (pre ≠ [])) as ->.
  { apply bool_decide_ext. destruct pre; simpl; split; (done || lia). }
  destruct (_get_escape_sequence_to_alphanumeric_returns
              (pre ++ encoding :: post)) as [tail ->].
  { by destruct pre. }
  by destruct (str_in encoding need_tail_escape_sequence_encodings).
Qed.

(** X4.  An encoder that raises anything but a [UnicodeError], as an
    unknown encoding does with its [LookupError], ends [encode_string]
    with that exception when every encoding before it in the list refused
    the value: no encoding after it is tried, there is no warning and no
    replacement, whether [config.enforce_valid_values] is set or not. *)
Theorem encode_string_exception_propagates enforce_valid_values value pre
    encoding post e :
  Forall (refuses L value) pre →
  _encode_string_impl L value encoding "strict" = raise e →
  is_UnicodeError e = false →
  encode_string L enforce_valid_values value (pre ++ encoding :: post)
  = raise e.
Proof.
  intros Hpre He Hclass. unfold encode_string, enumerate.
  rewrite (encode_string_for_refused _ _ _ _ _ _ Hpre).
  cbn [enumerate_from encode_string_for Nat.add].
  rewrite He, bind_raise. cbn [try_except raise]. by rewrite Hclass.
Qed.

Lemma encode_string_all_refused enforce_valid_values value encodings :
  Forall (refuses L value) encodings →
  encode_string L enforce_valid_values value encodings
  = encode_string_else L enforce_valid_values value encodings.
Proof.
  intros Hall. unfold encode_string, enumerate.
  rewrite <-(app_nil_r encodings) at 2.
  by rewrite (encode_string_for_refused _ _ _ _ _ _ Hall).
Qed.

(** X5.  When every encoder refuses the value and, for a list of two or
    more encodings, the encoding by parts gives up too: with
    [config.enforce_valid_values] off, [encode_string] warns once and
    returns the value encoded with the first encoding and the ['replace']
    error handler; with it set, [encode_string] raises the error of
    [value.encode(encodings[0])] whenever that call fails. *)
Theorem encode_string_last_resort value first_encoding rest :
  let encodings := first_encoding :: rest in
  let msg := "Failed to encode value with encodings: "
             +:+ join ", " encodings
             +:+ " - using replacement characters in encoded string" in
  Forall (refuses L value) encodings →
  (rest = []
   ∨ ∃ e, _encode_string_parts L value encodings = raise e
          ∧ is_ValueError e = true) →
  encode_string L false value encodings
  = (warn msg >> _encode_string_impl L value first_encoding "replace")
  ∧ encode_string L true value encodings
    = (str_encode L value first_encoding "strict" >>
       warn msg >> _encode_string_impl L value first_encoding "replace")
  ∧ ∀ start stop,
      py_encode L first_encoding "strict" value
      = inl (CodecUnicodeError start stop) →
      encode_string L true value encodings
      = raise (UnicodeEncodeError first_encoding value start stop).
Proof.
  intros encodings msg Hall Hparts.
  assert (∀ enforce,
            encode_string L enforce value encodings
            = ((if enforce
                then str_encode L value first_encoding "strict" >> ret tt
                else ret tt) >>
               warn msg >>
               _encode_string_impl L value first_encoding "replace"))
    as Hresort.
  { intros enforce. rewrite (encode_string_all_refused _ _ _ Hall).
    unfold encode_string_else. fold msg.
    assert ((if bool_decide (1 < length encodings)
             then try_except
                    (encoded <- _encode_string_parts L value encodings ;;
                     ret (Some encoded))
                    is_ValueError (fun _ => ret None)
             else ret None) = ret None) as ->.
    { destruct Hparts as [->|(e & -> & Hclass)].
      - by rewrite bool_decide_eq_false_2 by (simpl; lia).
      - case_bool_decide; [|done]. rewrite bind_raise.
        cbn [try_except raise]. by rewrite Hclass. }
    rewrite bind_ret_l. subst encodings.
    cbn [list_index lookup list_lookup]. rewrite !bind_ret_l.
    reflexivity. }
  split; [|split].
  - rewrite (Hresort false). by rewrite bind_ret_l.
  - rewrite (Hresort true).
    destruct (str_encode L value first_encoding "strict") as [ws [e|b]];
      [reflexivity|].
    cbn [bind ret]. by rewrite app_nil_r.
  - intros start stop Herr. rewrite (Hresort true).
    by rewrite (str_encode_unicode_error _ _ _ _ _ _ Herr).
Qed.

End EncodeStringRounds.

(** ** Encoding by parts *)

Section EncodeStringParts.
Context (L : CodecLayer).

Lemma _encode_string_parts_best_refused part pre post max_index best :
  Forall (refuses L part) pre →
  ∃ max_index' best',
    _encode_string_parts_best L part (pre ++ post) max_index best
    = _encode_string_parts_best L part post max_index' best'.
Proof.
  intros Hpre. revert max_index best.
  induction Hpre as [|encoding pre (e & He & Hclass) _ IH];
    intros max_index best.
  { by eexists _, _. }
  cbn [app _encode_string_parts_best]. rewrite He, bind_raise.
  cbn [try_except raise]. rewrite Hclass.
  case_bool_decide.
  - destruct (IH (exn_start e) (Some encoding)) as (m & b & ->).
    exists m, b. by destruct (_encode_string_parts_best _ _ _ _ _) as [ws r].
  - destruct (IH max_index best) as (m & b & ->).
    exists m, b. by destruct (_encode_string_parts_best _ _ _ _ _) as [ws r].
Qed.

Lemma _encode_string_parts_best_accepted part pre encoding post encoded
    max_index best :
  Forall (refuses L part) pre →
  _encode_string_impl L part encoding "strict" = ret encoded →
  _encode_string_parts_best L part (pre ++ encoding :: post) max_index best
  = ret (length part, Some encoding).
Proof.
  intros Hpre Hencoded.
  destruct (_encode_string_parts_best_refused part pre (encoding :: post)
              max_index best Hpre) as (m & b & ->).
  cbn [_encode_string_parts_best]. by rewrite Hencoded, bind_ret_l.
Qed.

(** X6.  When the encoder of an encoding accepts the whole of a value that
    is not empty, and the encodings before it in the list refuse the value,
    [_encode_string_parts] encodes the value in one part with that
    encoding: the result is its escape code (also for the first encoding
    of the list, and left out only for the encodings handled by Python),
    the bytes of the encoder, and the escape sequence back to the first
    encoding when the encoding needs one. *)
Theorem _encode_string_parts_one_part c cs pre encoding post encoded :
  let value := c :: cs in
  let encodings := pre ++ encoding :: post in
  Forall (refuses L value) pre →
  _encode_string_impl L value encoding "strict" = ret encoded →
  _encode_string_parts L value encodings
  = (let escaped :=
       (if negb (str_in encoding handled_encodings)
        then dict_get ENCODINGS_TO_CODES encoding (b_ "") else [])
       ++ encoded in
     if str_in encoding need_tail_escape_sequence_encodings
     then tail <- _get_escape_sequence_to_alphanumeric encodings ;;
          ret (escaped ++ tail)
     else ret escaped).
Proof.
  intros value encodings Hpre Hencoded. unfold _encode_string_parts.
  subst value. rewrite _encode_string_parts_while_equation_2.
  subst encodings.
  rewrite (_encode_string_parts_best_accepted _ _ _ _ _ _ _ Hpre Hencoded).
  rewrite bind_ret_l. cbn [fst snd length].
  rewrite (take_ge (c :: cs)) by (simpl; lia).
  rewrite Hencoded, bind_ret_l, drop_all.
  rewrite _encode_string_parts_while_equation_1, bind_ret_l.
  cbn [fst snd opt_str_in]. change (b_ "") with (@nil byte).
  by destruct (negb (str_in encoding handled_encodings)).
Qed.

Lemma _encode_string_parts_best_give_up part encodings best :
  Forall (fun encoding =>
            ∃ e, _encode_string_impl L part encoding "strict" = raise e
                 ∧ is_UnicodeError e = true ∧ exn_start e = 0)
         encodings →
  _encode_string_parts_best L part encodings 0 best = ret (0, best).
Proof.
  induction 1 as [|encoding encodings (e & He & Hclass & Hstart) _ IH];
    [done|].
  cbn [_encode_string_parts_best]. rewrite He, bind_raise.
  cbn [try_except raise]. rewrite Hclass, Hstart.
  rewrite bool_decide_eq_false_2 by lia. by rewrite IH.
Qed.

(** X7.  [_encode_string_parts] gives up with a [ValueError] when the
    encoder of every encoding fails on the first character of the value
    (a [UnicodeError] that starts at index 0): nothing is encoded. *)
Theorem _encode_string_parts_gives_up c cs encodings :
  Forall (fun encoding =>
            ∃ e, _encode_string_impl L (c :: cs) encoding "strict" = raise e
                 ∧ is_UnicodeError e = true ∧ exn_start e = 0)
         encodings →
  _encode_string_parts L (c :: cs) encodings = raise (ValueError "").
Proof.
  intros Hall. unfold _encode_string_parts.
  rewrite _encode_string_parts_while_equation_2.
  by rewrite (_encode_string_parts_best_give_up _ _ _ Hall), bind_ret_l.
Qed.

Lemma need_tail_handled encoding :
  encoding ∈ need_tail_escape_sequence_encodings →
  encoding ∈ handled_encodings.
Proof.
  unfold need_tail_escape_sequence_encodings, handled_encodings.
  rewrite !elem_of_cons. intros [->|[->|[]%elem_of_nil]]; auto.
Qed.

(** A value in two parts, each encoded by one of two encodings that are
    not handled by Python. *)
Lemma _encode_string_parts_two_parts part1 part2 encoding1 encoding2
    e1 e2 encoded1 encoded2 :
  part1 ≠ [] → part2 ≠ [] →
  encoding1 ∉ handled_encodings → encoding2 ∉ handled_encodings →
  _encode_string_impl L (part1 ++ part2) encoding1 "strict" = raise e1 →
  is_UnicodeError e1 = true → exn_start e1 = length part1 →
  _encode_string_impl L (part1 ++ part2) encoding2 "strict" = raise e2 →
  is_UnicodeError e2 = true → (exn_start e2 ≤ length part1)%nat →
  _encode_string_impl L part1 encoding1 "strict" = ret encoded1 →
  refuses L part2 encoding1 →
  _encode_string_impl L part2 encoding2 "strict" = ret encoded2 →
  _encode_string_parts L (part1 ++ part2) [encoding1; encoding2]
  = ret (dict_get ENCODINGS_TO_CODES encoding1 (b_ "") ++ encoded1
         ++ dict_get ENCODINGS_TO_CODES encoding2 (b_ "") ++ encoded2).
Proof.
  intros Hpart1 Hpart2 Hhandled1 Hhandled2 He1 Hclass1 Hstart1 He2 Hclass2
    Hstart2 Hencoded1 Hrefused Hencoded2.
  assert (str_in encoding1 handled_encodings = false) as Hin1.
  { unfold str_in. by rewrite bool_decide_eq_false_2. }
  assert (str_in encoding2 handled_encodings = false) as Hin2.
  { unfold str_in. by rewrite bool_decide_eq_false_2. }
  assert (str_in encoding2 need_tail_escape_sequence_encodings = false)
    as Htail2.
  { unfold str_in. apply bool_decide_eq_false_2. intros Hin.
    by apply Hhandled2, need_tail_handled. }
  destruct part1 as [|c1 cs1]; [done|]. destruct part2 as [|c2 cs2]; [done|].
  unfold _encode_string_parts. cbn [app].
  rewrite _encode_string_parts_while_equation_2.
  cbn [_encode_string_parts_best].
  change (c1 :: cs1 ++ c2 :: cs2) with ((c1 :: cs1) ++ c2 :: cs2).
  rewrite He1, bind_raise. cbn [try_except raise]. rewrite Hclass1, Hstart1.
  rewrite bool_decide_eq_true_2 by (simpl; lia).
  rewrite He2, bind_raise. cbn [try_except raise]. rewrite Hclass2.
  rewrite bool_decide_eq_false_2 by lia.
  cbn [app ret bind fst snd length].
  change (take (S (length cs1)) (c1 :: cs1 ++ c2 :: cs2))
    with (c1 :: take (length cs1) (cs1 ++ c2 :: cs2)).
  rewrite take_app_length, drop_app_length.
  rewrite Hencoded1, bind_ret_l, Hin1. cbn [negb].
  rewrite _encode_string_parts_while_equation_2.
  pose proof (_encode_string_parts_best_accepted (c2 :: cs2) [encoding1]
                encoding2 [] encoded2 0 (Some encoding1)
                (Forall_cons_2 _ _ _ Hrefused (Forall_nil_2 _)) Hencoded2)
    as Hbest.
  cbn [app] in Hbest. rewrite Hbest, bind_ret_l. cbn [fst snd length].
  rewrite (take_ge (c2 :: cs2)) by (simpl; lia).
  rewrite Hencoded2, bind_ret_l, drop_all, Hin2. cbn [negb].
  rewrite _encode_string_parts_while_equation_1.
  cbn [ret bind app fst snd opt_str_in]. rewrite Htail2.
  change (b_ "") with (@nil byte). cbn [app ret].
  by rewrite <-!app_assoc.
Qed.

End EncodeStringParts.

(** ** Decoding the parts of a value *)

Lemma CODES_TO_ENCODINGS_one_escape code encoding :
  CODES_TO_ENCODINGS !! code = Some encoding →
  ∃ rest, code = ESC :: rest ∧ ESC ∉ rest.
Proof.
  revert code encoding.
  apply (map_Forall_by_list _
           (fun (code : bytes) (_ : string) =>
              match code with
              | b :: rest => bool_decide (b = ESC) && bool_decide (ESC ∉ rest)
              | [] => false
              end)).
  - intros [|b rest] encoding; [done|].
    intros [Hb Hrest]%andb_true_iff.
    apply bool_decide_eq_true_1 in Hb as ->.
    apply bool_decide_eq_true_1 in Hrest. by exists rest.
  - vm_compute. reflexivity.
Qed.

Section DecodeParts.
Context (L : CodecLayer).

Lemma _decode_escaped_fragment_code_rest enforce_valid_values code encoding
    rest encodings (delimiters : gset byte) :
  CODES_TO_ENCODINGS !! code = Some encoding →
  encoding ∈ encodings ∨ encoding = default_encoding →
  encoding ∉ handled_encodings →
  Forall (fun ch => ch ∉ delimiters) rest →
  _decode_escaped_fragment L enforce_valid_values (code ++ rest) encodings
    delimiters
  = bytes_decode L rest encoding "strict".
Proof.
  intros Hcode Hdeclared Hhandled Hdelimiters.
  unfold _decode_escaped_fragment, dict_get.
  rewrite (seq_length_of_code _ _ rest Hcode).
  rewrite take_app_length, drop_app_length, Hcode. simpl.
  assert (str_in encoding encodings
          || bool_decide (encoding = default_encoding) = true) as ->.
  { unfold str_in. destruct Hdeclared.
    - by rewrite bool_decide_eq_true_2.
    - rewrite (bool_decide_eq_true_2 (encoding = _)) by done.
      apply orb_true_r. }
  unfold str_in. rewrite bool_decide_eq_false_2 by done.
  by rewrite (proj2 (first_delimiter_None rest delimiters)).
Qed.

Lemma startswith_code_rest code encoding rest :
  CODES_TO_ENCODINGS !! code = Some encoding →
  startswith (code ++ rest) [ESC] = true.
Proof.
  intros Hcode.
  destruct (CODES_TO_ENCODINGS_shape _ _ Hcode) as (Hesc & Hlen & _).
  rewrite startswith_app; [done|]. simpl. lia.
Qed.

Lemma _decode_fragment_part enforce_valid_values encodings delimiters p :
  well_formed_part L encodings delimiters p →
  _decode_fragment L enforce_valid_values (part_fragment p) encodings
    delimiters
  = ret (part_text p).
Proof.
  intros (Hcode & Hdeclared & Hhandled & _ & Hdelimiters & Hdecode).
  unfold _decode_fragment, part_fragment.
  rewrite (startswith_code_rest _ _ _ Hcode).
  rewrite (_decode_escaped_fragment_code_rest _ _ _ _ _ _ Hcode Hdeclared
             Hhandled Hdelimiters).
  rewrite (bytes_decode_ok _ _ _ _ _ Hdecode).
  reflexivity.
Qed.

Lemma part_fragment_escaped encodings delimiters p :
  well_formed_part L encodings delimiters p →
  ∃ rest, part_fragment p = ESC :: rest ∧ ESC ∉ rest.
Proof.
  intros (Hcode & _ & _ & Hesc & _).
  destruct (CODES_TO_ENCODINGS_one_escape _ _ Hcode) as (rest & Hrest & ?).
  exists (rest ++ part_bytes p). unfold part_fragment. rewrite Hrest.
  split; [done|]. rewrite elem_of_app. tauto.
Qed.

Lemma try_except_ret {A} (a : A) cls handler :
  try_except (ret a) cls handler = ret a.
Proof. reflexivity. Qed.

Lemma findall_fragments_parts encodings delimiters run parts :
  ESC ∉ run →
  Forall (well_formed_part L encodings delimiters) parts →
  findall_fragments (run ++ concat (part_fragment <$> parts))
  = match run with [] => [] | _ :: _ => [run] end
    ++ (part_fragment <$> parts).
Proof.
  intros Hrun Hparts. unfold findall_fragments.
  rewrite (split_at_escapes_app_no_escape _ _ Hrun).
  rewrite split_at_escapes_escaped.
  - cbn [fst snd]. rewrite app_nil_r. by destruct run.
  - apply Forall_fmap. eapply Forall_impl; [exact Hparts|].
    intros p Hp. exact (part_fragment_escaped _ _ _ Hp).
Qed.

Lemma mapM__decode_fragment_parts enforce_valid_values encodings delimiters
    parts :
  Forall (well_formed_part L encodings delimiters) parts →
  mapM (fun fragment =>
          _decode_fragment L enforce_valid_values fragment encodings
            delimiters)
       (part_fragment <$> parts)
  = ret (part_text <$> parts).
Proof.
  induction 1 as [|p parts Hp _ IH]; [done|].
  cbn [mapM fmap list_fmap] in *.
  rewrite (_decode_fragment_part _ _ _ _ Hp), bind_ret_l, IH, bind_ret_l.
  reflexivity.
Qed.

Lemma parts_hold_escape encodings delimiters run parts :
  parts ≠ [] →
  Forall (well_formed_part L encodings delimiters) parts →
  ESC ∈ run ++ concat (part_fragment <$> parts).
Proof.
  intros Hne Hparts. destruct parts as [|p parts]; [done|].
  destruct (part_fragment_escaped _ _ _ (Forall_inv Hparts))
    as (tail & Htail & _).
  rewrite elem_of_app. right. cbn [fmap list_fmap concat].
  rewrite Htail. apply elem_of_cons. by left.
Qed.

Lemma decode_string_parts enforce_valid_values encodings delimiters parts :
  parts ≠ [] →
  Forall (well_formed_part L encodings delimiters) parts →
  decode_string L enforce_valid_values (concat (part_fragment <$> parts))
    encodings delimiters
  = ret (concat (part_text <$> parts)).
Proof.
  intros Hne Hparts. unfold decode_string.
  pose proof (parts_hold_escape _ _ [] _ Hne Hparts) as Hesc.
  pose proof (findall_fragments_parts _ _ [] _ (not_elem_of_nil _) Hparts)
    as Hall.
  cbn [app] in Hesc, Hall.
  rewrite (bool_decide_eq_true_2 _ Hesc), Hall. cbn [negb].
  rewrite (mapM__decode_fragment_parts _ _ _ _ Hparts), bind_ret_l.
  reflexivity.
Qed.

(** X9.  A value made of a run of bytes without escape byte followed by
    one or more well-formed parts is decoded part by part: the run, when
    it is not empty, with the first declared encoding, each part with the
    encoding of its escape code, the code itself stripped; the result is
    the texts in order, and no warning is emitted. *)
Theorem decode_string_escaped_parts enforce_valid_values first_encoding rest
    delimiters run decoded_run parts :
  let encodings := first_encoding :: rest in
  ESC ∉ run →
  (run = [] → decoded_run = []) →
  (run ≠ [] → py_decode L first_encoding "strict" run = inr decoded_run) →
  parts ≠ [] →
  Forall (well_formed_part L encodings delimiters) parts →
  decode_string L enforce_valid_values
    (run ++ concat (part_fragment <$> parts)) encodings delimiters
  = ret (decoded_run ++ concat (part_text <$> parts)).
Proof.
  intros encodings Hrun Hempty Hdecode Hne Hparts.
  unfold decode_string. fold encodings.
  rewrite (bool_decide_eq_true_2 _ (parts_hold_escape _ _ run _ Hne Hparts)).
  cbn [negb].
  rewrite (findall_fragments_parts _ _ _ _ Hrun Hparts).
  pose proof (mapM__decode_fragment_parts enforce_valid_values _ _ _ Hparts)
    as Hmap.
  destruct run as [|b run].
  - rewrite (Hempty eq_refl). cbn [app]. rewrite Hmap, bind_ret_l.
    reflexivity.
  - cbn [app mapM]. unfold _decode_fragment at 1.
    assert (startswith (b :: run) [ESC] = false) as ->.
    { apply not_elem_of_cons in Hrun as [Hb _].
      apply bool_decide_eq_false_2. intros [tail Htail].
      injection Htail as Hb' _. congruence. }
    unfold list_index. subst encodings. cbn [lookup list_lookup].
    rewrite bind_ret_l.
    rewrite (bytes_decode_ok _ _ _ _ _ (Hdecode ltac:(discriminate))).
    rewrite try_except_ret, bind_ret_l, Hmap, !bind_ret_l.
    reflexivity.
Qed.

(** ** Encoding with code extensions, and decoding again *)

Lemma str_in_false encoding (encodings : list string) :
  encoding ∉ encodings → str_in encoding encodings = false.
Proof. intros Hin. unfold str_in. by rewrite bool_decide_eq_false_2. Qed.

Lemma not_need_tail encoding :
  encoding ∉ handled_encodings →
  str_in encoding need_tail_escape_sequence_encodings = false.
Proof.
  intros Hin. apply str_in_false. intros Htail.
  by apply Hin, need_tail_handled.
Qed.

(** X10.  An encoding that is not the first of the list and is not
    handled by Python, whose encoder is the first to accept the value:
    [encode_string] returns the escape code of the encoding followed by
    the bytes of the encoder, and when these bytes hold no escape byte and
    no delimiter and the codec decodes them to the value, [decode_string]
    with the same encodings gives the value back, in either mode. *)
Theorem encode_decode_extension_roundtrip enforce_valid_values
    enforce_valid_values' value first_encoding pre encoding post encoded
    code delimiters :
  let encodings := (first_encoding :: pre) ++ encoding :: post in
  Forall (refuses L value) (first_encoding :: pre) →
  _encode_string_impl L value encoding "strict" = ret encoded →
  encoding ∉ handled_encodings →
  ENCODINGS_TO_CODES !! encoding = Some code →
  ESC ∉ encoded →
  Forall (fun ch => ch ∉ delimiters) encoded →
  py_decode L encoding "strict" encoded = inr value →
  encode_string L enforce_valid_values value encodings
  = ret (code ++ encoded)
  ∧ decode_string L enforce_valid_values' (code ++ encoded) encodings
      delimiters
    = ret value.
Proof.
  intros encodings Hpre Hencoded Hhandled Hcode Hesc Hdelimiters Hdecode.
  split.
  - unfold encode_string, enumerate. subst encodings.
    rewrite (encode_string_for_refused _ _ _ _ _ _ _ Hpre).
    cbn [enumerate_from encode_string_for Nat.add length].
    rewrite Hencoded, bind_ret_l. cbv zeta.
    rewrite bool_decide_eq_true_2 by lia.
    rewrite (str_in_false _ _ Hhandled), (not_need_tail _ Hhandled).
    unfold dict_get. rewrite Hcode. reflexivity.
  - pose proof (decode_string_parts enforce_valid_values' encodings
                  delimiters
                  [{| part_code := code; part_encoding := encoding;
                      part_bytes := encoded; part_text := value |}])
      as Hparts.
    unfold part_fragment in Hparts.
    cbn [fmap list_fmap concat part_text part_code part_bytes] in Hparts.
    rewrite !app_nil_r in Hparts. apply Hparts; [done|].
    apply Forall_cons_2; [|apply Forall_nil_2].
    unfold well_formed_part.
    cbn [part_code part_encoding part_bytes part_text].
    split; [exact (ENCODINGS_TO_CODES_read _ _ Hcode)|].
    split; [|split; [exact Hhandled|split; [exact Hesc|split;
      [exact Hdelimiters|exact Hdecode]]]].
    left. subst encodings.
    apply elem_of_app. right. apply elem_of_cons. left. reflexivity.
Qed.

(** X8.  A value in two parts, for two encodings that are not handled by
    Python: the first encoder fails on the whole value where the second
    part starts, the second encoder fails no later, the first encoder
    accepts the first part, and on the second part the first encoder
    refuses and the second accepts.  Then no encoder accepts the whole
    value, and [encode_string], in either mode and without warning,
    returns what [_encode_string_parts] returns: the escape code of the
    first encoding and the bytes of the first part, then the escape code
    of the second encoding and the bytes of the second part.  When the
    bytes of both parts hold no escape byte and no delimiter and the
    codecs decode them to the parts, [decode_string] with the same
    encodings gives the value back. *)
Theorem encode_decode_two_parts_roundtrip enforce_valid_values
    enforce_valid_values' part1 part2 encoding1 encoding2 e1 e2 encoded1
    encoded2 code1 code2 delimiters :
  let value := part1 ++ part2 in
  let encodings := [encoding1; encoding2] in
  let encoded := code1 ++ encoded1 ++ code2 ++ encoded2 in
  part1 ≠ [] → part2 ≠ [] →
  encoding1 ∉ handled_encodings → encoding2 ∉ handled_encodings →
  ENCODINGS_TO_CODES !! encoding1 = Some code1 →
  ENCODINGS_TO_CODES !! encoding2 = Some code2 →
  _encode_string_impl L value encoding1 "strict" = raise e1 →
  is_UnicodeError e1 = true → exn_start e1 = length part1 →
  _encode_string_impl L value encoding2 "strict" = raise e2 →
  is_UnicodeError e2 = true → (exn_start e2 ≤ length part1)%nat →
  _encode_string_impl L part1 encoding1 "strict" = ret encoded1 →
  refuses L part2 encoding1 →
  _encode_string_impl L part2 encoding2 "strict" = ret encoded2 →
  _encode_string_parts L value encodings = ret encoded
  ∧ encode_string L enforce_valid_values value encodings = ret encoded
  ∧ (ESC ∉ encoded1 → ESC ∉ encoded2 →
     Forall (fun ch => ch ∉ delimiters) (encoded1 ++ encoded2) →
     py_decode L encoding1 "strict" encoded1 = inr part1 →
     py_decode L encoding2 "strict" encoded2 = inr part2 →
     decode_string L enforce_valid_values' encoded encodings delimiters
     = ret value).
Proof.
  intros value encodings encoded Hpart1 Hpart2 Hhandled1 Hhandled2 Hcode1
    Hcode2 He1 Hclass1 Hstart1 He2 Hclass2 Hstart2 Hencoded1 Hrefused
    Hencoded2.
  assert (_encode_string_parts L value encodings = ret encoded) as Hparts.
  { subst value encodings encoded.
    rewrite (_encode_string_parts_two_parts L part1 part2 encoding1
               encoding2 e1 e2 encoded1 encoded2); try assumption.
    unfold dict_get. rewrite Hcode1, Hcode2. reflexivity. }
  split; [exact Hparts|]. split.
  - rewrite encode_string_all_refused.
    + unfold encode_string_else. fold encodings.
      rewrite bool_decide_eq_true_2 by (simpl; lia).
      rewrite Hparts, bind_ret_l, try_except_ret, bind_ret_l.
      reflexivity.
    + apply Forall_cons_2; [exists e1; split; [exact He1|exact Hclass1]|].
      apply Forall_cons_2; [exists e2; split; [exact He2|exact Hclass2]|].
      apply Forall_nil_2.
  - intros Hesc1 Hesc2 [Hdelimiters1 Hdelimiters2]%Forall_app Hdecode1
      Hdecode2.
    pose proof (decode_string_parts enforce_valid_values' encodings
                  delimiters
                  [{| part_code := code1; part_encoding := encoding1;
                      part_bytes := encoded1; part_text := part1 |};
                   {| part_code := code2; part_encoding := encoding2;
                      part_bytes := encoded2; part_text := part2 |}])
      as Hdecoded.
    unfold part_fragment in Hdecoded.
    cbn [fmap list_fmap concat part_text part_code part_bytes] in Hdecoded.
    rewrite !app_nil_r, <-!app_assoc in Hdecoded.
    apply Hdecoded; [done|].
    apply Forall_cons_2; [|apply Forall_cons_2; [|apply Forall_nil_2]].
    + unfold well_formed_part.
      cbn [part_code part_encoding part_bytes part_text].
      split; [exact (ENCODINGS_TO_CODES_read _ _ Hcode1)|].
      split; [|split; [exact Hhandled1|split; [exact Hesc1|split;
        [exact Hdelimiters1|exact Hdecode1]]]].
      left. apply elem_of_cons. left. reflexivity.
    + unfold well_formed_part.
      cbn [part_code part_encoding part_bytes part_text].
      split; [exact (ENCODINGS_TO_CODES_read _ _ Hcode2)|].
      split; [|split; [exact Hhandled2|split; [exact Hesc2|split;
        [exact Hdelimiters2|exact Hdecode2]]]].
      left. apply elem_of_cons. right.
      apply elem_of_cons. left. reflexivity.
Qed.

(** ** Fragments the decoder cannot read *)

Lemma decode_string_one_fragment enforce_valid_values tail encodings
    delimiters :
  ESC ∉ tail →
  decode_string L enforce_valid_values (ESC :: tail) encodings delimiters
  = (part <- try_except
               (_decode_escaped_fragment L enforce_valid_values (ESC :: tail)
                  encodings delimiters)
               is_UnicodeError
               (fun e =>
                  if enforce_valid_values then raise e
                  else
                    warn ("Failed to decode byte string with encodings: "
                          +:+ join ", " encodings
                          +:+ " - using replacement characters in decoded string") >>
                    (enc0 <- list_index encodings 0 ;;
                     bytes_decode L (ESC :: tail) enc0 "replace")) ;;
     ret part).
Proof.
  intros Hesc. unfold decode_string.
  rewrite bool_decide_eq_true_2 by (apply elem_of_cons; by left).
  cbn [negb]. rewrite (findall_fragments_escaped _ Hesc).
  cbn [mapM]. unfold _decode_fragment.
  assert (startswith (ESC :: tail) [ESC] = true) as ->.
  { apply bool_decide_eq_true_2. by exists tail. }
  destruct (try_except _ _ _) as [ws [e|part]]; [reflexivity|].
  cbn [bind ret concat]. by rewrite !app_nil_r.
Qed.

(** X11.  A value of one fragment whose escape code is not in the table,
    or stands for an encoding that is neither declared nor the default
    one: with [config.enforce_valid_values] set, [decode_string] raises a
    [ValueError]; without it, it warns once and decodes the whole value,
    escape code included, with the first declared encoding and the
    ['replace'] error handler. *)
Theorem decode_string_unknown_escape first_encoding rest delimiters tail :
  let encodings := first_encoding :: rest in
  let value := ESC :: tail in
  let encoding :=
    dict_get CODES_TO_ENCODINGS (take (seq_length_of value) value) "" in
  let msg := "Found unknown escape sequence in encoded string value" in
  ESC ∉ tail →
  encoding ∉ encodings →
  encoding ≠ default_encoding →
  decode_string L true value encodings delimiters = raise (ValueError msg)
  ∧ ∀ decoded,
      py_decode L first_encoding "replace" value = inr decoded →
      decode_string L false value encodings delimiters
      = (warn (msg +:+ " - using encoding " +:+ first_encoding) >>
         ret decoded).
Proof.
  intros encodings value encoding msg Hesc Hdeclared Hdefault.
  assert (∀ enforce,
            _decode_escaped_fragment L enforce value encodings delimiters
            = if enforce then raise (ValueError msg)
              else warn (msg +:+ " - using encoding " +:+ first_encoding) >>
                   bytes_decode L value first_encoding "replace")
    as Hfragment.
  { intros enforce. unfold _decode_escaped_fragment. fold encoding.
    cbv zeta. fold encoding.
    rewrite (str_in_false _ _ Hdeclared).
    rewrite (bool_decide_eq_false_2 _ Hdefault). cbn [orb].
    destruct enforce; [reflexivity|]. subst encodings.
    cbn [list_index lookup list_lookup]. rewrite !bind_ret_l.
    reflexivity. }
  split.
  - rewrite (decode_string_one_fragment _ _ _ _ Hesc).
    fold value. rewrite (Hfragment true). reflexivity.
  - intros decoded Hdecoded.
    rewrite (decode_string_one_fragment _ _ _ _ Hesc).
    fold value. rewrite (Hfragment false).
    rewrite (bytes_decode_ok _ _ _ _ _ Hdecoded). reflexivity.
Qed.

(** X12.  A value of one fragment with an escape code of the table, for a
    declared encoding that Python does not handle itself, whose bytes
    after the code hold no delimiter and are refused by the codec: with
    [config.enforce_valid_values] set, [decode_string] raises the
    [UnicodeDecodeError] of the codec; without it, it warns once and
    decodes the whole value, the bytes of the escape code included, with
    the first declared encoding and the ['replace'] error handler. *)
Theorem decode_string_undecodable_part first_encoding rest delimiters code
    encoding body start stop :
  let encodings := first_encoding :: rest in
  let value := code ++ body in
  CODES_TO_ENCODINGS !! code = Some encoding →
  encoding ∈ encodings ∨ encoding = default_encoding →
  encoding ∉ handled_encodings →
  ESC ∉ body →
  Forall (fun ch => ch ∉ delimiters) body →
  py_decode L encoding "strict" body = inl (CodecUnicodeError start stop) →
  decode_string L true value encodings delimiters
  = raise (UnicodeDecodeError encoding body start stop)
  ∧ ∀ decoded,
      py_decode L first_encoding "replace" value = inr decoded →
      decode_string L false value encodings delimiters
      = (warn ("Failed to decode byte string with encodings: "
               +:+ join ", " encodings
               +:+ " - using replacement characters in decoded string") >>
         ret decoded).
Proof.
  intros encodings value Hcode Hdeclared Hhandled Hesc Hdelimiters Herror.
  destruct (CODES_TO_ENCODINGS_one_escape _ _ Hcode)
    as (code' & Hcode' & Hesc').
  assert (∃ tail, value = ESC :: tail ∧ ESC ∉ tail) as (tail & Hvalue & Htail).
  { exists (code' ++ body). subst value. rewrite Hcode'.
    split; [done|]. rewrite elem_of_app. tauto. }
  assert (∀ enforce,
            _decode_escaped_fragment L enforce value encodings delimiters
            = raise (UnicodeDecodeError encoding body start stop))
    as Hfragment.
  { intros enforce. subst value.
    rewrite (_decode_escaped_fragment_code_rest _ _ _ _ _ _ Hcode Hdeclared
               Hhandled Hdelimiters).
    exact (bytes_decode_unicode_error _ _ _ _ _ _ Herror). }
  split.
  - rewrite Hvalue, (decode_string_one_fragment _ _ _ _ Htail), <-Hvalue.
    rewrite (Hfragment true). reflexivity.
  - intros decoded Hdecoded.
    rewrite Hvalue, (decode_string_one_fragment _ _ _ _ Htail), <-Hvalue.
    rewrite (Hfragment false). cbn [try_except raise is_UnicodeError].
    subst encodings. cbn [list_index lookup list_lookup].
    rewrite bind_ret_l, (bytes_decode_ok _ _ _ _ _ Hdecoded).
    reflexivity.
Qed.

End DecodeParts.

(** ** The encoders of the Japanese character sets *)

Section JapaneseEncoders.
Context (L : CodecLayer).

Lemma _encode_to_jis_x_0201_loop_returns errors value k st ws st' :
  _encode_to_jis_x_0201_loop L errors (enumerate_from k value) st
  = (ws, inr st') →
  ∃ encs,
    Forall2 (fun c encoded => py_encode L "shift_jis" errors [c] = inr encoded)
            value encs.
Proof.
  revert k st. induction value as [|c value IH]; intros k [[buf start] end_].
  { intros _. exists []. constructor. }
  cbn [enumerate_from _encode_to_jis_x_0201_loop]. unfold str_encode.
  destruct (py_encode L "shift_jis" errors [c]) as [[s e|]|encoded] eqn:Hc;
    [discriminate..|].
  rewrite bind_ret_l. case_bool_decide; intros Hloop.
  all: destruct (IH _ _ Hloop) as [encs Hencs].
  all: exists (encoded :: encs); by constructor.
Qed.

(** X13.  Whenever [_encode_to_jis_x_0201] returns, it returns one byte
    for each character of the value, without a warning: shift_jis has
    encoded every character on its own under the given [errors], and the
    byte of a character is its byte in shift_jis when it has one byte
    there, [?] when it has none or several; with ['strict'] every
    character has exactly its one byte of shift_jis. *)
Theorem _encode_to_jis_x_0201_returns value errors ws encoded :
  _encode_to_jis_x_0201 L value errors = (ws, inr encoded) →
  ws = []
  ∧ length encoded = length value
  ∧ Forall2 (fun c b =>
               ∃ bs, py_encode L "shift_jis" errors [c] = inr bs
                     ∧ [b] = single_or_question bs
                     ∧ (errors = "strict" → bs = [b]))
            value encoded.
Proof.
  intros Hreturns.
  assert (∃ encs,
            Forall2 (fun c bs => py_encode L "shift_jis" errors [c] = inr bs)
                    value encs) as [encs Hencs].
  { unfold _encode_to_jis_x_0201, enumerate in Hreturns.
    destruct (_encode_to_jis_x_0201_loop L errors (enumerate_from 0 value)
                (b_ "", length value, 0)) as [ws' [e|st']] eqn:Hloop;
      [discriminate|].
    exact (_encode_to_jis_x_0201_loop_returns _ _ _ _ _ _ Hloop). }
  assert (ws = [] ∧ encoded = concat (single_or_question <$> encs)
          ∧ (errors = "strict" →
             Forall (fun bs : bytes => length bs = 1) encs))
    as (Hws & Hencoded & Hstrict).
  { unfold _encode_to_jis_x_0201, enumerate in Hreturns.
    rewrite (_encode_to_jis_x_0201_loop_spec _ _ _ _ _ _ _ _ Hencs),
      bind_ret_l in Hreturns.
    change (b_ "" ++ ?l) with l in Hreturns.
    destruct (bool_decide (errors = "strict")) eqn:Herrors.
    - apply bool_decide_eq_true_1 in Herrors.
      destruct (decide (Forall (fun bs : bytes => length bs = 1) encs))
        as [Hsingle|Hbad].
      + destruct (_ && _ && _); [discriminate|].
        injection Hreturns as <- <-. done.
      + exfalso. apply not_Forall_Exists in Hbad; [|solve_decision].
        pose proof (Forall2_length _ _ _ Hencs) as Hlength.
        destruct (first_not_single encs) as [i|] eqn:Hfirst.
        * destruct (last_not_single encs) as [j|] eqn:Hlast.
          -- apply first_not_single_Some in Hfirst as [(bs & Hi & _) _].
             apply lookup_lt_Some in Hi.
             cbn [from_option] in Hreturns.
             rewrite bool_decide_eq_true_2 in Hreturns by lia.
             rewrite bool_decide_eq_true_2 in Hreturns by lia.
             discriminate.
          -- apply last_not_single_None in Hlast.
             apply Exists_exists in Hbad as (bs & Hin & Hlen).
             rewrite Forall_forall in Hlast. specialize (Hlast _ Hin).
             cbn in Hlen. lia.
        * unfold first_not_single in Hfirst.
          destruct (list_find _ encs) as [[??]|] eqn:Hfind; [done|].
          apply list_find_None in Hfind.
          apply Exists_exists in Hbad as (bs & Hin & Hlen).
          rewrite Forall_forall in Hfind. specialize (Hfind _ Hin).
          cbn in Hfind, Hlen. lia.
    - rewrite andb_false_r in Hreturns. injection Hreturns as <- <-.
      split; [done|]. split; [done|]. intros ->. done. }
  split; [exact Hws|]. subst encoded.
  assert (Forall2 (fun c b =>
                     ∃ bs, py_encode L "shift_jis" errors [c] = inr bs
                           ∧ [b] = single_or_question bs
                           ∧ (errors = "strict" → bs = [b]))
                  value (concat (single_or_question <$> encs))) as Hall.
  { clear Hreturns.
    assert (errors = "strict" ∨ errors ≠ "strict") as Hmode
      by (destruct (decide (errors = "strict")); auto).
    induction Hencs as [|c bs value encs Hc _ IH]; [constructor|].
    rewrite fmap_cons. cbn [concat].
    assert (∃ b, single_or_question bs = [b]
                 ∧ (errors = "strict" → bs = [b])) as (b & Hb & Hone).
    { unfold single_or_question. case_bool_decide as Hlen.
      - exists x3f. split; [done|]. intros Herrors.
        specialize (Hstrict Herrors). apply Forall_inv in Hstrict.
        cbn in Hstrict. lia.
      - destruct bs as [|b [|??]]; cbn in Hlen; try lia.
        exists b. done. }
    rewrite Hb. cbn [app]. constructor.
    - exists bs. rewrite Hb. done.
    - apply IH. intros Herrors. exact (Forall_inv_tail (Hstrict Herrors)). }
  split; [|exact Hall].
  symmetry. exact (Forall2_length _ _ _ Hall).
Qed.

(** X14.  The escape sequence that [encode_string] appends after the
    bytes of iso2022_jp is empty, for a first encoding without escape
    code, or an escape code that [decode_string] reads as the first
    encoding of the list; for shift_jis it is [ESC ( J] and not the code
    [ESC ) I] that is written in front of shift_jis bytes. *)
Theorem _get_escape_sequence_to_alphanumeric_first first_encoding rest :
  ∃ tail,
    _get_escape_sequence_to_alphanumeric (first_encoding :: rest) = ret tail
    ∧ (first_encoding = "shift_jis" → tail = ESC :: b_ "(J")
    ∧ (tail = [] ∧ ENCODINGS_TO_CODES !! first_encoding = None
       ∨ CODES_TO_ENCODINGS !! tail = Some first_encoding).
Proof.
  unfold _get_escape_sequence_to_alphanumeric.
  cbn [list_index lookup list_lookup]. rewrite bind_ret_l.
  case_bool_decide as Hfirst.
  - eexists. split; [reflexivity|]. split; [done|]. right. subst.
    vm_compute. reflexivity.
  - eexists. split; [reflexivity|]. split; [done|]. unfold dict_get.
    destruct (ENCODINGS_TO_CODES !! first_encoding) as [code|] eqn:Hcode.
    + right. exact (ENCODINGS_TO_CODES_read _ _ Hcode).
    + left. split; reflexivity.
Qed.

Lemma last_n_app {A} (l tail : list A) :
  last_n (length tail) (l ++ tail) = tail
  ∧ but_last_n (length tail) (l ++ tail) = l.
Proof.
  unfold last_n, but_last_n. rewrite length_app.
  replace (length l + length tail - length tail) with (length l) by lia.
  by rewrite drop_app_length, take_app_length.
Qed.

Lemma _encode_to_jis_x_0208_trimmed value errors encoded :
  py_encode L "iso2022_jp" errors value = inr (encoded ++ ESC :: b_ "(B") →
  _encode_to_jis_x_0208 L value errors = ret encoded.
Proof.
  intros Hraw. unfold _encode_to_jis_x_0208.
  rewrite (str_encode_ok _ _ _ _ _ Hraw), bind_ret_l.
  assert (dict_index ENCODINGS_TO_CODES default_encoding
          = ret (ESC :: b_ "(B")) as -> by (vm_compute; reflexivity).
  rewrite bind_ret_l.
  destruct (last_n_app encoded (ESC :: b_ "(B")) as [Hlast Hbut].
  change (length (ESC :: b_ "(B")) with 3 in Hlast, Hbut.
  rewrite Hlast, Hbut. by rewrite bool_decide_eq_true_2.
Qed.

Lemma _decode_escaped_fragment_handled enforce_valid_values code encoding
    rest encodings (delimiters : gset byte) :
  CODES_TO_ENCODINGS !! code = Some encoding →
  encoding ∈ encodings ∨ encoding = default_encoding →
  encoding ∈ handled_encodings →
  _decode_escaped_fragment L enforce_valid_values (code ++ rest) encodings
    delimiters
  = bytes_decode L (code ++ rest) encoding "strict".
Proof.
  intros Hcode Hdeclared Hhandled.
  unfold _decode_escaped_fragment, dict_get.
  rewrite (seq_length_of_code _ _ rest Hcode).
  rewrite take_app_length, Hcode. simpl.
  assert (str_in encoding encodings
          || bool_decide (encoding = default_encoding) = true) as ->.
  { unfold str_in. destruct Hdeclared.
    - by rewrite bool_decide_eq_true_2.
    - rewrite (bool_decide_eq_true_2 (encoding = _)) by done.
      apply orb_true_r. }
  unfold str_in. by rewrite bool_decide_eq_true_2.
Qed.

(** X15.  iso2022_jp as an extension: a value that the encodings before
    iso2022_jp refuse and that the codec writes as [ESC $ B], bytes
    without escape byte, and [ESC ( B].  [encode_string] writes no escape
    code of its own in front, takes the trailing [ESC ( B] of the codec
    away and puts the escape sequence to the first encoding in its place.
    [decode_string] gives the value back when the codec decodes the bytes
    up to the trailing sequence to the value, whatever the delimiters
    are: the escape code is left to the codec and no delimiter is looked
    for. *)
Theorem encode_decode_iso2022_jp_roundtrip enforce_valid_values
    enforce_valid_values' value first_encoding pre post body code
    delimiters :
  let encodings := (first_encoding :: pre) ++ "iso2022_jp" :: post in
  let encoded := ESC :: b_ "$B" ++ body in
  let tail := if bool_decide (first_encoding = "shift_jis")
              then ESC :: b_ "(J" else code in
  Forall (refuses L value) (first_encoding :: pre) →
  first_encoding ∉ handled_encodings →
  ENCODINGS_TO_CODES !! first_encoding = Some code →
  py_encode L "iso2022_jp" "strict" value = inr (encoded ++ ESC :: b_ "(B") →
  ESC ∉ body →
  encode_string L enforce_valid_values value encodings
  = ret (encoded ++ tail)
  ∧ (py_decode L "iso2022_jp" "strict" encoded = inr value →
     py_decode L first_encoding "strict" [] = inr [] →
     decode_string L enforce_valid_values' (encoded ++ tail) encodings
       delimiters
     = ret value).
Proof.
  intros encodings encoded tail Hpre Hhandled Hcode Hraw Hbody.
  assert (_get_escape_sequence_to_alphanumeric encodings = ret tail)
    as Htail.
  { unfold _get_escape_sequence_to_alphanumeric. subst encodings tail.
    cbn [app list_index lookup list_lookup]. rewrite bind_ret_l.
    case_bool_decide; [reflexivity|]. unfold dict_get. by rewrite Hcode. }
  assert (CODES_TO_ENCODINGS !! tail = Some first_encoding) as Hread.
  { subst tail. case_bool_decide as Hfirst.
    - subst first_encoding. vm_compute. reflexivity.
    - exact (ENCODINGS_TO_CODES_read _ _ Hcode). }
  split.
  - unfold encode_string, enumerate. unfold encodings at 2.
    rewrite (encode_string_for_refused _ _ _ _ _ _ _ Hpre).
    cbn [enumerate_from encode_string_for Nat.add length].
    assert (_encode_string_impl L value "iso2022_jp" "strict" = ret encoded)
      as ->.
    { exact (_encode_to_jis_x_0208_trimmed _ _ _ Hraw). }
    rewrite bind_ret_l. cbv zeta.
    assert (str_in "iso2022_jp" handled_encodings = true) as ->
      by (vm_compute; reflexivity).
    assert (str_in "iso2022_jp" need_tail_escape_sequence_encodings = true)
      as -> by (vm_compute; reflexivity).
    rewrite andb_false_r. fold encodings. rewrite Htail, bind_ret_l.
    reflexivity.
  - intros Hdecode Hempty. unfold decode_string.
    assert (findall_fragments (encoded ++ tail) = [encoded; tail]) as Hall.
    { unfold findall_fragments.
      rewrite <-(app_nil_r tail).
      change (encoded ++ tail ++ []) with (concat [encoded; tail]).
      rewrite split_at_escapes_escaped; [by rewrite app_nil_r|].
      apply Forall_cons_2; [|apply Forall_cons_2; [|apply Forall_nil_2]].
      - exists (b_ "$B" ++ body). split; [reflexivity|].
        assert (ESC ∉ b_ "$B") as Hcode'.
        { refine (bool_decide_unpack _ _). vm_compute. exact I. }
        rewrite elem_of_app. intros [Hin|Hin]; [exact (Hcode' Hin)|].
        exact (Hbody Hin).
      - exact (CODES_TO_ENCODINGS_one_escape _ _ Hread). }
    rewrite bool_decide_eq_true_2 by (apply elem_of_cons; by left).
    cbn [negb]. rewrite Hall. cbn [mapM].
    assert (_decode_fragment L enforce_valid_values' encoded encodings
              delimiters = ret value) as ->.
    { unfold _decode_fragment.
      assert (startswith encoded [ESC] = true) as ->.
      { apply bool_decide_eq_true_2. by eexists. }
      change encoded with ((ESC :: b_ "$B") ++ body).
      rewrite (_decode_escaped_fragment_handled _ _ "iso2022_jp").
      - change ((ESC :: b_ "$B") ++ body) with encoded.
        by rewrite (bytes_decode_ok _ _ _ _ _ Hdecode).
      - vm_compute. reflexivity.
      - left. subst encodings. apply elem_of_app. right.
        apply elem_of_cons. by left.
      - apply elem_of_cons. by left. }
    rewrite bind_ret_l.
    pose proof (_decode_fragment_part L enforce_valid_values' encodings
                  delimiters
                  {| part_code := tail; part_encoding := first_encoding;
                     part_bytes := []; part_text := [] |}) as Hpart.
    unfold part_fragment in Hpart.
    cbn [part_code part_bytes part_text] in Hpart.
    rewrite app_nil_r in Hpart. rewrite Hpart.
    + rewrite !bind_ret_l. cbn [concat]. by rewrite !app_nil_r.
    + unfold well_formed_part.
      cbn [part_code part_encoding part_bytes part_text].
      split; [exact Hread|]. split.
      { left. subst encodings. apply elem_of_cons. by left. }
      split; [exact Hhandled|]. split; [apply not_elem_of_nil|].
      split; [apply Forall_nil_2|exact Hempty].
Qed.

End JapaneseEncoders.

(** ** Encoding with the first encoding, and decoding again *)

Section RoundTripFirst.
Context (L : CodecLayer) (enforce_valid_values : bool).

Lemma need_tail_code first_encoding :
  first_encoding ∈ need_tail_escape_sequence_encodings →
  first_encoding ≠ "shift_jis"
  ∧ ∃ code, ENCODINGS_TO_CODES !! first_encoding = Some code.
Proof.
  unfold need_tail_escape_sequence_encodings. rewrite !elem_of_cons.
  intros [->|[->|[]%elem_of_nil]].
  - split; [discriminate|]. eexists. vm_compute. reflexivity.
  - split; [discriminate|]. eexists. vm_compute. reflexivity.
Qed.

Lemma startswith_no_escape (byte_str : bytes) :
  ESC ∉ byte_str → startswith byte_str [ESC] = false.
Proof.
  intros Hesc. apply bool_decide_eq_false_2. intros [tail ->].
  apply Hesc, elem_of_cons. left. reflexivity.
Qed.

(** C1, amended.  A text that the encoder of the first encoding accepts
    is encoded in the first round of [encode_string]: to the bytes of
    that encoder, followed, for the encodings that need a tail escape
    sequence (iso2022_jp and iso-2022-jp), by the escape code of the
    encoding.  [decode_string] gives the text back from these bytes:
    for an encoding without tail, when the bytes hold no escape byte and
    the codec decodes them to the text; for an encoding with a tail, when
    the codec decodes the bytes of the encoder to the text and the escape
    code alone to the empty text, and the bytes of the encoder hold no
    escape byte or are one escape code of the encoding followed by bytes
    without escape byte. *)
Theorem encode_decode_roundtrip value first_encoding rest
    (delimiters : gset byte) encoded :
  let encodings := first_encoding :: rest in
  let tail := if str_in first_encoding need_tail_escape_sequence_encodings
              then dict_get ENCODINGS_TO_CODES first_encoding (b_ "")
              else [] in
  _encode_string_impl L value first_encoding "strict" = ret encoded →
  encode_string L enforce_valid_values value encodings
  = ret (encoded ++ tail)
  ∧ (first_encoding ∉ need_tail_escape_sequence_encodings →
     ESC ∉ encoded →
     py_decode L first_encoding "strict" encoded = inr value →
     decode_string L enforce_valid_values (encoded ++ tail) encodings
       delimiters
     = ret value)
  ∧ (first_encoding ∈ need_tail_escape_sequence_encodings →
     py_decode L first_encoding "strict" encoded = inr value →
     py_decode L first_encoding "strict" tail = inr [] →
     (ESC ∉ encoded) ∧ (encoded = [] → value = [])
     ∨ (∃ code body,
          encoded = code ++ body
          ∧ CODES_TO_ENCODINGS !! code = Some first_encoding
          ∧ ESC ∉ body) →
     decode_string L enforce_valid_values (encoded ++ tail) encodings
       delimiters
     = ret value).
Proof.
  intros encodings tail Hencoded. split; [|split].
  - subst encodings tail. unfold encode_string, enumerate.
    cbn [enumerate_from encode_string_for]. rewrite Hencoded, bind_ret_l.
    cbv zeta. rewrite (bool_decide_eq_false_2 (0 < 0)) by lia.
    cbn [andb].
    destruct (str_in first_encoding need_tail_escape_sequence_encodings)
      eqn:Htail; [|by rewrite app_nil_r].
    apply bool_decide_eq_true_1 in Htail.
    destruct (need_tail_code _ Htail) as [Hshift _].
    unfold _get_escape_sequence_to_alphanumeric.
    cbn [list_index lookup list_lookup bind ret].
    rewrite (bool_decide_eq_false_2 _ Hshift). reflexivity.
  - intros Htail Hesc Hdecoded. subst tail encodings.
    rewrite (str_in_false _ _ Htail), app_nil_r.
    unfold decode_string. rewrite (bool_decide_eq_false_2 _ Hesc).
    cbn [negb list_index lookup list_lookup]. rewrite bind_ret_l.
    by rewrite (bytes_decode_ok _ _ _ _ _ Hdecoded).
  - intros Htail Hdecoded Hempty Hshape.
    assert (str_in first_encoding need_tail_escape_sequence_encodings
            = true) as Hin by (by apply bool_decide_eq_true_2).
    subst tail. rewrite Hin in Hempty |- *.
    destruct (need_tail_code _ Htail) as (_ & code' & Hcode').
    unfold dict_get in Hempty |- *. rewrite Hcode' in Hempty |- *.
    cbn [default from_option id] in Hempty |- *.
    pose proof (ENCODINGS_TO_CODES_read _ _ Hcode') as Hread.
    pose proof (need_tail_handled _ Htail) as Hhandled.
    assert (first_encoding ∈ encodings) as Hfirst
      by (apply elem_of_cons; left; reflexivity).
    assert (_decode_fragment L enforce_valid_values code' encodings
              delimiters = ret []) as Htext.
    { pose proof (startswith_code_rest code' first_encoding [] Hread)
        as Hstarts.
      pose proof (_decode_escaped_fragment_handled L enforce_valid_values
                    code' first_encoding [] encodings delimiters Hread
                    (or_introl Hfirst) Hhandled) as Hfragment.
      rewrite app_nil_r in Hstarts, Hfragment.
      unfold _decode_fragment.
      rewrite Hstarts, Hfragment, (bytes_decode_ok _ _ _ _ _ Hempty).
      reflexivity. }
    destruct (CODES_TO_ENCODINGS_one_escape _ _ Hread)
      as (tail' & Htail' & Hesc').
    assert (ESC ∈ encoded ++ code') as Hesc.
    { rewrite Htail'. apply elem_of_app. right. apply elem_of_cons.
      left. reflexivity. }
    unfold decode_string. rewrite (bool_decide_eq_true_2 _ Hesc).
    cbn [negb].
    destruct Hshape as [[Hplain Hnil]|(code & body & -> & Hcode & Hbody)].
    + assert (findall_fragments (encoded ++ code')
              = match encoded with [] => [] | _ :: _ => [encoded] end
                ++ [code']) as ->.
      { unfold findall_fragments.
        assert (Forall (fun rest : bytes => ESC ∉ rest) [tail']) as Hrests.
        { apply Forall_cons_2; [exact Hesc'|apply Forall_nil_2]. }
        pose proof (split_at_escapes_split encoded [tail'] Hplain Hrests)
          as Hsplit.
        cbn [fmap list_fmap concat] in Hsplit.
        rewrite app_nil_r, <-Htail' in Hsplit. rewrite Hsplit.
        by destruct encoded. }
      destruct encoded as [|b encoded].
      * cbn [app mapM]. rewrite Htext, !bind_ret_l. cbn [concat app].
        by rewrite (Hnil eq_refl).
      * cbn [app mapM]. unfold _decode_fragment at 1.
        rewrite (startswith_no_escape _ Hplain).
        subst encodings. cbn [list_index lookup list_lookup].
        rewrite bind_ret_l, (bytes_decode_ok _ _ _ _ _ Hdecoded).
        rewrite try_except_ret, bind_ret_l, Htext, !bind_ret_l.
        cbn [concat]. by rewrite !app_nil_r.
    + destruct (CODES_TO_ENCODINGS_one_escape _ _ Hcode)
        as (code_tail & Hcode_tail & Hesc_code).
      assert (findall_fragments ((code ++ body) ++ code')
              = [code ++ body; code']) as ->.
      { unfold findall_fragments.
        replace ((code ++ body) ++ code')
          with ([] ++ concat ((fun rest => ESC :: rest)
                              <$> [code_tail ++ body; tail'])).
        2: { cbn [fmap list_fmap concat app].
             rewrite app_nil_r, Hcode_tail, Htail'. reflexivity. }
        rewrite split_at_escapes_split.
        - cbn [fmap list_fmap]. rewrite Hcode_tail, Htail'. reflexivity.
        - apply not_elem_of_nil.
        - apply Forall_cons_2; [|apply Forall_cons_2; [exact Hesc'|]];
            [|apply Forall_nil_2].
          rewrite elem_of_app. tauto. }
      cbn [mapM]. unfold _decode_fragment at 1.
      rewrite (startswith_code_rest _ _ _ Hcode).
      rewrite (_decode_escaped_fragment_handled L _ _ _ _ _ _ Hcode
                 (or_introl Hfirst) Hhandled).
      rewrite (bytes_decode_ok _ _ _ _ _ Hdecoded).
      rewrite try_except_ret, bind_ret_l, Htext, !bind_ret_l.
      cbn [concat]. by rewrite !app_nil_r.
Qed.

End RoundTripFirst.

(** ** Converting the declared encodings *)

Lemma python_encoding_keys_well_spelled encoding py_encoding :
  python_encoding !! encoding = Some py_encoding →
  matches_standard_misspelling encoding = false
  ∧ matches_extension_misspelling encoding = false.
Proof.
  revert encoding py_encoding.
  apply (map_Forall_by_list _
           (fun encoding (_ : string) =>
              negb (matches_standard_misspelling encoding)
              && negb (matches_extension_misspelling encoding))).
  - intros encoding _ [Hstandard Hextension]%andb_true_iff.
    by apply negb_true_iff in Hstandard, Hextension.
  - vm_compute. reflexivity.
Qed.

Lemma python_encoding_misspelled encoding :
  matches_standard_misspelling encoding = true
  ∨ matches_extension_misspelling encoding = true →
  python_encoding !! encoding = None.
Proof.
  intros Hmisspelled.
  destruct (python_encoding !! encoding) as [py_encoding|] eqn:Hkey;
    [|reflexivity].
  destruct (python_encoding_keys_well_spelled _ _ Hkey) as [Hs He].
  rewrite Hs, He in Hmisspelled.
  destruct Hmisspelled as [Hfalse|Hfalse]; discriminate Hfalse.
Qed.

Lemma mapM_app_raise {A B} (f : A → W B) pre x post ws ys ws' e :
  mapM f pre = (ws, inr ys) → f x = (ws', inl e) →
  mapM f (pre ++ x :: post) = (ws ++ ws', inl e).
Proof.
  revert ws ys. induction pre as [|a pre IH]; intros ws ys.
  { cbn [mapM app]. intros [= <- <-] ->. reflexivity. }
  cbn [mapM app]. destruct (f a) as [ws1 [e1|y]]; [discriminate|].
  destruct (mapM f pre) as [ws2 [e2|ys2]] eqn:Hpre; [discriminate|].
  cbn [bind ret]. intros [= <- <-] Hx.
  rewrite (IH _ _ eq_refl Hx). cbn [bind]. by rewrite app_nil_r, app_assoc.
Qed.

Lemma keep_extensions_sublist declared py_encodings :
  keep_extensions declared py_encodings `sublist_of` py_encodings.
Proof.
  revert py_encodings.
  induction declared as [|d declared IH]; intros [|p py_encodings];
    cbn [keep_extensions]; try apply sublist_nil_l.
  destruct (str_in d STAND_ALONE_ENCODINGS).
  - by apply sublist_cons.
  - by apply sublist_skip.
Qed.

Lemma without_standalone_sublist declared p py_encodings :
  ∃ kept,
    without_standalone declared (p :: py_encodings) = p :: kept
    ∧ kept `sublist_of` py_encodings.
Proof.
  destruct declared as [|first extensions]; cbn [without_standalone].
  { by exists py_encodings. }
  destruct (str_in first STAND_ALONE_ENCODINGS).
  - exists []. split; [done|]. apply sublist_nil_l.
  - eexists. split; [done|]. apply keep_extensions_sublist.
Qed.

Section ConverterProperties.
Context (L : CodecLayer).

(** X16.  An empty list of declared encodings makes [convert_encodings]
    raise [IndexError], whether [config.enforce_valid_values] is set or
    not, without a warning and without a change to a list that exists. *)
Theorem convert_encodings_empty_list enforce_valid_values σ r :
  σ !! r = Some [] →
  ∃ σ',
    raises (convert_encodings L enforce_valid_values (PyList r)) σ σ' []
      IndexError
    ∧ σ ⊆ σ'.
Proof.
  intros Hr. exists (<[fresh (dom σ) := []]> σ). split.
  - unfold convert_encodings.
    eapply raises_bind_eq.
    + eapply returns_bind_eq; [by apply returns_load| |reflexivity].
      eapply returns_bind_eq;
        [apply returns_alloc|apply returns_hret|reflexivity].
    + do 2 apply raises_bind_l.
      eapply raises_getitem; [apply lookup_insert_eq|reflexivity].
    + reflexivity.
  - apply insert_subseteq, fresh_lookup.
Qed.

(** X17.  A bare string is converted as the one encoding it names: the
    result is a new list of one element, the Python encoding that the
    string gets, after the warnings of that; what the resolution of the
    string raises, [convert_encodings] raises.  There is no check for
    stand-alone encodings, and an empty string is looked up in the table
    as it is. *)
Theorem convert_encodings_bare_string enforce_valid_values s σ :
  ∃ σ',
    σ ⊆ σ'
    ∧ match python_encoding_of L enforce_valid_values s with
      | (ws, inr py_encoding) =>
          ∃ r',
            returns (convert_encodings L enforce_valid_values (PyStr s))
              σ σ' ws r'
            ∧ σ' !! r' = Some [py_encoding]
      | (ws, inl e) =>
          raises (convert_encodings L enforce_valid_values (PyStr s))
            σ σ' ws e
      end.
Proof.
  destruct (convert_encodings_loop_spec L enforce_valid_values
              (<[fresh (dom σ) := [s]]> σ) (fresh (dom σ)) s []
              (lookup_insert_eq _ _ _))
    as (σ' & Hsub & Hloop).
  exists σ'. split.
  { etrans; [|exact Hsub]. apply insert_subseteq, fresh_lookup. }
  cbn [mapM] in Hloop. unfold convert_encodings.
  destruct (python_encoding_of L enforce_valid_values s)
    as [ws [e|py_encoding]].
  - cbn [bind] in Hloop.
    eapply raises_bind_eq; [apply returns_hret| |reflexivity].
    eapply raises_bind_eq; [apply returns_alloc|exact Hloop|reflexivity].
  - cbn [bind ret] in Hloop.
    rewrite bool_decide_eq_false_2 in Hloop by (simpl; lia).
    rewrite !app_nil_r in Hloop.
    destruct Hloop as (r' & Hreturns & Hr'). exists r'.
    split; [|exact Hr'].
    eapply returns_bind_eq; [apply returns_hret| |reflexivity].
    eapply returns_bind_eq;
      [apply returns_alloc|exact Hreturns|reflexivity].
Qed.

Lemma python_encoding_of_unknown encoding :
  unknown_encoding L encoding →
  python_encoding_of L true encoding
  = raise (LookupError ("Unknown encoding '" +:+ encoding +:+ "'"))
  ∧ python_encoding_of L false encoding
    = (["Unknown encoding '" +:+ encoding
        +:+ "' - using default encoding instead"], inr default_encoding).
Proof.
  intros [Hkey Hunknown].
  unfold python_encoding_of, _python_encoding_for_corrected_encoding.
  rewrite Hkey.
  destruct (matches_standard_misspelling encoding).
  { rewrite Hunknown. split; reflexivity. }
  destruct (matches_extension_misspelling encoding).
  { rewrite Hunknown. split; reflexivity. }
  destruct Hunknown as (e & -> & Hclass).
  cbn [try_except raise]. rewrite Hclass. split; reflexivity.
Qed.

(** X18.  An encoding that is no key of the table, cannot be corrected
    and names no codec: with [config.enforce_valid_values] set,
    [convert_encodings] raises [LookupError] at the first such encoding
    of the list, after the warnings of the encodings before it; without
    it, the encoding is given the default encoding, with one warning. *)
Theorem convert_encodings_unknown_encoding σ r encodings pre encoding post
    ws py_encodings :
  σ !! r = Some encodings →
  with_default_first encodings = pre ++ encoding :: post →
  mapM (python_encoding_of L true) pre = (ws, inr py_encodings) →
  unknown_encoding L encoding →
  (∃ σ',
     raises (convert_encodings L true (PyList r)) σ σ' ws
       (LookupError ("Unknown encoding '" +:+ encoding +:+ "'")))
  ∧ python_encoding_of L false encoding
    = (warn ("Unknown encoding '" +:+ encoding
             +:+ "' - using default encoding instead") >>
       ret default_encoding).
Proof.
  intros Hr Hdeclared Hpre Hunknown.
  destruct (python_encoding_of_unknown _ Hunknown) as [Hstrict Hlenient].
  split; [|exact Hlenient].
  destruct encodings as [|first extensions].
  { destruct pre; discriminate Hdeclared. }
  destruct (convert_encodings_list_spec L true σ r first extensions Hr)
    as (σ' & _ & Hspec).
  rewrite Hdeclared in Hspec.
  rewrite (mapM_app_raise _ _ _ post _ _ _ _ Hpre Hstrict) in Hspec.
  rewrite app_nil_r in Hspec. by exists σ'.
Qed.

(** X19.  A misspelled encoding, [ISO] and [IR] with something else than
    an underscore between them, or [ISO 2022 IR ] with other characters
    in the place of its blanks, is read as the corrected encoding when
    this is a key of the table: it gets the Python encoding of the
    corrected encoding, after one warning, also with
    [config.enforce_valid_values] set. *)
Theorem python_encoding_of_misspelled enforce_valid_values encoding patched
    py_encoding :
  matches_standard_misspelling encoding = true
  ∧ patched = "ISO_IR" +:+ str_drop 6 encoding
  ∨ matches_standard_misspelling encoding = false
    ∧ matches_extension_misspelling encoding = true
    ∧ patched = "ISO 2022 IR " +:+ str_drop 12 encoding →
  python_encoding !! patched = Some py_encoding →
  python_encoding_of L enforce_valid_values encoding
  = (warn ("Incorrect value for Specific Character Set '" +:+ encoding
           +:+ "' - assuming '" +:+ patched +:+ "'") >>
     ret py_encoding).
Proof.
  intros Hmisspelled Hpatched.
  unfold python_encoding_of, _python_encoding_for_corrected_encoding.
  rewrite python_encoding_misspelled by (destruct Hmisspelled; tauto).
  destruct Hmisspelled as [[-> ->]|(-> & -> & ->)];
    rewrite Hpatched; reflexivity.
Qed.

Lemma python_encoding_of_lenient_range encoding ws py_encoding :
  python_encoding_of L false encoding = (ws, inr py_encoding) →
  (∃ key, python_encoding !! key = Some py_encoding)
  ∨ (py_encoding = encoding ∧ python_encoding !! encoding = None
     ∧ codecs_lookup L encoding = LookupFound).
Proof.
  assert (∃ key, python_encoding !! key = Some default_encoding)
    as Hdefault.
  { exists "ISO_IR 6". vm_compute. reflexivity. }
  unfold python_encoding_of, _python_encoding_for_corrected_encoding.
  destruct (python_encoding !! encoding) as [p|] eqn:Hkey.
  { intros [= <- <-]. left. exists encoding. exact Hkey. }
  unfold _warn_about_invalid_encoding, warn, bind, ret.
  destruct (matches_standard_misspelling encoding); cbv beta iota zeta.
  { destruct (python_encoding !! ("ISO_IR" +:+ str_drop 6 encoding))
      as [p|] eqn:Hpatched; intros Heq; injection Heq as _ <-.
    - left. eexists. exact Hpatched.
    - left. exact Hdefault. }
  destruct (matches_extension_misspelling encoding); cbv beta iota zeta.
  { destruct (python_encoding !! ("ISO 2022 IR " +:+ str_drop 12 encoding))
      as [p|] eqn:Hpatched; intros Heq; injection Heq as _ <-.
    - left. eexists. exact Hpatched.
    - left. exact Hdefault. }
  destruct (codecs_lookup L encoding) as [|e] eqn:Hlookup.
  - cbn [try_except]. intros Heq. injection Heq as _ <-.
    right. split; [reflexivity|]. split; reflexivity.
  - unfold raise. cbn [try_except].
    destruct (is_LookupError e); cbv beta iota zeta; intros Heq;
      [|discriminate Heq].
    injection Heq as _ <-. left. exact Hdefault.
Qed.

Lemma mapM_python_encoding_of_lenient_range encodings ws py_encodings :
  mapM (python_encoding_of L false) encodings = (ws, inr py_encodings) →
  Forall (fun p =>
            (∃ key, python_encoding !! key = Some p)
            ∨ (p ∈ encodings ∧ python_encoding !! p = None
               ∧ codecs_lookup L p = LookupFound))
         py_encodings.
Proof.
  revert ws py_encodings.
  induction encodings as [|encoding encodings IH]; intros ws py_encodings.
  { cbn [mapM]. intros [= <- <-]. constructor. }
  cbn [mapM].
  destruct (python_encoding_of L false encoding) as [ws1 [e|p]] eqn:Hp;
    [discriminate|].
  destruct (mapM (python_encoding_of L false) encodings)
    as [ws2 [e|ps]] eqn:Hps; [discriminate|].
  cbn [bind ret]. intros [= <- <-]. constructor.
  - destruct (python_encoding_of_lenient_range _ _ _ Hp)
      as [Htable|(-> & Hkey & Hlookup)]; [left; exact Htable|].
    right. split; [apply elem_of_cons; left; reflexivity|].
    split; [exact Hkey|exact Hlookup].
  - eapply Forall_impl; [exact (IH _ _ eq_refl)|]. cbn beta.
    intros p' [Htable|(Hin & Hkey & Hlookup)]; [left; exact Htable|].
    right. split; [apply elem_of_cons; right; exact Hin|].
    split; [exact Hkey|exact Hlookup].
Qed.

(** X20.  Without [config.enforce_valid_values], [convert_encodings]
    does not raise on a list that is not empty and on whose elements
    [codecs.lookup] raises nothing but [LookupError]: it returns a list
    that is not empty and no longer than the argument, and each of its
    elements is a Python encoding of the table or an element of the
    argument that names a codec. *)
Theorem convert_encodings_lenient σ r first extensions :
  σ !! r = Some (first :: extensions) →
  Forall (plain_lookup L) (first :: extensions) →
  ∃ σ' r' ws py_encodings,
    returns (convert_encodings L false (PyList r)) σ σ' ws r'
    ∧ σ' !! r' = Some py_encodings
    ∧ py_encodings ≠ []
    ∧ (length py_encodings ≤ length (first :: extensions))%nat
    ∧ Forall (fun p =>
                (∃ key, python_encoding !! key = Some p)
                ∨ (p ∈ first :: extensions
                   ∧ codecs_lookup L p = LookupFound))
             py_encodings.
Proof.
  intros Hr Hplain.
  destruct (convert_encodings_list_spec L false σ r first extensions Hr)
    as (σ' & _ & Hspec).
  cbv zeta in Hspec.
  set (declared := with_default_first (first :: extensions)) in Hspec.
  destruct (mapM_python_encoding_of_lenient L declared
              (with_default_first_plain L _ Hplain)) as (ws & py & Hpy).
  rewrite Hpy in Hspec. destruct Hspec as (r' & Hreturns & Hr').
  pose proof (mapM_length _ _ _ _ Hpy) as Hlength.
  assert (length declared = S (length extensions)) as Hdeclared
    by reflexivity.
  pose proof (mapM_python_encoding_of_lenient_range _ _ _ Hpy) as Hrange.
  assert (Forall (fun p =>
                    (∃ key, python_encoding !! key = Some p)
                    ∨ (p ∈ first :: extensions
                       ∧ codecs_lookup L p = LookupFound))
                 py) as Hrange'.
  { eapply Forall_impl; [exact Hrange|]. cbn beta.
    intros p' [Htable|(Hin & Hkey & Hlookup)]; [left; exact Htable|].
    unfold declared in Hin. cbn [with_default_first] in Hin.
    apply elem_of_cons in Hin as [Hfirst|Hin].
    - destruct (decide (first = "")) as [Hempty|Hempty].
      + exfalso. rewrite (bool_decide_eq_true_2 _ Hempty) in Hfirst.
        rewrite Hfirst in Hkey. vm_compute in Hkey. discriminate Hkey.
      + right. rewrite (bool_decide_eq_false_2 _ Hempty) in Hfirst.
        split; [apply elem_of_cons; left; exact Hfirst|exact Hlookup].
    - right. split; [apply elem_of_cons; right; exact Hin|exact Hlookup]. }
  destruct py as [|p ps]; [simpl in Hlength; lia|].
  destruct (without_standalone_sublist declared p ps)
    as (kept & Hkept & Hsub).
  rewrite Hkept in Hr'.
  destruct (bool_decide (1 < length declared)).
  - eexists σ', r', _, _. split; [exact Hreturns|]. split; [exact Hr'|].
    split; [discriminate|]. split.
    + apply sublist_length in Hsub. rewrite Hdeclared in Hlength.
      cbn [length] in Hlength |- *. lia.
    + apply Forall_cons_2; [exact (Forall_inv Hrange')|].
      apply Forall_forall. intros p' Hin.
      apply (proj1 (Forall_forall _ _) (Forall_inv_tail Hrange')).
      exact (elem_of_sublist _ _ _ Hin Hsub).
  - eexists σ', r', _, _. split; [exact Hreturns|]. split; [exact Hr'|].
    split; [discriminate|]. split; [|exact Hrange'].
    rewrite Hdeclared in Hlength. cbn [length] in Hlength |- *. lia.
Qed.

(** X21.  An exception of [codecs.lookup] that is no [LookupError], as
    the [ValueError] for a name with a null character, is not caught: for
    an encoding that is no key of the table and no misspelling,
    [convert_encodings] raises it, after the warnings of the encodings
    before it in the list, whether [config.enforce_valid_values] is set or
    not. *)
Theorem convert_encodings_lookup_exception enforce_valid_values σ r
    encodings pre encoding post ws py_encodings e :
  σ !! r = Some encodings →
  with_default_first encodings = pre ++ encoding :: post →
  mapM (python_encoding_of L enforce_valid_values) pre
  = (ws, inr py_encodings) →
  python_encoding !! encoding = None →
  matches_standard_misspelling encoding = false →
  matches_extension_misspelling encoding = false →
  codecs_lookup L encoding = LookupRaises e →
  is_LookupError e = false →
  ∃ σ',
    raises (convert_encodings L enforce_valid_values (PyList r)) σ σ' ws e.
Proof.
  intros Hr Hdeclared Hpre Hkey Hstandard Hextension Hlookup Hclass.
  assert (python_encoding_of L enforce_valid_values encoding = raise e)
    as Hraise.
  { unfold python_encoding_of, _python_encoding_for_corrected_encoding.
    rewrite Hkey, Hstandard, Hextension, Hlookup.
    cbn [try_except raise]. rewrite Hclass. reflexivity. }
  destruct encodings as [|first extensions].
  { destruct pre; discriminate Hdeclared. }
  destruct (convert_encodings_list_spec L enforce_valid_values σ r first
              extensions Hr) as (σ' & _ & Hspec).
  rewrite Hdeclared in Hspec.
  rewrite (mapM_app_raise _ _ _ post _ _ _ _ Hpre Hraise) in Hspec.
  rewrite app_nil_r in Hspec. exists σ'. exact Hspec.
Qed.

End ConverterProperties.

(** * Runs of the further properties *)

Lemma CODES_TO_ENCODINGS_seq_length_witness :
  startswith [x1b; x24; x29; x43] [ESC] = true
  ∧ (length [x1b; x24; x29; x43] = 3 ∨ length [x1b; x24; x29; x43] = 4)
  ∧ take (seq_length_of ([x1b; x24; x29; x43] ++ [xb1; xe8]))
         ([x1b; x24; x29; x43] ++ [xb1; xe8])
    = [x1b; x24; x29; x43]
  ∧ drop (seq_length_of ([x1b; x24; x29; x43] ++ [xb1; xe8]))
         ([x1b; x24; x29; x43] ++ [xb1; xe8])
    = [xb1; xe8].
Proof.
  apply (CODES_TO_ENCODINGS_seq_length [x1b; x24; x29; x43] "euc_kr"
           [xb1; xe8]).
  vm_compute. reflexivity.
Defined.

Lemma encode_string_first_accepted_witness :
  encode_string sample_codecs true [8254; 65]%N
    ["iso8859"; "shift_jis"; "GBK"]
  = ret [x1b; x29; x49; x7e; x41].
Proof.
  refine (eq_trans
            (encode_string_first_accepted sample_codecs true [8254; 65]%N
               ["iso8859"] "shift_jis" ["GBK"] [x7e; x41] _ _) _).
  - apply Forall_cons_2; [|apply Forall_nil_2].
    eexists. split; vm_compute; reflexivity.
  - vm_compute. reflexivity.
  - vm_compute. reflexivity.
Defined.

Lemma encode_string_exception_propagates_witness :
  encode_string sample_codecs false [8254]%N
    ["iso8859"; "utf_99"; "shift_jis"]
  = raise (LookupError "unknown encoding: utf_99").
Proof.
  apply (encode_string_exception_propagates sample_codecs false [8254]%N
           ["iso8859"] "utf_99" ["shift_jis"]).
  - apply Forall_cons_2; [|apply Forall_nil_2].
    eexists. split; vm_compute; reflexivity.
  - vm_compute. reflexivity.
  - reflexivity.
Defined.

Lemma encode_string_last_resort_witness :
  encode_string sample_codecs false [19968]%N ["iso8859"; "GBK"]
  = (["Failed to encode value with encodings: iso8859, GBK - using replacement characters in encoded string"],
     inr [x3f])
  ∧ encode_string sample_codecs true [19968]%N ["iso8859"; "GBK"]
    = raise (UnicodeEncodeError "iso8859" [19968]%N 0 1).
Proof.
  destruct (encode_string_last_resort sample_codecs [19968]%N "iso8859"
              ["GBK"]) as (Hlenient & _ & Hstrict).
  - apply Forall_cons_2; [|apply Forall_cons_2; [|apply Forall_nil_2]];
      eexists; split; vm_compute; reflexivity.
  - right. eexists. split; vm_compute; reflexivity.
  - split.
    + rewrite Hlenient. vm_compute. reflexivity.
    + apply Hstrict. vm_compute. reflexivity.
Defined.

Lemma _encode_string_parts_one_part_witness :
  _encode_string_parts sample_codecs [8254; 65]%N ["iso8859"; "shift_jis"]
  = ret [x1b; x29; x49; x7e; x41].
Proof.
  refine (eq_trans
            (_encode_string_parts_one_part sample_codecs 8254%N [65%N]
               ["iso8859"] "shift_jis" [] [x7e; x41] _ _) _).
  - apply Forall_cons_2; [|apply Forall_nil_2].
    eexists. split; vm_compute; reflexivity.
  - vm_compute. reflexivity.
  - vm_compute. reflexivity.
Defined.

Lemma _encode_string_parts_gives_up_witness :
  _encode_string_parts sample_codecs [19968; 65]%N ["iso8859"; "GBK"]
  = raise (ValueError "").
Proof.
  apply (_encode_string_parts_gives_up sample_codecs 19968%N [65%N]
           ["iso8859"; "GBK"]).
  apply Forall_cons_2; [|apply Forall_cons_2; [|apply Forall_nil_2]];
    eexists; (split; [|split]); vm_compute; reflexivity.
Defined.

Lemma encode_decode_two_parts_roundtrip_witness :
  encode_string sample_codecs true [233; 65393]%N ["iso8859"; "shift_jis"]
  = ret [x1b; x28; x42; xe9; x1b; x29; x49; xb1]
  ∧ decode_string sample_codecs true
      [x1b; x28; x42; xe9; x1b; x29; x49; xb1] ["iso8859"; "shift_jis"]
      {[ x5e ]}
    = ret [233; 65393]%N.
Proof.
  destruct (encode_decode_two_parts_roundtrip sample_codecs true true
              [233%N] [65393%N] "iso8859" "shift_jis"
              (UnicodeEncodeError "iso8859" [233; 65393]%N 1 2)
              (UnicodeEncodeError "shift_jis" [233]%N 0 1)
              [xe9] [xb1] [x1b; x28; x42] [x1b; x29; x49] {[ x5e ]})
    as (_ & Hencoded & Hdecoded).
  - discriminate.
  - discriminate.
  - refine (bool_decide_unpack _ _). vm_compute. exact I.
  - refine (bool_decide_unpack _ _). vm_compute. exact I.
  - vm_compute. reflexivity.
  - vm_compute. reflexivity.
  - vm_compute. reflexivity.
  - reflexivity.
  - reflexivity.
  - vm_compute. reflexivity.
  - reflexivity.
  - simpl. lia.
  - vm_compute. reflexivity.
  - eexists. split; vm_compute; reflexivity.
  - vm_compute. reflexivity.
  - split; [exact Hencoded|]. apply Hdecoded.
    + refine (bool_decide_unpack _ _). vm_compute. exact I.
    + refine (bool_decide_unpack _ _). vm_compute. exact I.
    + repeat apply Forall_cons_2; try apply Forall_nil_2;
        rewrite elem_of_singleton; discriminate.
    + vm_compute. reflexivity.
    + vm_compute. reflexivity.
Defined.

Lemma decode_string_escaped_parts_witness :
  decode_string sample_codecs true
    [x41; x1b; x29; x49; xb1; x1b; x28; x42; x42] ["iso8859"; "shift_jis"]
    {[ x5e ]}
  = ret [65; 65393; 66]%N.
Proof.
  apply (decode_string_escaped_parts sample_codecs true "iso8859"
           ["shift_jis"] {[ x5e ]} [x41] [65%N]
           [{| part_code := [x1b; x29; x49]; part_encoding := "shift_jis";
               part_bytes := [xb1]; part_text := [65393%N] |};
            {| part_code := [x1b; x28; x42]; part_encoding := "iso8859";
               part_bytes := [x42]; part_text := [66%N] |}]).
  - refine (bool_decide_unpack _ _). vm_compute. exact I.
  - discriminate.
  - intros _. vm_compute. reflexivity.
  - discriminate.
  - apply Forall_cons_2; [|apply Forall_cons_2; [|apply Forall_nil_2]].
    + split; [vm_compute; reflexivity|].
      split; [left; refine (bool_decide_unpack _ _); vm_compute; exact I|].
      split; [refine (bool_decide_unpack _ _); vm_compute; exact I|].
      split; [refine (bool_decide_unpack _ _); vm_compute; exact I|].
      split; [|vm_compute; reflexivity].
      apply Forall_cons_2; [|apply Forall_nil_2].
      rewrite elem_of_singleton. discriminate.
    + split; [vm_compute; reflexivity|].
      split; [left; refine (bool_decide_unpack _ _); vm_compute; exact I|].
      split; [refine (bool_decide_unpack _ _); vm_compute; exact I|].
      split; [refine (bool_decide_unpack _ _); vm_compute; exact I|].
      split; [|vm_compute; reflexivity].
      apply Forall_cons_2; [|apply Forall_nil_2].
      rewrite elem_of_singleton. discriminate.
Defined.

Lemma encode_decode_extension_roundtrip_witness :
  encode_string sample_codecs true [65394; 66]%N
    ["iso8859"; "shift_jis"; "GBK"]
  = ret [x1b; x29; x49; xb2; x42]
  ∧ decode_string sample_codecs false [x1b; x29; x49; xb2; x42]
      ["iso8859"; "shift_jis"; "GBK"] {[ x5e ]}
    = ret [65394; 66]%N.
Proof.
  apply (encode_decode_extension_roundtrip sample_codecs true false
           [65394; 66]%N "iso8859" [] "shift_jis" ["GBK"] [xb2; x42]
           [x1b; x29; x49] {[ x5e ]}).
  - apply Forall_cons_2; [|apply Forall_nil_2].
    eexists. split; vm_compute; reflexivity.
  - vm_compute. reflexivity.
  - refine (bool_decide_unpack _ _). vm_compute. exact I.
  - vm_compute. reflexivity.
  - refine (bool_decide_unpack _ _). vm_compute. exact I.
  - repeat apply Forall_cons_2; try apply Forall_nil_2;
      rewrite elem_of_singleton; discriminate.
  - vm_compute. reflexivity.
Defined.

Lemma decode_string_unknown_escape_witness :
  decode_string sample_codecs true [x1b; x28; x4a; x41] ["iso8859"] ∅
  = raise (ValueError "Found unknown escape sequence in encoded string value")
  ∧ decode_string sample_codecs false [x1b; x28; x4a; x41] ["iso8859"] ∅
    = (["Found unknown escape sequence in encoded string value - using encoding iso8859"],
       inr [27; 40; 74; 65]%N).
Proof.
  destruct (decode_string_unknown_escape sample_codecs "iso8859" [] ∅
              [x28; x4a; x41]) as [Hstrict Hlenient].
  - refine (bool_decide_unpack _ _). vm_compute. exact I.
  - refine (bool_decide_unpack _ _). vm_compute. exact I.
  - vm_compute. discriminate.
  - split; [exact Hstrict|].
    refine (eq_trans (Hlenient [27; 40; 74; 65]%N _) _);
      vm_compute; reflexivity.
Defined.

Lemma decode_string_undecodable_part_witness :
  decode_string sample_codecs true [x1b; x29; x49; x80]
    ["iso8859"; "shift_jis"] ∅
  = raise (UnicodeDecodeError "shift_jis" [x80] 0 1)
  ∧ decode_string sample_codecs false [x1b; x29; x49; x80]
      ["iso8859"; "shift_jis"] ∅
    = (["Failed to decode byte string with encodings: iso8859, shift_jis - using replacement characters in decoded string"],
       inr [27; 41; 73; 128]%N).
Proof.
  destruct (decode_string_undecodable_part sample_codecs "iso8859"
              ["shift_jis"] ∅ [x1b; x29; x49] "shift_jis" [x80] 0 1)
    as [Hstrict Hlenient].
  - vm_compute. reflexivity.
  - left. refine (bool_decide_unpack _ _). vm_compute. exact I.
  - refine (bool_decide_unpack _ _). vm_compute. exact I.
  - refine (bool_decide_unpack _ _). vm_compute. exact I.
  - apply Forall_cons_2; [|apply Forall_nil_2]. apply not_elem_of_empty.
  - vm_compute. reflexivity.
  - split; [exact Hstrict|].
    refine (eq_trans (Hlenient [27; 41; 73; 128]%N _) _);
      vm_compute; reflexivity.
Defined.

Lemma _encode_to_jis_x_0201_returns_witness :
  length [x41; xb1; x3f] = length [65; 65393; 12354]%N
  ∧ Forall2 (fun c b =>
               ∃ bs, py_encode sample_codecs "shift_jis" "replace" [c]
                     = inr bs
                     ∧ [b] = single_or_question bs
                     ∧ ("replace" = "strict" → bs = [b]))
            [65; 65393; 12354]%N [x41; xb1; x3f].
Proof.
  destruct (_encode_to_jis_x_0201_returns sample_codecs [65; 65393; 12354]%N
              "replace" [] [x41; xb1; x3f]) as (_ & Hlength & Hbytes).
  - vm_compute. reflexivity.
  - split; [exact Hlength|exact Hbytes].
Defined.

Lemma encode_decode_iso2022_jp_roundtrip_witness :
  encode_string sample_codecs_jp true [12354; 12435]%N
    ["iso8859"; "iso2022_jp"]
  = ret [x1b; x24; x42; x24; x22; x24; x73; x1b; x28; x42]
  ∧ decode_string sample_codecs_jp true
      [x1b; x24; x42; x24; x22; x24; x73; x1b; x28; x42]
      ["iso8859"; "iso2022_jp"] {[ x24 ]}
    = ret [12354; 12435]%N.
Proof.
  destruct (encode_decode_iso2022_jp_roundtrip sample_codecs_jp true true
              [12354; 12435]%N "iso8859" [] [] [x24; x22; x24; x73]
              [x1b; x28; x42] {[ x24 ]}) as [Hencoded Hdecoded].
  - apply Forall_cons_2; [|apply Forall_nil_2].
    eexists. split; vm_compute; reflexivity.
  - refine (bool_decide_unpack _ _). vm_compute. exact I.
  - vm_compute. reflexivity.
  - vm_compute. reflexivity.
  - refine (bool_decide_unpack _ _). vm_compute. exact I.
  - split; [exact Hencoded|].
    apply Hdecoded; vm_compute; reflexivity.
Defined.

Lemma convert_encodings_empty_list_witness :
  ∃ σ',
    raises (convert_encodings sample_codecs false (PyList 0)) {[ 0 := [] ]}
      σ' [] IndexError
    ∧ ({[ 0 := [] ]} : store) ⊆ σ'.
Proof.
  apply (convert_encodings_empty_list sample_codecs false {[ 0 := [] ]} 0).
  vm_compute. reflexivity.
Defined.

Lemma convert_encodings_unknown_encoding_witness :
  ∃ σ',
    raises (convert_encodings sample_codecs true (PyList 0))
      {[ 0 := ["ISO_IR 100"; "nonsense"] ]} σ' []
      (LookupError "Unknown encoding 'nonsense'").
Proof.
  destruct (convert_encodings_unknown_encoding sample_codecs
              {[ 0 := ["ISO_IR 100"; "nonsense"] ]} 0
              ["ISO_IR 100"; "nonsense"] ["ISO_IR 100"] "nonsense" [] []
              ["latin_1"]) as [Hraises _].
  - vm_compute. reflexivity.
  - reflexivity.
  - vm_compute. reflexivity.
  - split; [vm_compute; reflexivity|].
    exists (LookupError "unknown encoding: nonsense").
    split; vm_compute; reflexivity.
  - exact Hraises.
Defined.

Lemma python_encoding_of_misspelled_witness :
  python_encoding_of sample_codecs true "ISO IR 100"
  = (["Incorrect value for Specific Character Set 'ISO IR 100' - assuming 'ISO_IR 100'"],
     inr "latin_1")
  ∧ python_encoding_of sample_codecs true "ISO-2022-IR-87"
    = (["Incorrect value for Specific Character Set 'ISO-2022-IR-87' - assuming 'ISO 2022 IR 87'"],
       inr "iso2022_jp").
Proof.
  split.
  - rewrite (python_encoding_of_misspelled sample_codecs true "ISO IR 100"
               "ISO_IR 100" "latin_1").
    + reflexivity.
    + left. split; reflexivity.
    + vm_compute. reflexivity.
  - rewrite (python_encoding_of_misspelled sample_codecs true
               "ISO-2022-IR-87" "ISO 2022 IR 87" "iso2022_jp").
    + reflexivity.
    + right. repeat split; reflexivity.
    + vm_compute. reflexivity.
Defined.

Lemma convert_encodings_lenient_witness :
  ∃ σ' r' ws py_encodings,
    returns (convert_encodings sample_codecs false (PyList 0))
      {[ 0 := ["ISO_IR 100"; "nonsense"; "GBK"] ]} σ' ws r'
    ∧ σ' !! r' = Some py_encodings
    ∧ py_encodings ≠ []
    ∧ (length py_encodings ≤ 3)%nat.
Proof.
  destruct (convert_encodings_lenient sample_codecs
              {[ 0 := ["ISO_IR 100"; "nonsense"; "GBK"] ]} 0 "ISO_IR 100"
              ["nonsense"; "GBK"])
    as (σ' & r' & ws & py_encodings & Hreturns & Hr' & Hne & Hlength & _).
  - vm_compute. reflexivity.
  - repeat apply Forall_cons_2; try apply Forall_nil_2;
      intros e He; vm_compute in He; try discriminate He;
      injection He as <-; reflexivity.
  - exists σ', r', ws, py_encodings. repeat split; assumption.
Defined.

Lemma convert_encodings_lookup_exception_witness :
  ∃ σ',
    raises (convert_encodings sample_codecs false (PyList 0))
      {[ 0 := ["ISO_IR 100"; String "000" "GBK"] ]} σ' []
      (ValueError "embedded null character").
Proof.
  apply (convert_encodings_lookup_exception sample_codecs false
           {[ 0 := ["ISO_IR 100"; String "000" "GBK"] ]} 0
           ["ISO_IR 100"; String "000" "GBK"] ["ISO_IR 100"]
           (String "000" "GBK") [] [] ["latin_1"]).
  - vm_compute. reflexivity.
  - reflexivity.
  - vm_compute. reflexivity.
  - vm_compute. reflexivity.
  - reflexivity.
  - reflexivity.
  - vm_compute. reflexivity.
  - reflexivity.
Defined.

Lemma encode_decode_roundtrip_witness :
  (encode_string sample_codecs false [72; 105]%N ["iso8859"]
   = ret [x48; x69]
   ∧ decode_string sample_codecs false [x48; x69] ["iso8859"] ∅
     = ret [72; 105]%N)
  ∧ (encode_string sample_codecs_jp false [12354]%N ["iso2022_jp"]
     = ret [x1b; x24; x42; x24; x22; x1b; x24; x42]
     ∧ decode_string sample_codecs_jp false
         [x1b; x24; x42; x24; x22; x1b; x24; x42] ["iso2022_jp"] ∅
       = ret [12354]%N)
  ∧ (encode_string sample_codecs_jp false [72; 105]%N ["iso2022_jp"]
     = ret [x48; x69; x1b; x24; x42]
     ∧ decode_string sample_codecs_jp false [x48; x69; x1b; x24; x42]
         ["iso2022_jp"] ∅
       = ret [72; 105]%N).
Proof.
  split; [|split].
  - destruct (encode_decode_roundtrip sample_codecs false [72; 105]%N
                "iso8859" [] ∅ [x48; x69])
      as (Hencoded & Hdecoded & _).
    + vm_compute. reflexivity.
    + split; [exact Hencoded|]. apply Hdecoded.
      * refine (bool_decide_unpack _ _). vm_compute. exact I.
      * refine (bool_decide_unpack _ _). vm_compute. exact I.
      * vm_compute. reflexivity.
  - destruct (encode_decode_roundtrip sample_codecs_jp false [12354]%N
                "iso2022_jp" [] ∅ [x1b; x24; x42; x24; x22])
      as (Hencoded & _ & Hdecoded).
    + vm_compute. reflexivity.
    + split; [exact Hencoded|]. apply Hdecoded.
      * apply elem_of_cons. left. reflexivity.
      * vm_compute. reflexivity.
      * vm_compute. reflexivity.
      * right. exists [x1b; x24; x42], [x24; x22].
        split; [reflexivity|]. split; [vm_compute; reflexivity|].
        refine (bool_decide_unpack _ _). vm_compute. exact I.
  - destruct (encode_decode_roundtrip sample_codecs_jp false [72; 105]%N
                "iso2022_jp" [] ∅ [x48; x69])
      as (Hencoded & _ & Hdecoded).
    + vm_compute. reflexivity.
    + split; [exact Hencoded|]. apply Hdecoded.
      * apply elem_of_cons. left. reflexivity.
      * vm_compute. reflexivity.
      * vm_compute. reflexivity.
      * left. split; [|discriminate].
        refine (bool_decide_unpack _ _). vm_compute. exact I.
Defined.
